(** * Magnetizability tensor for UHF: a verification development

    Shallow embedding of [pyscf/prop/magnetizability/uhf.py].

    The module is a thin composition layer: [dia] and [para] issue numpy
    calls on arrays that live in the interpreter's store and call a handful
    of routines of sibling pyscf modules.  The embedding keeps that shape:

    - scalars are an abstract type with the arithmetic the module uses (no
      algebraic law is assumed of them, so every statement below also
      covers a floating-point reading of the operations);
    - an array object is a handle (buffer address and shape) into a store
      of flat buffers, so that views ([ravel], [reshape]) share their
      buffer and the in-place updates [+=] and [-=] are writes;
    - a program is a tree of calls: numpy calls are interpreted by the
      functions of this file, the pyscf routines that are not part of the
      module by a handler that is a parameter of the development;
    - running a program yields the final store, the trace of the calls
      that were made and either a value or the exception that was raised. *)

From Stdlib Require Import List String Ascii Arith Lia Bool ZArith QArith.
Import ListNotations.
Local Close Scope Q_scope.
Local Open Scope nat_scope.
Local Open Scope string_scope.
Local Open Scope list_scope.

Set Implicit Arguments.
Set Warnings "-register-all".

(** ** Scalars and the types owned by the environment *)

(** [C] is the element type of the arrays.  [chalf] is the literal [.5],
    [cpos x] is the test [x > 0].  [Mole] is the molecule object, [Vind]
    the type of a user-supplied induced-potential function and [Hidden]
    everything of the interpreter state that is not an array buffer
    (clocks, log streams, caches of the sibling modules). *)
Class Base : Type := {
  C : Type;
  czero : C;
  cadd : C -> C -> C;
  csub : C -> C -> C;
  cmul : C -> C -> C;
  cneg : C -> C;
  cconj : C -> C;
  chalf : C;
  cpos : C -> bool;
  Mole : Type;
  Vind : Type;
  Hidden : Type
}.

(** ** Exceptions and results *)

Inductive exn : Type :=
| Exc (cls : string).

Definition ValueError : exn := Exc "ValueError".
Definition IndexError : exn := Exc "IndexError".

Inductive result (A : Type) : Type :=
| Ok (a : A)
| Raise (e : exn).
Arguments Ok {A} a.
Arguments Raise {A} e.

(** ** Array values and the numpy operations the module uses *)

Module Numpy.
Section Pure.
Context {B : Base}.

(** The value of an array: its shape and its elements in C order. *)
Record ndarray : Type := mk_nd { shape : list nat; data : list C }.

(** The value of a boolean array, as produced by [a > 0]. *)
Record mask : Type := mk_mask { mshape : list nat; mbits : list bool }.

Definition size (sh : list nat) : nat := fold_right Nat.mul 1 sh.

Definition get (d : list C) (i : nat) : C := nth i d czero.

Definition sum (l : list C) : C := fold_left cadd l czero.

Fixpoint list_eqb (a b : list nat) : bool :=
  match a, b with
  | [], [] => true
  | x :: a', y :: b' => Nat.eqb x y && list_eqb a' b'
  | _, _ => false
  end.

(** [is_suffix s l]: the shape [s] is a trailing part of the shape [l]. *)
Fixpoint is_suffix (s l : list nat) : bool :=
  list_eqb s l ||
  match l with
  | [] => false
  | _ :: l' => is_suffix s l'
  end.

(** [a > 0] *)
Definition gt0 (a : ndarray) : mask :=
  mk_mask (shape a) (map cpos (data a)).

(** Positions of the true entries of a mask, in increasing order. *)
Fixpoint true_positions (i : nat) (m : list bool) : list nat :=
  match m with
  | [] => []
  | b :: m' => if b then i :: true_positions (S i) m' else true_positions (S i) m'
  end.

(** [a[m]] for a one-dimensional boolean mask [m] over the first axis. *)
Definition take0 (a : ndarray) (m : mask) : result ndarray :=
  match shape a, mshape m with
  | d0 :: rest, [dm] =>
      if Nat.eqb dm d0 then
        let pos := true_positions 0 (mbits m) in
        let inner := size rest in
        Ok (mk_nd (List.length pos :: rest)
              (flat_map (fun i0 =>
                 map (fun k => get (data a) (i0 * inner + k)) (seq 0 inner)) pos))
      else Raise IndexError
  | _, _ => Raise IndexError
  end.

(** [a[:, m]] for a one-dimensional boolean mask [m] over the second axis. *)
Definition take1 (a : ndarray) (m : mask) : result ndarray :=
  match shape a, mshape m with
  | d0 :: d1 :: rest, [dm] =>
      if Nat.eqb dm d1 then
        let pos := true_positions 0 (mbits m) in
        let inner := size rest in
        Ok (mk_nd (d0 :: List.length pos :: rest)
              (flat_map (fun i0 =>
                 flat_map (fun i1 =>
                   map (fun k => get (data a) ((i0 * d1 + i1) * inner + k))
                       (seq 0 inner)) pos) (seq 0 d0)))
      else Raise IndexError
  | _, _ => Raise IndexError
  end.

(** [numpy.dot(a, b.T)] for two matrices: [out[i,j] = sum_l a[i,l] * b[j,l]]. *)
Definition dot_T (a b : ndarray) : result ndarray :=
  match shape a, shape b with
  | [n; k], [m; k'] =>
      if Nat.eqb k k' then
        Ok (mk_nd [n; m]
              (flat_map (fun i =>
                 map (fun j =>
                   sum (map (fun l => cmul (get (data a) (i * k + l))
                                           (get (data b) (j * k + l)))
                            (seq 0 k))) (seq 0 m)) (seq 0 n)))
      else Raise ValueError
  | _, _ => Raise ValueError
  end.

(** A binary elementwise operation [f] with the trailing-axes part of
    numpy's broadcasting: the shorter shape must be a trailing part of the
    longer one, and the smaller operand is repeated along the leading axes.
    The stretching of axes of length one is not part of the model (such
    operands raise here). *)
Definition broadcast2 (f : C -> C -> C) (a b : ndarray) : result ndarray :=
  let out :=
    if is_suffix (shape b) (shape a) then Some (shape a)
    else if is_suffix (shape a) (shape b) then Some (shape b)
    else None in
  match out with
  | Some sh =>
      Ok (mk_nd sh
            (map (fun i => f (get (data a) (i mod size (shape a)))
                             (get (data b) (i mod size (shape b))))
                 (seq 0 (size sh))))
  | None => Raise ValueError
  end.

(** [a * b] and [a + b] *)
Definition mul (a b : ndarray) : result ndarray := broadcast2 cmul a b.
Definition add (a b : ndarray) : result ndarray := broadcast2 cadd a b.

(** [a * .5] *)
Definition mul_half (a : ndarray) : ndarray :=
  mk_nd (shape a) (map (fun x => cmul x chalf) (data a)).

(** [-a] and [a.conj()] *)
Definition neg (a : ndarray) : ndarray := mk_nd (shape a) (map cneg (data a)).
Definition conj (a : ndarray) : ndarray := mk_nd (shape a) (map cconj (data a)).

(** The new contents of the buffer of [a] after [a += b] or [a -= b]
    ([f] is [cadd] or [csub]): the shape of [b] must be a trailing part
    of the shape of [a].  Two limits of the model: numpy also stretches
    an axis of length one of [b], where [inplace] raises; and numpy
    refuses an update that needs an unsafe cast (a complex [b] into a real
    [a]) with a [TypeError], which cannot arise here, all arrays having one
    and the same type of scalars. *)
Fixpoint update_from (f : C -> C -> C) (i nb : nat) (buf bd : list C) : list C :=
  match buf with
  | [] => []
  | x :: buf' => f x (get bd (i mod nb)) :: update_from f (S i) nb buf' bd
  end.

Definition inplace (f : C -> C -> C) (a b : ndarray) : result (list C) :=
  if is_suffix (shape b) (shape a)
  then Ok (update_from f 0 (size (shape b)) (data a) (data b))
  else Raise ValueError.

(** *** einsum *)

(** An index environment: the value (or the extent) of each label. *)
Definition env : Type := list (ascii * nat).

Fixpoint lookup (l : ascii) (e : env) : option nat :=
  match e with
  | [] => None
  | (l', v) :: e' => if Ascii.eqb l l' then Some v else lookup l e'
  end.

Definition lookup0 (l : ascii) (e : env) : nat :=
  match lookup l e with Some v => v | None => 0 end.

Fixpoint split_on (sep : ascii) (s : list ascii) : list (list ascii) :=
  match s with
  | [] => [[]]
  | c :: r =>
      if Ascii.eqb c sep then [] :: split_on sep r
      else match split_on sep r with
           | w :: ws => (c :: w) :: ws
           | [] => [[c]]
           end
  end.

Fixpoint split_arrow (s : list ascii) : option (list ascii * list ascii) :=
  match s with
  | [] => None
  | c :: r =>
      match r with
      | c' :: r' =>
          if Ascii.eqb c "-" && Ascii.eqb c' ">" then Some ([], r')
          else match split_arrow r with
               | Some (l, o) => Some (c :: l, o)
               | None => None
               end
      | [] => None
      end
  end.

(** The subscripts of the operands and of the output of ["ab,bc->ac"]. *)
Definition parse_spec (spec : string) : option (list (list ascii) * list ascii) :=
  match split_arrow (list_ascii_of_string spec) with
  | Some (ins, out) => Some (split_on "," ins, out)
  | None => None
  end.

(** The extent of every label, from the shapes of the operands; [None]
    when an operand has not as many axes as subscripts or two axes with one
    label differ in length. *)
Fixpoint bind_axes (ls : list ascii) (sh : list nat) (e : env) : option env :=
  match ls, sh with
  | [], [] => Some e
  | l :: ls', d :: sh' =>
      match lookup l e with
      | Some d' => if Nat.eqb d d' then bind_axes ls' sh' e else None
      | None => bind_axes ls' sh' (e ++ [(l, d)])
      end
  | _, _ => None
  end.

Fixpoint bind_operands (lss : list (list ascii)) (ops : list ndarray) (e : env)
  : option env :=
  match lss, ops with
  | [], [] => Some e
  | ls :: lss', a :: ops' =>
      match bind_axes ls (shape a) e with
      | Some e' => bind_operands lss' ops' e'
      | None => None
      end
  | _, _ => None
  end.

(** All index tuples over the given extents, the last label fastest. *)
Fixpoint assignments (dims : env) : list env :=
  match dims with
  | [] => [[]]
  | (l, d) :: rest =>
      flat_map (fun i => map (cons (l, i)) (assignments rest)) (seq 0 d)
  end.

Fixpoint flat_index (e : env) (ls : list ascii) (sh : list nat) (acc : nat) : nat :=
  match ls, sh with
  | l :: ls', d :: sh' => flat_index e ls' sh' (acc * d + lookup0 l e)
  | _, _ => acc
  end.

Definition element (e : env) (ls : list ascii) (a : ndarray) : C :=
  get (data a) (flat_index e ls (shape a) 0).

(** The product of the operands' elements at one index tuple. *)
Definition term (e : env) (lss : list (list ascii)) (ops : list ndarray) : C :=
  match combine lss ops with
  | [] => czero
  | (ls, a) :: rest =>
      fold_left (fun acc p => cmul acc (element e (fst p) (snd p))) rest
                (element e ls a)
  end.

Definition mem_label (l : ascii) (ls : list ascii) : bool :=
  existsb (Ascii.eqb l) ls.

Fixpoint nodup_labels (ls : list ascii) : bool :=
  match ls with
  | [] => true
  | l :: ls' => negb (mem_label l ls') && nodup_labels ls'
  end.

Fixpoint out_dims (out : list ascii) (e : env) : option env :=
  match out with
  | [] => Some []
  | l :: out' =>
      match lookup l e, out_dims out' e with
      | Some d, Some r => Some ((l, d) :: r)
      | _, _ => None
      end
  end.

(** [einsum(spec, *ops)] with an explicit output (["...->..."]): for every
    index tuple of the output labels, the sum over the remaining labels of
    the products of the operands' elements.  A label must have one extent
    in all operands: numpy also stretches an axis of length one to the
    extent the label has elsewhere, where [einsum] raises. *)
Definition einsum (spec : string) (ops : list ndarray) : result ndarray :=
  match parse_spec spec with
  | None => Raise ValueError
  | Some (lss, out) =>
      match bind_operands lss ops [] with
      | None => Raise ValueError
      | Some e =>
          match out_dims out e with
          | None => Raise ValueError
          | Some od =>
              if nodup_labels out then
                let sd := filter (fun p => negb (mem_label (fst p) out)) e in
                Ok (mk_nd (map snd od)
                      (map (fun eo =>
                         sum (map (fun es => term (eo ++ es) lss ops)
                                  (assignments sd)))
                         (assignments od)))
              else Raise ValueError
          end
      end
  end.

End Pure.
End Numpy.

(** ** The store, the objects and the calls *)

Section Machine.
Context {B : Base}.
Import Numpy.

(** An array object: the address of its buffer and its shape.  Two
    objects with one [base] are views of one buffer. *)
Definition loc : Type := nat.
Record aref : Type := mk_ref { base : loc; ashape : list nat }.

(** The store of array buffers, addressed by position; a new buffer is
    appended. *)
Definition heap : Type := list (list C).

Record world : Type := mk_world { heap_of : heap; hidden_of : Hidden }.

Definition set_heap (w : world) (h : heap) : world := mk_world h (hidden_of w).

Definition read (h : heap) (a : aref) : ndarray :=
  mk_nd (ashape a) (nth (base a) h []).

Definition alloc (h : heap) (v : ndarray) : heap * aref :=
  (h ++ [data v], mk_ref (List.length h) (shape v)).

Fixpoint write (h : heap) (l : loc) (d : list C) : heap :=
  match h, l with
  | [], _ => []
  | _ :: h', O => d :: h'
  | x :: h', S l' => x :: write h' l' d
  end.

(** The gauge origin, a point such as [(0,0,1)]. *)
Definition gauge : Type := (C * C * C)%type.

(** A value of [with_cphf] or of the attribute [cphf]: [None], a boolean
    or a function computing the induced potential. *)
Inductive cphf_arg : Type :=
| CphfNone
| CphfBool (b : bool)
| CphfFun (f : Vind).

(** Function objects are identified by their qualified name. *)
Inductive pyfun : Type :=
| Fn (qualname : string).

(** The value of a class attribute: a function, a string or [None]. *)
Inductive pyval : Type :=
| VFun (f : pyfun)
| VStr (s : string)
| VNone.

(** A class: its name, its bases and the attributes it has of its own,
    those bound by the statements of its body and those a class statement
    binds by itself ([__module__], [__qualname__], [__doc__]). *)
Inductive pyclass : Type :=
| PyClass (name : string) (bases : list pyclass) (body : list (string * pyval)).

Definition cls_bases (c : pyclass) : list pyclass :=
  match c with PyClass _ bs _ => bs end.

Definition cls_body (c : pyclass) : list (string * pyval) :=
  match c with PyClass _ _ d => d end.

Fixpoint assoc (k : string) (d : list (string * pyval)) : option pyval :=
  match d with
  | [] => None
  | (k', v) :: d' => if String.eqb k k' then Some v else assoc k d'
  end.

(** Attribute lookup through the dictionaries of a class and of its
    bases: its own dictionary first, then its bases from left to right.
    (What the metaclass answers by itself, such as [__name__] or
    [__bases__], is not looked up this way and is not part of the model.) *)
Fixpoint cls_getattr (c : pyclass) (k : string) : option pyval :=
  match c with
  | PyClass _ bs d =>
      match assoc k d with
      | Some v => Some v
      | None =>
          (fix first (l : list pyclass) : option pyval :=
             match l with
             | [] => None
             | b :: l' =>
                 match cls_getattr b k with
                 | Some v => Some v
                 | None => first l'
                 end
             end) bs
      end
  end.

(** The SCF object [mf]: orbital energies, coefficients and occupations,
    each with an alpha ([0]) and a beta ([1]) component. *)
Record SCF : Type := mk_scf {
  mo_energy : aref * aref;
  mo_coeff : aref * aref;
  mo_occ : aref * aref
}.

(** The magnetizability object, with the attributes the module reads.
    The module assigns none of them, and the record is a value.  The
    attributes that a routine of the environment sets on the object it is
    handed ([logger.timer] sets [_t0] and [_w0]) are part of the state of
    the environment: see [ObjectFields] below. *)
Record MagObj : Type := mk_mag {
  cls : pyclass;
  mol : Mole;
  _scf : SCF;
  stdout : string;
  verbose : nat;
  cphf : cphf_arg
}.

(** [logger.Logger(stdout, verbose)] *)
Record Logger : Type := mk_logger { log_stdout : string; log_verbose : nat }.

(** Calls interpreted by this file: numpy, [lib.einsum] and the indexing
    of a list.  [DotT a b] is [numpy.dot(a, b.T)]; [LibEinsum] is pyscf's
    [lib.einsum], which evaluates numpy's einsum through matrix products
    and is given numpy's value. *)
Inductive op : Type -> Type :=
| Gt0 (a : aref) : op mask
| Take0 (a : aref) (m : mask) : op aref
| Take1 (a : aref) (m : mask) : op aref
| DotT (a b : aref) : op aref
| Mul (a b : aref) : op aref
| Add (a b : aref) : op aref
| MulHalf (a : aref) : op aref
| Neg (a : aref) : op aref
| Conj (a : aref) : op aref
| IAdd (a b : aref) : op unit
| ISub (a b : aref) : op unit
| Ravel (a : aref) : op aref
| Reshape (a : aref) (sh : list nat) : op aref
| Einsum (spec : string) (ops : list aref) : op aref
| LibEinsum (spec : string) (ops : list aref) : op aref
| Index (l : list aref) (i : nat) : op aref.

(** Calls into the rest of pyscf and into the clock, interpreted by the
    handler of the environment. *)
Inductive ext : Type -> Type :=
| Rhf_get_dia_1e (magobj : MagObj) (gauge_orig : option gauge) (dm0 dme0 : aref)
    : ext aref
| Jk_get_jk (mol : Mole) (dms : list aref) (scripts : list string)
    (intor aosym : string) (comp hermi : nat) : ext (list aref)
| Get_fock (magobj : MagObj) (dm0 : aref * aref) (gauge_orig : option gauge)
    : ext (aref * aref)
| Get_ovlp (magobj : MagObj) (mol : Mole) (gauge_orig : option gauge) : ext aref
| Solve_mo1 (magobj : MagObj) (mo_energy mo_coeff mo_occ h1 s1 : aref * aref)
    (with_cphf : cphf_arg) : ext ((aref * aref) * (aref * aref))
| Clock : ext C
| Time : ext C
| Log_timer (log : Logger) (msg : string) (t0 t1 : C) : ext (C * C)
| Logger_timer (magobj : MagObj) (msg : string) (t0 t1 : C) : ext (C * C).

(** The handler of the environment. *)
Class Externals : Type := {
  ext_handle : forall X, ext X -> world -> world * result X
}.

(** What an [op] does to the store.  A failing call leaves it as it is. *)
Definition fresh (h : heap) (r : result ndarray) : heap * result aref :=
  match r with
  | Ok v => let (h', a) := alloc h v in (h', Ok a)
  | Raise e => (h, Raise e)
  end.

Definition store (h : heap) (a : aref) (r : result (list C)) : heap * result unit :=
  match r with
  | Ok d => (write h (base a) d, Ok tt)
  | Raise e => (h, Raise e)
  end.

Definition do_op X (c : op X) (h : heap) : heap * result X :=
  match c in op X return heap * result X with
  | Gt0 a => (h, Ok (gt0 (read h a)))
  | Take0 a m => fresh h (take0 (read h a) m)
  | Take1 a m => fresh h (take1 (read h a) m)
  | DotT a b => fresh h (dot_T (read h a) (read h b))
  | Mul a b => fresh h (mul (read h a) (read h b))
  | Add a b => fresh h (add (read h a) (read h b))
  | MulHalf a => fresh h (Ok (mul_half (read h a)))
  | Neg a => fresh h (Ok (neg (read h a)))
  | Conj a => fresh h (Ok (conj (read h a)))
  | IAdd a b => store h a (inplace cadd (read h a) (read h b))
  | ISub a b => store h a (inplace csub (read h a) (read h b))
  | Ravel a => (h, Ok (mk_ref (base a) [size (ashape a)]))
  | Reshape a sh =>
      (h, if Nat.eqb (size sh) (size (ashape a))
          then Ok (mk_ref (base a) sh) else Raise ValueError)
  | Einsum spec ops => fresh h (einsum spec (map (read h) ops))
  | LibEinsum spec ops => fresh h (einsum spec (map (read h) ops))
  | Index l i =>
      (h, match nth_error l i with
          | Some a => Ok a
          | None => Raise IndexError
          end)
  end.

(** ** Programs *)

(** A program returns a value, raises, makes a call and goes on with its
    result, or runs a body under an exception handler. *)
Inductive prog (A : Type) : Type :=
| Ret (a : A)
| Throw (e : exn)
| OpCall X (c : op X) (k : X -> prog A)
| ExtCall X (c : ext X) (k : X -> prog A)
| Try E (body : prog E) (handler : exn -> prog E) (k : E -> prog A).

Arguments Ret {A} a.
Arguments Throw {A} e.

Fixpoint bind A R (p : prog A) (f : A -> prog R) : prog R :=
  match p with
  | Ret a => f a
  | Throw e => Throw e
  | OpCall c k => OpCall c (fun x => bind (k x) f)
  | ExtCall c k => ExtCall c (fun x => bind (k x) f)
  | Try body handler k => Try body handler (fun x => bind (k x) f)
  end.

Definition np X (c : op X) : prog X := OpCall c Ret.
Definition call X (c : ext X) : prog X := ExtCall c Ret.

(** One call of a run: the call, the state it was made in and its result. *)
Inductive event : Type :=
| EvOp X (c : op X) (w : world) (r : result X)
| EvExt X (c : ext X) (w : world) (r : result X).

Record outcome (A : Type) : Type := mk_out {
  final : world;
  trace : list event;
  value : result A
}.

Definition after A (evs : list event) (o : outcome A) : outcome A :=
  mk_out (final o) (evs ++ trace o) (value o).

Fixpoint run {X : Externals} A (p : prog A) (w : world) : outcome A :=
  match p with
  | Ret a => mk_out w [] (Ok a)
  | Throw e => mk_out w [] (Raise e)
  | OpCall c k =>
      match do_op c (heap_of w) with
      | (h', Ok x) => after [EvOp c w (Ok x)] (run (k x) (set_heap w h'))
      | (h', Raise e) => mk_out (set_heap w h') [EvOp c w (Raise e)] (Raise e)
      end
  | ExtCall c k =>
      match ext_handle c w with
      | (w', Ok x) => after [EvExt c w (Ok x)] (run (k x) w')
      | (w', Raise e) => mk_out w' [EvExt c w (Raise e)] (Raise e)
      end
  | Try body handler k =>
      let o1 := run body w in
      match value o1 with
      | Ok x => after (trace o1) (run (k x) (final o1))
      | Raise e =>
          let o2 := run (handler e) (final o1) in
          match value o2 with
          | Ok x => after (trace o1 ++ trace o2) (run (k x) (final o2))
          | Raise e' => mk_out (final o2) (trace o1 ++ trace o2) (Raise e')
          end
      end
  end.

End Machine.

Arguments Ret {B A} a.
Arguments Throw {B A} e.

Declare Scope prog_scope.
Delimit Scope prog_scope with prog.
Notation "x <- p ;; q" := (bind p (fun x => q))
  (at level 61, p at next level, right associativity) : prog_scope.
Notation "p ;;; q" := (bind p (fun _ => q))
  (at level 61, right associativity) : prog_scope.

(** ** The module [pyscf.prop.magnetizability.uhf] *)

Section Uhf.
Context {B : Base}.
Local Open Scope prog_scope.

(** [def dia(magobj, gauge_orig=None)] *)
Definition dia (magobj : MagObj) (gauge_orig : option gauge) : prog aref :=
  let mol := mol magobj in
  let mf := _scf magobj in
  let mo_energy := mo_energy mf in
  let mo_coeff := mo_coeff mf in
  let mo_occ := mo_occ mf in
  (* orboa = mo_coeff[0][:,mo_occ[0] > 0] *)
  occa <- np (Gt0 (fst mo_occ)) ;;
  orboa <- np (Take1 (fst mo_coeff) occa) ;;
  (* orbob = mo_coeff[1][:,mo_occ[1] > 0] *)
  occb <- np (Gt0 (snd mo_occ)) ;;
  orbob <- np (Take1 (snd mo_coeff) occb) ;;
  (* dm0a = numpy.dot(orboa, orboa.T); dm0b likewise; dm0 = dm0a + dm0b *)
  dm0a <- np (DotT orboa orboa) ;;
  dm0b <- np (DotT orbob orbob) ;;
  dm0 <- np (Add dm0a dm0b) ;;
  (* dme0a = numpy.dot(orboa * mo_energy[0][mo_occ[0] > 0], orboa.T) *)
  occa' <- np (Gt0 (fst mo_occ)) ;;
  ea <- np (Take0 (fst mo_energy) occa') ;;
  oea <- np (Mul orboa ea) ;;
  dme0a <- np (DotT oea orboa) ;;
  (* dme0b = numpy.dot(orbob * mo_energy[1][mo_occ[1] > 0], orbob.T) *)
  occb' <- np (Gt0 (snd mo_occ)) ;;
  eb <- np (Take0 (snd mo_energy) occb') ;;
  oeb <- np (Mul orbob eb) ;;
  dme0b <- np (DotT oeb orbob) ;;
  dme0 <- np (Add dme0a dme0b) ;;
  (* e2 = rhf_mag._get_dia_1e(magobj, gauge_orig, dm0, dme0).ravel() *)
  e1 <- call (Rhf_get_dia_1e magobj gauge_orig dm0 dme0) ;;
  e2 <- np (Ravel e1) ;;
  match gauge_orig with
  | None =>
      vs <- call (Jk_get_jk mol [dm0; dm0a; dm0a; dm0b; dm0b]
                    ["ijkl,ji->s2kl";
                     "ijkl,jk->s1il"; "ijkl,li->s1kj";
                     "ijkl,jk->s1il"; "ijkl,li->s1kj"]
                    "int2e_gg1" "s4" 9 1) ;;
      (* e2 += numpy.einsum('xpq,qp->x', vs[0], dm0) *)
      v0 <- np (Index vs 0) ;;
      t0 <- np (Einsum "xpq,qp->x" [v0; dm0]) ;;
      np (IAdd e2 t0) ;;;
      (* e2 -= numpy.einsum('xpq,qp->x', vs[1], dm0a) * .5 *)
      v1 <- np (Index vs 1) ;;
      t1 <- np (Einsum "xpq,qp->x" [v1; dm0a]) ;;
      t1' <- np (MulHalf t1) ;;
      np (ISub e2 t1') ;;;
      v2 <- np (Index vs 2) ;;
      t2 <- np (Einsum "xpq,qp->x" [v2; dm0a]) ;;
      t2' <- np (MulHalf t2) ;;
      np (ISub e2 t2') ;;;
      v3 <- np (Index vs 3) ;;
      t3 <- np (Einsum "xpq,qp->x" [v3; dm0b]) ;;
      t3' <- np (MulHalf t3) ;;
      np (ISub e2 t3') ;;;
      v4 <- np (Index vs 4) ;;
      t4 <- np (Einsum "xpq,qp->x" [v4; dm0b]) ;;
      t4' <- np (MulHalf t4) ;;
      np (ISub e2 t4') ;;;
      vk <- call (Jk_get_jk mol [dm0a; dm0b] ["ijkl,jk->s1il"; "ijkl,jk->s1il"]
                    "int2e_g1g2" "aa4" 9 0) ;;
      (* e2 -= numpy.einsum('xpq,qp->x', vk[0], dm0a) *)
      k0 <- np (Index vk 0) ;;
      u0 <- np (Einsum "xpq,qp->x" [k0; dm0a]) ;;
      np (ISub e2 u0) ;;;
      k1 <- np (Index vk 1) ;;
      u1 <- np (Einsum "xpq,qp->x" [k1; dm0b]) ;;
      np (ISub e2 u1)
  | Some _ => Ret tt
  end ;;;
  (* return -e2.reshape(3, 3) *)
  r <- np (Reshape e2 [3; 3]) ;;
  np (Neg r).

(** [def para(magobj, gauge_orig=None, h1=None, s1=None, with_cphf=None)] *)
Definition para (magobj : MagObj) (gauge_orig : option gauge)
    (h1 s1 : option (aref * aref)) (with_cphf : cphf_arg) : prog aref :=
  let log := mk_logger (stdout magobj) (verbose magobj) in
  c0 <- call Clock ;;
  c1 <- call Time ;;
  let cput1 := (c0, c1) in
  let mol := mol magobj in
  let mf := _scf magobj in
  let mo_energy := mo_energy mf in
  let mo_coeff := mo_coeff mf in
  let mo_occ := mo_occ mf in
  occa <- np (Gt0 (fst mo_occ)) ;;
  orboa <- np (Take1 (fst mo_coeff) occa) ;;
  occb <- np (Gt0 (snd mo_occ)) ;;
  orbob <- np (Take1 (snd mo_coeff) occb) ;;
  h1c <-
    match h1 with
    | None =>
        (* Imaginary part of F10 *)
        dm0a <- np (DotT orboa orboa) ;;
        dm0b <- np (DotT orbob orbob) ;;
        let dm0 := (dm0a, dm0b) in
        h1 <- call (Get_fock magobj dm0 gauge_orig) ;;
        ca <- np (Conj (fst mo_coeff)) ;;
        h1a <- np (LibEinsum "xpq,pi,qj->xij" [fst h1; ca; orboa]) ;;
        cb <- np (Conj (snd mo_coeff)) ;;
        h1b <- np (LibEinsum "xpq,pi,qj->xij" [snd h1; cb; orbob]) ;;
        cput1 <- call (Log_timer log "first order Fock matrix" (fst cput1) (snd cput1)) ;;
        Ret ((h1a, h1b), cput1)
    | Some h1 => Ret (h1, cput1)
    end ;;
  let h1 := fst h1c in
  let cput1 := snd h1c in
  s1 <-
    match s1 with
    | None =>
        (* Imaginary part of S10 *)
        s1 <- call (Get_ovlp magobj mol gauge_orig) ;;
        ca <- np (Conj (fst mo_coeff)) ;;
        s1a <- np (LibEinsum "xpq,pi,qj->xij" [s1; ca; orboa]) ;;
        cb <- np (Conj (snd mo_coeff)) ;;
        s1b <- np (LibEinsum "xpq,pi,qj->xij" [s1; cb; orbob]) ;;
        Ret (s1a, s1b)
    | Some s1 => Ret s1
    end ;;
  let with_cphf := cphf magobj in
  sol <- call (Solve_mo1 magobj mo_energy mo_coeff mo_occ h1 s1 with_cphf) ;;
  let mo1 := fst sol in
  let mo_e1 := snd sol in
  cput1 <- call (Logger_timer magobj "solving mo1 eqn" (fst cput1) (snd cput1)) ;;
  occidxa <- np (Gt0 (fst mo_occ)) ;;
  occidxb <- np (Gt0 (snd mo_occ)) ;;
  (* mag_para = numpy.einsum('yji,xji->xy', mo1[0], h1[0]) *)
  mag_para <- np (Einsum "yji,xji->xy" [fst mo1; fst h1]) ;;
  p1 <- np (Einsum "yji,xji->xy" [snd mo1; snd h1]) ;;
  np (IAdd mag_para p1) ;;;
  ea <- np (Take0 (fst mo_energy) occidxa) ;;
  p2 <- np (Einsum "yji,xji,i->xy" [fst mo1; fst s1; ea]) ;;
  np (ISub mag_para p2) ;;;
  eb <- np (Take0 (snd mo_energy) occidxb) ;;
  p3 <- np (Einsum "yji,xji,i->xy" [snd mo1; snd s1; eb]) ;;
  np (ISub mag_para p3) ;;;
  (* + c.c. *)
  cc <- np (Conj mag_para) ;;
  mag_para <- np (Add mag_para cc) ;;
  s1oa <- np (Take1 (fst s1) occidxa) ;;
  p4 <- np (Einsum "xij,yij->xy" [s1oa; fst mo_e1]) ;;
  np (ISub mag_para p4) ;;;
  s1ob <- np (Take1 (snd s1) occidxb) ;;
  p5 <- np (Einsum "xij,yij->xy" [s1ob; snd mo_e1]) ;;
  np (ISub mag_para p5) ;;;
  np (Neg mag_para).

(** The functions the class statement binds, by their qualified names. *)
Definition uhf_dia : pyfun := Fn "pyscf.prop.magnetizability.uhf.dia".
Definition uhf_para : pyfun := Fn "pyscf.prop.magnetizability.uhf.para".
Definition uhf_nmr_get_fock : pyfun := Fn "pyscf.prop.nmr.uhf.get_fock".

(** [class Magnetizability(rhf_mag.Magnetizability)]: the base class is
    the one of the restricted module, which is not part of this file.
    The class has of its own the three names its body binds and what
    every class statement binds: [__module__], the name the module runs
    under (its import name, or [__main__] when the file is run as a
    script), [__qualname__] and, there being no docstring, [__doc__] as
    [None].  Every other name is looked up in the base. *)
Definition Magnetizability (__name__ : string)
    (rhf_mag_Magnetizability : pyclass) : pyclass :=
  PyClass "Magnetizability" [rhf_mag_Magnetizability]
    [("__module__", VStr __name__);
     ("__qualname__", VStr "Magnetizability");
     ("dia", VFun uhf_dia);
     ("para", VFun uhf_para);
     ("get_fock", VFun uhf_nmr_get_fock);
     ("__doc__", VNone)].

End Uhf.

(** ** A small concrete environment

    Rational scalars and a handler whose routines return freshly allocated
    arrays of the documented shapes.  It is used to run [dia] and [para] on
    a two-orbital system. *)

Module Toy.
Import Numpy.

#[export] Instance QBase : Base := {|
  C := Q;
  czero := 0%Q;
  cadd := fun x y => Qred (x + y)%Q;
  csub := fun x y => Qred (x - y)%Q;
  cmul := fun x y => Qred (x * y)%Q;
  cneg := fun x => Qred (- x)%Q;
  cconj := fun x => x;
  chalf := (1 # 2)%Q;
  cpos := fun x => Z.ltb 0 (Qnum x);
  Mole := unit;
  Vind := unit;
  Hidden := nat
|}.

Definition ramp (n : nat) : list Q := map (fun i => inject_Z (Z.of_nat (S i))) (seq 0 n).

(** Append one buffer per shape; the new arrays, in order. *)
Fixpoint alloc_all (h : heap) (shapes : list (list nat)) : heap * list aref :=
  match shapes with
  | [] => (h, [])
  | sh :: rest =>
      let (h1, a) := alloc h (mk_nd sh (ramp (size sh))) in
      let (h2, l) := alloc_all h1 rest in
      (h2, a :: l)
  end.

Definition dflt : aref := mk_ref 0 [].

Definition nao_of (a : aref) : nat := hd 0 (ashape a).

Definition toy_handle X (c : ext X) (w : world) : world * result X :=
  let h := heap_of w in
  let s := hidden_of w in
  match c in ext X return world * result X with
  | Rhf_get_dia_1e _ _ _ _ =>
      let (h', l) := alloc_all h [[3; 3]] in
      (mk_world h' s, Ok (nth 0 l dflt))
  | Jk_get_jk _ dms _ _ _ comp _ =>
      let (h', l) := alloc_all h (map (fun d => comp :: ashape d) dms) in
      (mk_world h' s, Ok l)
  | Get_fock _ dm0 _ =>
      let (h', l) := alloc_all h [3 :: ashape (fst dm0); 3 :: ashape (snd dm0)] in
      (mk_world h' s, Ok (nth 0 l dflt, nth 1 l dflt))
  | Get_ovlp m _ _ =>
      let n := nao_of (fst (mo_coeff (_scf m))) in
      let (h', l) := alloc_all h [[3; n; n]] in
      (mk_world h' s, Ok (nth 0 l dflt))
  | Solve_mo1 _ _ _ _ h1 _ _ =>
      let occ (a : aref) := nth 2 (ashape a) 0 in
      let (h', l) :=
        alloc_all h [3 :: tl (ashape (fst h1)); 3 :: tl (ashape (snd h1));
                     [3; occ (fst h1); occ (fst h1)];
                     [3; occ (snd h1); occ (snd h1)]] in
      (mk_world h' s,
       Ok ((nth 0 l dflt, nth 1 l dflt), (nth 2 l dflt, nth 3 l dflt)))
  | Clock => (mk_world h (S s), Ok (inject_Z (Z.of_nat s)))
  | Time => (mk_world h (S s), Ok (inject_Z (Z.of_nat s)))
  | Log_timer _ _ _ _ =>
      (mk_world h (S s), Ok (inject_Z (Z.of_nat s), inject_Z (Z.of_nat s)))
  | Logger_timer _ _ _ _ =>
      (mk_world h (S s), Ok (inject_Z (Z.of_nat s), inject_Z (Z.of_nat s)))
  end.

#[export] Instance toy : Externals := {| ext_handle := toy_handle |}.

(** Two basis functions, two orbitals per spin; alpha has both orbitals
    occupied, beta one.  Buffers 0..5 hold the orbital energies,
    coefficients and occupations. *)
Definition h0 : heap :=
  [ [-2; 1]%Q; [-1; 3]%Q;
    [1; 2; 3; 4]%Q; [1; 0; 1; 1]%Q;
    [1; 1]%Q; [1; 0]%Q ].

Definition mf : SCF :=
  mk_scf (mk_ref 0 [2], mk_ref 1 [2])
         (mk_ref 2 [2; 2], mk_ref 3 [2; 2])
         (mk_ref 4 [2], mk_ref 5 [2]).

Definition rhf_cls : pyclass :=
  PyClass "Magnetizability" []
    [("__module__", VStr "pyscf.prop.magnetizability.rhf");
     ("__qualname__", VStr "Magnetizability");
     ("__doc__", VStr "Magnetizability of the restricted module");
     ("dia", VFun (Fn "pyscf.prop.magnetizability.rhf.dia"));
     ("para", VFun (Fn "pyscf.prop.magnetizability.rhf.para"));
     ("get_fock", VFun (Fn "pyscf.prop.nmr.rhf.get_fock"));
     ("get_ovlp",
      VFun (Fn "pyscf.prop.magnetizability.rhf.Magnetizability.get_ovlp"));
     ("kernel",
      VFun (Fn "pyscf.prop.magnetizability.rhf.Magnetizability.kernel"))].

Definition uhf_cls : pyclass :=
  Magnetizability "pyscf.prop.magnetizability.uhf" rhf_cls.

Definition mag : MagObj :=
  mk_mag uhf_cls tt mf "/dev/null" 7 (CphfBool true).

Definition w0 : world := mk_world h0 0.

Definition origin : gauge := (0, 0, 1)%Q.

(** A magnetizability object whose alpha occupations have three entries for
    two orbitals: selecting the occupied orbitals fails. *)
Definition bad : MagObj :=
  mk_mag uhf_cls tt
    (mk_scf (mo_energy mf) (mo_coeff mf) (mk_ref 4 [3], mk_ref 5 [2]))
    "/dev/null" 7 (CphfBool true).

End Toy.

(** ** Observations on programs and traces *)

Section Observations.
Context {B : Base}.

(** A program that neither raises by itself nor installs a handler: every
    node is a return or a call. *)
Inductive plain A : prog A -> Prop :=
| plain_ret (a : A) : plain (Ret a)
| plain_op T (c : op T) (k : T -> prog A) :
    (forall x, plain (k x)) -> plain (OpCall c k)
| plain_ext T (c : ext T) (k : T -> prog A) :
    (forall x, plain (k x)) -> plain (ExtCall c k).

(** The exception a call ended with, if any. *)
Definition ev_exn (ev : event) : option exn :=
  match ev with
  | EvOp _ _ (Raise e) => Some e
  | EvExt _ _ (Raise e) => Some e
  | _ => None
  end.

(** The state a call was made in. *)
Definition ev_world (ev : event) : world :=
  match ev with
  | EvOp _ w _ => w
  | EvExt _ w _ => w
  end.

Definition op_name T (c : op T) : string :=
  match c with
  | Gt0 _ => "gt0"
  | Take0 _ _ => "take0"
  | Take1 _ _ => "take1"
  | DotT _ _ => "numpy.dot"
  | Mul _ _ => "mul"
  | Add _ _ => "add"
  | MulHalf _ => "mul_half"
  | Neg _ => "neg"
  | Conj _ => "conj"
  | IAdd _ _ => "iadd"
  | ISub _ _ => "isub"
  | Ravel _ => "ravel"
  | Reshape _ _ => "reshape"
  | Einsum _ _ => "numpy.einsum"
  | LibEinsum _ _ => "lib.einsum"
  | Index _ _ => "getitem"
  end.

Definition ext_name T (c : ext T) : string :=
  match c with
  | Rhf_get_dia_1e _ _ _ _ => "rhf_mag._get_dia_1e"
  | Jk_get_jk _ _ _ _ _ _ _ => "jk.get_jk"
  | Get_fock _ _ _ => "magobj.get_fock"
  | Get_ovlp _ _ _ => "magobj.get_ovlp"
  | Solve_mo1 _ _ _ _ _ _ _ => "uhf_nmr.solve_mo1"
  | Clock => "time.clock"
  | Time => "time.time"
  | Log_timer _ _ _ _ => "log.timer"
  | Logger_timer _ _ _ _ => "logger.timer"
  end.

Definition ev_name (ev : event) : string :=
  match ev with
  | EvOp c _ _ => op_name c
  | EvExt c _ _ => ext_name c
  end.

(** The calls of [rhf_mag._get_dia_1e] of a trace: arguments, state at
    the call and result. *)
Definition dia_1e_call (ev : event)
  : option (MagObj * option gauge * aref * aref * world * result aref) :=
  match ev with
  | EvExt c w r =>
      match c in ext T return result T -> _ with
      | Rhf_get_dia_1e m g dm0 dme0 => fun r => Some (m, g, dm0, dme0, w, r)
      | _ => fun _ => None
      end r
  | _ => None
  end.


(** The calls of [magobj.get_fock]: density matrices, state and result. *)
Definition fock_call (ev : event)
  : option (MagObj * (aref * aref) * option gauge * world * result (aref * aref)) :=
  match ev with
  | EvExt c w r =>
      match c in ext T return result T -> _ with
      | Get_fock m dm0 g => fun r => Some (m, dm0, g, w, r)
      | _ => fun _ => None
      end r
  | _ => None
  end.

(** The calls of [magobj.get_ovlp]. *)
Definition ovlp_call (ev : event)
  : option (MagObj * Mole * option gauge * world * result aref) :=
  match ev with
  | EvExt c w r =>
      match c in ext T return result T -> _ with
      | Get_ovlp m mo g => fun r => Some (m, mo, g, w, r)
      | _ => fun _ => None
      end r
  | _ => None
  end.

(** The arguments of a call of [uhf_nmr.solve_mo1]. *)
Record solve_args : Type := mk_solve {
  sa_magobj : MagObj;
  sa_mo_energy : aref * aref;
  sa_mo_coeff : aref * aref;
  sa_mo_occ : aref * aref;
  sa_h1 : aref * aref;
  sa_s1 : aref * aref;
  sa_with_cphf : cphf_arg
}.

Definition solve_call (ev : event)
  : option (solve_args * world * result ((aref * aref) * (aref * aref))) :=
  match ev with
  | EvExt c w r =>
      match c in ext T return result T -> _ with
      | Solve_mo1 m e co oc h1 s1 wc =>
          fun r => Some (mk_solve m e co oc h1 s1 wc, w, r)
      | _ => fun _ => None
      end r
  | _ => None
  end.

(** The calls of [numpy.einsum]: subscripts and operands. *)
Definition einsum_call (ev : event) : option (string * list aref) :=
  match ev with
  | EvOp c _ _ =>
      match c with
      | Einsum spec ops => Some (spec, ops)
      | _ => None
      end
  | _ => None
  end.

(** The calls of [lib.einsum]: subscripts, operands, state and result. *)
Definition lib_einsum_call (ev : event)
  : option (string * list aref * world * result aref) :=
  match ev with
  | EvOp c w r =>
      match c in op T return result T -> _ with
      | LibEinsum spec ops => fun r => Some (spec, ops, w, r)
      | _ => fun _ => None
      end r
  | _ => None
  end.

(** The calls of the negation [-a]: operand, state and result. *)
Definition neg_call (ev : event) : option (aref * world * result aref) :=
  match ev with
  | EvOp c w r =>
      match c in op T return result T -> _ with
      | Neg a => fun r => Some (a, w, r)
      | _ => fun _ => None
      end r
  | _ => None
  end.

(** The buffers written in place by a call. *)
Definition inplace_target (ev : event) : option aref :=
  match ev with
  | EvOp c _ _ =>
      match c with
      | IAdd a _ => Some a
      | ISub a _ => Some a
      | _ => None
      end
  | _ => None
  end.

(** [pick f tr]: the observations [f] makes on the events of [tr], in order. *)
Fixpoint pick O (f : event -> option O) (tr : list event) : list O :=
  match tr with
  | [] => []
  | ev :: tr' =>
      match f ev with
      | Some o => o :: pick f tr'
      | None => pick f tr'
      end
  end.

(** An outcome in which failures propagate: a call that raised is the last
    call and its exception is the outcome; an exceptional outcome is the
    exception of the last call. *)
Definition propagates A (o : outcome A) : Prop :=
  (forall pre ev post e,
      trace o = pre ++ ev :: post -> ev_exn ev = Some e ->
      post = [] /\ value o = Raise e) /\
  (forall e, value o = Raise e ->
      exists pre ev, trace o = pre ++ [ev] /\ ev_exn ev = Some e).

End Observations.

(** ** Frame: which buffers a program may write *)

Section FrameDefs.
Context {B : Base}.

(** The buffers below address [n] are in [h'] what they are in [h]. *)
Definition unchanged_below (n : nat) (h h' : heap) : Prop :=
  n <= List.length h' /\ forall l, l < n -> nth l h' [] = nth l h [].

(** An in-place update is allowed on a buffer at or above [n] only. *)
Definition target_ok (n : nat) T (c : op T) : Prop :=
  match c with
  | IAdd a _ => n <= base a
  | ISub a _ => n <= base a
  | _ => True
  end.

(** What is known of the result of a call made when the store has at
    least [n] buffers: a computed array is in a new buffer, a view shares
    the buffer of its argument. *)
Definition result_ok (n : nat) T (c : op T) : T -> Prop :=
  match c in op T return T -> Prop with
  | Gt0 _ => fun _ => True
  | Take0 _ _ => fun x => n <= base x
  | Take1 _ _ => fun x => n <= base x
  | DotT _ _ => fun x => n <= base x
  | Mul _ _ => fun x => n <= base x
  | Add _ _ => fun x => n <= base x
  | MulHalf _ => fun x => n <= base x
  | Neg _ => fun x => n <= base x
  | Conj _ => fun x => n <= base x
  | IAdd _ _ => fun _ => True
  | ISub _ _ => fun _ => True
  | Ravel a => fun x => base x = base a
  | Reshape a _ => fun x => base x = base a
  | Einsum _ _ => fun x => n <= base x
  | LibEinsum _ _ => fun x => n <= base x
  | Index _ _ => fun _ => True
  end.

(** Of the results of the environment only that of [rhf_mag._get_dia_1e]
    is updated in place by the module: it has to be a new array. *)
Definition ext_result_ok (n : nat) T (c : ext T) : T -> Prop :=
  match c in ext T return T -> Prop with
  | Rhf_get_dia_1e _ _ _ _ => fun x => n <= base x
  | _ => fun _ => True
  end.

(** [keeps n R p]: every in-place update of [p] is on a buffer known to be
    at or above [n], and every value [p] returns satisfies [R]. *)
Inductive keeps (n : nat) A (R : A -> Prop) : prog A -> Prop :=
| keeps_ret (a : A) : R a -> keeps n R (Ret a)
| keeps_op T (c : op T) (k : T -> prog A) :
    target_ok n c ->
    (forall x, result_ok n c x -> keeps n R (k x)) ->
    keeps n R (OpCall c k)
| keeps_ext T (c : ext T) (k : T -> prog A) :
    (forall x, ext_result_ok n c x -> keeps n R (k x)) ->
    keeps n R (ExtCall c k).

(** The environment's side of the frame: a routine leaves the buffers that
    exist when it is called as they are, and [rhf_mag._get_dia_1e] returns
    an array in a buffer that did not exist when it was called. *)
Class FrameContract {X : Externals} : Prop := {
  ext_frame : forall T (c : ext T) w w' r,
    ext_handle c w = (w', r) ->
    unchanged_below (List.length (heap_of w)) (heap_of w) (heap_of w');
  dia_1e_fresh : forall m g dm0 dme0 w w' e1,
    ext_handle (Rhf_get_dia_1e m g dm0 dme0) w = (w', Ok e1) ->
    List.length (heap_of w) <= base e1
}.

(** ** Determinism: what a program's result may depend on *)

(** The calls that read the clock. *)
Definition is_timer T (c : ext T) : bool :=
  match c with
  | Clock => true
  | Time => true
  | Log_timer _ _ _ _ => true
  | Logger_timer _ _ _ _ => true
  | _ => false
  end.


End FrameDefs.

(** ** The tensors as values

    What the arrays handed to the sibling routines and the tensor returned
    by [para] hold, as functions of the values of the arrays they are
    computed from.  These definitions follow the formulas; the theorems
    compare them with what the programs leave in the store. *)

Section Values.
Context {B : Base}.
Import Numpy.

Definition rbind A R (r : result A) (f : A -> result R) : result R :=
  match r with
  | Ok a => f a
  | Raise e => Raise e
  end.

(** The occupied orbitals: the columns of the coefficients whose
    occupation is positive. *)
Definition occupied (coeff occ : ndarray) : result ndarray :=
  take1 coeff (gt0 occ).

(** The density matrix of one spin: [orbo . orbo^T]. *)
Definition density (coeff occ : ndarray) : result ndarray :=
  rbind (occupied coeff occ) (fun orbo => dot_T orbo orbo).

(** The energy-weighted density matrix of one spin:
    [(orbo * e_occ) . orbo^T]. *)
Definition energy_density (coeff occ energy : ndarray) : result ndarray :=
  rbind (occupied coeff occ) (fun orbo =>
  rbind (take0 energy (gt0 occ)) (fun e =>
  rbind (mul orbo e) (fun oe => dot_T oe orbo))).

(** The sum over the two spins. *)
Definition spin_sum (a b : result ndarray) : result ndarray :=
  rbind a (fun x => rbind b (fun y => add x y)).

(** The spin-summed density matrices of an SCF object in a store. *)
Definition dm0_of (h : heap) (mf : SCF) : result ndarray :=
  spin_sum
    (density (read h (fst (mo_coeff mf))) (read h (fst (mo_occ mf))))
    (density (read h (snd (mo_coeff mf))) (read h (snd (mo_occ mf)))).

Definition dme0_of (h : heap) (mf : SCF) : result ndarray :=
  spin_sum
    (energy_density (read h (fst (mo_coeff mf))) (read h (fst (mo_occ mf)))
                    (read h (fst (mo_energy mf))))
    (energy_density (read h (snd (mo_coeff mf))) (read h (snd (mo_occ mf)))
                    (read h (snd (mo_energy mf)))).

(** A perturbation matrix in the molecular-orbital basis:
    [out[x,i,j] = sum_p sum_q M[x,p,q] * A[p,i] * O[q,j]], that is
    [A^T . M[x] . O] for each component [x]; [A] is the conjugated
    coefficient matrix and [O] the occupied orbitals. *)
Definition mo_transform (M A O : ndarray) : result ndarray :=
  match shape M, shape A, shape O with
  | [nx; np; nq], [np'; ni], [nq'; nj] =>
      if Nat.eqb np' np && Nat.eqb nq' nq then
        Ok (mk_nd [nx; ni; nj]
              (flat_map (fun x =>
                 flat_map (fun i =>
                   map (fun j =>
                     sum (flat_map (fun p =>
                            map (fun q =>
                              cmul (cmul (get (data M) ((x * np + p) * nq + q))
                                         (get (data A) (p * ni + i)))
                                   (get (data O) (q * nj + j)))
                                (seq 0 nq))
                            (seq 0 np)))
                     (seq 0 nj))
                   (seq 0 ni))
                 (seq 0 nx)))
      else Raise ValueError
  | _, _, _ => Raise ValueError
  end.

(** The first-order matrix of one spin in the molecular-orbital basis. *)
Definition first_order_mo (M coeff occ : ndarray) : result ndarray :=
  rbind (occupied coeff occ) (fun orbo => mo_transform M (conj coeff) orbo).

(** The value of [a] after [a += b] and after [a -= b]. *)
Definition iadd_value (a b : ndarray) : result ndarray :=
  rbind (inplace cadd a b) (fun d => Ok (mk_nd (shape a) d)).

Definition isub_value (a b : ndarray) : result ndarray :=
  rbind (inplace csub a b) (fun d => Ok (mk_nd (shape a) d)).

(** The paramagnetic tensor before its final negation, from the values of
    the first-order orbitals [mo1], of the matrices [h1] and [s1], of the
    first-order energies [mo_e1] and of the orbital energies and
    occupations. *)
Definition mag_para_value
    (mo1a mo1b h1a h1b s1a s1b mo_e1a mo_e1b ea eb occa occb : ndarray)
  : result ndarray :=
  let occidxa := gt0 occa in
  let occidxb := gt0 occb in
  rbind (einsum "yji,xji->xy" [mo1a; h1a]) (fun t0 =>
  rbind (einsum "yji,xji->xy" [mo1b; h1b]) (fun t1 =>
  rbind (iadd_value t0 t1) (fun m1 =>
  rbind (take0 ea occidxa) (fun eoa =>
  rbind (einsum "yji,xji,i->xy" [mo1a; s1a; eoa]) (fun t2 =>
  rbind (isub_value m1 t2) (fun m2 =>
  rbind (take0 eb occidxb) (fun eob =>
  rbind (einsum "yji,xji,i->xy" [mo1b; s1b; eob]) (fun t3 =>
  rbind (isub_value m2 t3) (fun m3 =>
  rbind (add m3 (conj m3)) (fun m4 =>
  rbind (take1 s1a occidxa) (fun s1oa =>
  rbind (einsum "xij,yij->xy" [s1oa; mo_e1a]) (fun t4 =>
  rbind (isub_value m4 t4) (fun m5 =>
  rbind (take1 s1b occidxb) (fun s1ob =>
  rbind (einsum "xij,yij->xy" [s1ob; mo_e1b]) (fun t5 =>
  isub_value m5 t5))))))))))))))).

(** An array object whose buffer exists in the store. *)
Definition valid (h : heap) (a : aref) : Prop := base a < List.length h.

Definition valid2 (h : heap) (p : aref * aref) : Prop :=
  valid h (fst p) /\ valid h (snd p).

Definition valid_scf (h : heap) (mf : SCF) : Prop :=
  valid2 h (mo_energy mf) /\ valid2 h (mo_coeff mf) /\ valid2 h (mo_occ mf).

Definition valid_opt (h : heap) (o : option (aref * aref)) : Prop :=
  match o with
  | Some p => valid2 h p
  | None => True
  end.

(** The leading axis of an array has three entries (the components x, y
    and z of the field). *)
Definition three (a : aref) : Prop :=
  match ashape a with
  | d :: _ => d = 3
  | [] => False
  end.

Definition three_opt (o : option (aref * aref)) : Prop :=
  match o with
  | Some p => three (fst p) /\ three (snd p)
  | None => True
  end.

(** The environment's side of the results: the arrays returned by
    [magobj.get_fock], [magobj.get_ovlp] and [uhf_nmr.solve_mo1] are in
    the store. *)
Class ValidResults {X : Externals} : Prop := {
  fock_valid : forall m dm0 g w w' r,
    ext_handle (Get_fock m dm0 g) w = (w', Ok r) -> valid2 (heap_of w') r;
  ovlp_valid : forall m mo g w w' r,
    ext_handle (Get_ovlp m mo g) w = (w', Ok r) -> valid (heap_of w') r;
  solve_valid : forall m e co oc h1 s1 wc w w' r,
    ext_handle (Solve_mo1 m e co oc h1 s1 wc) w = (w', Ok r) ->
    valid2 (heap_of w') (fst r) /\ valid2 (heap_of w') (snd r)
}.

(** The environment's side of the shapes: [magobj.get_fock] returns the
    three components of the perturbation for each spin, and
    [uhf_nmr.solve_mo1] three components of [mo1] for each spin. *)
Class ThreeComponents {X : Externals} : Prop := {
  fock_three : forall m dm0 g w w' r,
    ext_handle (Get_fock m dm0 g) w = (w', Ok r) ->
    three (fst r) /\ three (snd r);
  solve_three : forall m e co oc h1 s1 wc w w' r,
    ext_handle (Solve_mo1 m e co oc h1 s1 wc) w = (w', Ok r) ->
    three (fst (fst r)) /\ three (snd (fst r))
}.

End Values.

(** ** The blocks of [dia] and [para]

    The statements of the two functions, grouped: what comes before and
    after the calls of the sibling routines.  [dia] and [para] are these
    blocks in sequence. *)

Section Blocks.
Context {B : Base}.
Local Open Scope prog_scope.

(** [dia], from [orboa = ...] to [dme0 = dme0a + dme0b]. *)
Definition dia_densities (mf : SCF) : prog (aref * aref * aref * aref) :=
  let mo_energy := mo_energy mf in
  let mo_coeff := mo_coeff mf in
  let mo_occ := mo_occ mf in
  occa <- np (Gt0 (fst mo_occ)) ;;
  orboa <- np (Take1 (fst mo_coeff) occa) ;;
  occb <- np (Gt0 (snd mo_occ)) ;;
  orbob <- np (Take1 (snd mo_coeff) occb) ;;
  dm0a <- np (DotT orboa orboa) ;;
  dm0b <- np (DotT orbob orbob) ;;
  dm0 <- np (Add dm0a dm0b) ;;
  occa' <- np (Gt0 (fst mo_occ)) ;;
  ea <- np (Take0 (fst mo_energy) occa') ;;
  oea <- np (Mul orboa ea) ;;
  dme0a <- np (DotT oea orboa) ;;
  occb' <- np (Gt0 (snd mo_occ)) ;;
  eb <- np (Take0 (snd mo_energy) occb') ;;
  oeb <- np (Mul orbob eb) ;;
  dme0b <- np (DotT oeb orbob) ;;
  dme0 <- np (Add dme0a dme0b) ;;
  Ret (dm0a, dm0b, dm0, dme0).

(** [dia], from the call of [rhf_mag._get_dia_1e] to the end. *)
Definition dia_terms (magobj : MagObj) (gauge_orig : option gauge)
    (dm0a dm0b dm0 dme0 : aref) : prog aref :=
  let mol := mol magobj in
  e1 <- call (Rhf_get_dia_1e magobj gauge_orig dm0 dme0) ;;
  e2 <- np (Ravel e1) ;;
  match gauge_orig with
  | None =>
      vs <- call (Jk_get_jk mol [dm0; dm0a; dm0a; dm0b; dm0b]
                    ["ijkl,ji->s2kl";
                     "ijkl,jk->s1il"; "ijkl,li->s1kj";
                     "ijkl,jk->s1il"; "ijkl,li->s1kj"]
                    "int2e_gg1" "s4" 9 1) ;;
      v0 <- np (Index vs 0) ;;
      t0 <- np (Einsum "xpq,qp->x" [v0; dm0]) ;;
      np (IAdd e2 t0) ;;;
      v1 <- np (Index vs 1) ;;
      t1 <- np (Einsum "xpq,qp->x" [v1; dm0a]) ;;
      t1' <- np (MulHalf t1) ;;
      np (ISub e2 t1') ;;;
      v2 <- np (Index vs 2) ;;
      t2 <- np (Einsum "xpq,qp->x" [v2; dm0a]) ;;
      t2' <- np (MulHalf t2) ;;
      np (ISub e2 t2') ;;;
      v3 <- np (Index vs 3) ;;
      t3 <- np (Einsum "xpq,qp->x" [v3; dm0b]) ;;
      t3' <- np (MulHalf t3) ;;
      np (ISub e2 t3') ;;;
      v4 <- np (Index vs 4) ;;
      t4 <- np (Einsum "xpq,qp->x" [v4; dm0b]) ;;
      t4' <- np (MulHalf t4) ;;
      np (ISub e2 t4') ;;;
      vk <- call (Jk_get_jk mol [dm0a; dm0b] ["ijkl,jk->s1il"; "ijkl,jk->s1il"]
                    "int2e_g1g2" "aa4" 9 0) ;;
      k0 <- np (Index vk 0) ;;
      u0 <- np (Einsum "xpq,qp->x" [k0; dm0a]) ;;
      np (ISub e2 u0) ;;;
      k1 <- np (Index vk 1) ;;
      u1 <- np (Einsum "xpq,qp->x" [k1; dm0b]) ;;
      np (ISub e2 u1)
  | Some _ => Ret tt
  end ;;;
  r <- np (Reshape e2 [3; 3]) ;;
  np (Neg r).

(** [para], up to [orbob = ...]: the clock readings and the occupied
    orbitals. *)
Definition para_orbitals (mf : SCF) : prog ((C * C) * (aref * aref)) :=
  c0 <- call Clock ;;
  c1 <- call Time ;;
  occa <- np (Gt0 (fst (mo_occ mf))) ;;
  orboa <- np (Take1 (fst (mo_coeff mf)) occa) ;;
  occb <- np (Gt0 (snd (mo_occ mf))) ;;
  orbob <- np (Take1 (snd (mo_coeff mf)) occb) ;;
  Ret ((c0, c1), (orboa, orbob)).

(** [para], the statement [if h1 is None: ...]. *)
Definition para_h1 (magobj : MagObj) (gauge_orig : option gauge)
    (cput1 : C * C) (orboa orbob : aref) (h1 : option (aref * aref))
  : prog ((aref * aref) * (C * C)) :=
  let log := mk_logger (stdout magobj) (verbose magobj) in
  let mo_coeff := mo_coeff (_scf magobj) in
  match h1 with
  | None =>
      dm0a <- np (DotT orboa orboa) ;;
      dm0b <- np (DotT orbob orbob) ;;
      let dm0 := (dm0a, dm0b) in
      h1 <- call (Get_fock magobj dm0 gauge_orig) ;;
      ca <- np (Conj (fst mo_coeff)) ;;
      h1a <- np (LibEinsum "xpq,pi,qj->xij" [fst h1; ca; orboa]) ;;
      cb <- np (Conj (snd mo_coeff)) ;;
      h1b <- np (LibEinsum "xpq,pi,qj->xij" [snd h1; cb; orbob]) ;;
      cput1 <- call (Log_timer log "first order Fock matrix" (fst cput1) (snd cput1)) ;;
      Ret ((h1a, h1b), cput1)
  | Some h1 => Ret (h1, cput1)
  end.

(** [para], the statement [if s1 is None: ...]. *)
Definition para_s1 (magobj : MagObj) (gauge_orig : option gauge)
    (orboa orbob : aref) (s1 : option (aref * aref)) : prog (aref * aref) :=
  let mol := mol magobj in
  let mo_coeff := mo_coeff (_scf magobj) in
  match s1 with
  | None =>
      s1 <- call (Get_ovlp magobj mol gauge_orig) ;;
      ca <- np (Conj (fst mo_coeff)) ;;
      s1a <- np (LibEinsum "xpq,pi,qj->xij" [s1; ca; orboa]) ;;
      cb <- np (Conj (snd mo_coeff)) ;;
      s1b <- np (LibEinsum "xpq,pi,qj->xij" [s1; cb; orbob]) ;;
      Ret (s1a, s1b)
  | Some s1 => Ret s1
  end.

(** [para], from [occidxa = ...] to the end. *)
Definition para_contract (mf : SCF) (mo1 mo_e1 h1 s1 : aref * aref) : prog aref :=
  let mo_energy := mo_energy mf in
  let mo_occ := mo_occ mf in
  occidxa <- np (Gt0 (fst mo_occ)) ;;
  occidxb <- np (Gt0 (snd mo_occ)) ;;
  mag_para <- np (Einsum "yji,xji->xy" [fst mo1; fst h1]) ;;
  p1 <- np (Einsum "yji,xji->xy" [snd mo1; snd h1]) ;;
  np (IAdd mag_para p1) ;;;
  ea <- np (Take0 (fst mo_energy) occidxa) ;;
  p2 <- np (Einsum "yji,xji,i->xy" [fst mo1; fst s1; ea]) ;;
  np (ISub mag_para p2) ;;;
  eb <- np (Take0 (snd mo_energy) occidxb) ;;
  p3 <- np (Einsum "yji,xji,i->xy" [snd mo1; snd s1; eb]) ;;
  np (ISub mag_para p3) ;;;
  cc <- np (Conj mag_para) ;;
  mag_para <- np (Add mag_para cc) ;;
  s1oa <- np (Take1 (fst s1) occidxa) ;;
  p4 <- np (Einsum "xij,yij->xy" [s1oa; fst mo_e1]) ;;
  np (ISub mag_para p4) ;;;
  s1ob <- np (Take1 (snd s1) occidxb) ;;
  p5 <- np (Einsum "xij,yij->xy" [s1ob; snd mo_e1]) ;;
  np (ISub mag_para p5) ;;;
  np (Neg mag_para).

(** [para], up to the call of [uhf_nmr.solve_mo1]: the clock readings
    left by the timer and the matrices [h1] and [s1]. *)
Definition para_setup (magobj : MagObj) (gauge_orig : option gauge)
    (h1 s1 : option (aref * aref))
  : prog ((C * C) * (aref * aref) * (aref * aref)) :=
  t <- para_orbitals (_scf magobj) ;;
  let cput1 := fst t in
  let orboa := fst (snd t) in
  let orbob := snd (snd t) in
  h1c <- para_h1 magobj gauge_orig cput1 orboa orbob h1 ;;
  s1 <- para_s1 magobj gauge_orig orboa orbob s1 ;;
  Ret (snd h1c, fst h1c, s1).

(** [para], from the call of [uhf_nmr.solve_mo1] to the end. *)
Definition para_solve (magobj : MagObj) (cput1 : C * C) (h1 s1 : aref * aref)
  : prog aref :=
  let mf := _scf magobj in
  sol <- call (Solve_mo1 magobj (mo_energy mf) (mo_coeff mf) (mo_occ mf)
                 h1 s1 (cphf magobj)) ;;
  cput1 <- call (Logger_timer magobj "solving mo1 eqn" (fst cput1) (snd cput1)) ;;
  para_contract mf (fst sol) (snd sol) h1 s1.

End Blocks.

(** ** Which routines a program calls *)

Section CallsDefs.
Context {B : Base}.

Definition mem_name (s : string) (names : list string) : bool :=
  existsb (String.eqb s) names.

(** [avoids names p]: no call of [p] is a call of one of [names]. *)
Inductive avoids (names : list string) A : prog A -> Prop :=
| avoids_ret (a : A) : avoids names (Ret a)
| avoids_op T (c : op T) (k : T -> prog A) :
    mem_name (op_name c) names = false ->
    (forall x, avoids names (k x)) -> avoids names (OpCall c k)
| avoids_ext T (c : ext T) (k : T -> prog A) :
    mem_name (ext_name c) names = false ->
    (forall x, avoids names (k x)) -> avoids names (ExtCall c k).

(** A trace without a call of one of [names]. *)
Definition never (names : list string) (tr : list event) : Prop :=
  Forall (fun ev => mem_name (ev_name ev) names = false) tr.

(** The readings of [time.clock] and [time.time]: which one and what it
    returned. *)
Definition clock_reading (ev : event) : option (string * result C) :=
  match ev with
  | EvExt c _ r =>
      match c in ext T return result T -> _ with
      | Clock => fun r => Some ("time.clock", r)
      | Time => fun r => Some ("time.time", r)
      | _ => fun _ => None
      end r
  | _ => None
  end.

(** The calls of [log.timer]: the logger, the label, the two times given
    and the result. *)
Definition log_timer_call (ev : event)
  : option (Logger * string * C * C * result (C * C)) :=
  match ev with
  | EvExt c _ r =>
      match c in ext T return result T -> _ with
      | Log_timer l msg t0 t1 => fun r => Some (l, msg, t0, t1, r)
      | _ => fun _ => None
      end r
  | _ => None
  end.

(** The calls of [logger.timer]. *)
Definition logger_timer_call (ev : event)
  : option (MagObj * string * C * C * result (C * C)) :=
  match ev with
  | EvExt c _ r =>
      match c in ext T return result T -> _ with
      | Logger_timer m msg t0 t1 => fun r => Some (m, msg, t0, t1, r)
      | _ => fun _ => None
      end r
  | _ => None
  end.

(** The calls of [jk.get_jk] with all their arguments, the state at the
    call and the result. *)
Record jk_args : Type := mk_jk {
  jk_mol : Mole;
  jk_dms : list aref;
  jk_scripts : list string;
  jk_intor : string;
  jk_aosym : string;
  jk_comp : nat;
  jk_hermi : nat
}.

Definition jk_full_call (ev : event)
  : option (jk_args * world * result (list aref)) :=
  match ev with
  | EvExt c w r =>
      match c in ext T return result T -> _ with
      | Jk_get_jk mo dms scr intor aosym comp hermi =>
          fun r => Some (mk_jk mo dms scr intor aosym comp hermi, w, r)
      | _ => fun _ => None
      end r
  | _ => None
  end.

(** The calls into the rest of pyscf and the clock, by name. *)
Definition ext_event_name (ev : event) : option string :=
  match ev with
  | EvExt c _ _ => Some (ext_name c)
  | _ => None
  end.

End CallsDefs.

(** ** The order of the calls into the environment *)

Section OrderDefs.
Context {B : Base}.

(** The routines [dia] calls when it runs to its end, in order. *)
Definition dia_routines (gauge_orig : option gauge) : list string :=
  "rhf_mag._get_dia_1e" ::
  match gauge_orig with
  | None => ["jk.get_jk"; "jk.get_jk"]
  | Some _ => []
  end.

(** The routines [para] calls when it runs to its end, in order. *)
Definition para_routines (h1 s1 : option (aref * aref)) : list string :=
  ["time.clock"; "time.time"] ++
  match h1 with
  | None => ["magobj.get_fock"; "log.timer"]
  | Some _ => []
  end ++
  match s1 with
  | None => ["magobj.get_ovlp"]
  | Some _ => []
  end ++
  ["uhf_nmr.solve_mo1"; "logger.timer"].

(** [l] is an initial part of [l']. *)
Definition is_prefix (l l' : list string) : Prop := exists rest, l' = l ++ rest.

End OrderDefs.

(** ** The two-electron part of [dia] *)

Section DiaValueDefs.
Context {B : Base}.
Import Numpy.

(** The contents of [e2] at the end of the branch [if gauge_orig is None]
    of [dia], from the value [e1] returned by [rhf_mag._get_dia_1e], the
    five arrays of the first call of [jk.get_jk], the two of the second
    and the density matrices. *)
Definition dia_two_electron
    (e1 vs0 vs1 vs2 vs3 vs4 vk0 vk1 dm0 dm0a dm0b : ndarray) : result ndarray :=
  let e2 := mk_nd [size (shape e1)] (data e1) in
  rbind (einsum "xpq,qp->x" [vs0; dm0]) (fun t0 =>
  rbind (iadd_value e2 t0) (fun a0 =>
  rbind (einsum "xpq,qp->x" [vs1; dm0a]) (fun t1 =>
  rbind (isub_value a0 (mul_half t1)) (fun a1 =>
  rbind (einsum "xpq,qp->x" [vs2; dm0a]) (fun t2 =>
  rbind (isub_value a1 (mul_half t2)) (fun a2 =>
  rbind (einsum "xpq,qp->x" [vs3; dm0b]) (fun t3 =>
  rbind (isub_value a2 (mul_half t3)) (fun a3 =>
  rbind (einsum "xpq,qp->x" [vs4; dm0b]) (fun t4 =>
  rbind (isub_value a3 (mul_half t4)) (fun a4 =>
  rbind (einsum "xpq,qp->x" [vk0; dm0a]) (fun u0 =>
  rbind (isub_value a4 u0) (fun a5 =>
  rbind (einsum "xpq,qp->x" [vk1; dm0b]) (fun u1 =>
  isub_value a5 u1))))))))))))).

(** The environment's side of the two-electron part: the array returned
    by [rhf_mag._get_dia_1e] is in the store, and the arrays returned by
    [jk.get_jk] are in the store, in buffers that did not exist when it
    was called. *)
Class DiaContract {X : Externals} : Prop := {
  dia_1e_valid : forall m g dm0 dme0 w w' e1,
    ext_handle (Rhf_get_dia_1e m g dm0 dme0) w = (w', Ok e1) ->
    valid (heap_of w') e1;
  jk_new : forall mo dms scr intor aosym comp hermi w w' vs,
    ext_handle (Jk_get_jk mo dms scr intor aosym comp hermi) w = (w', Ok vs) ->
    Forall (fun a => List.length (heap_of w) <= base a /\ valid (heap_of w') a) vs
}.

End DiaValueDefs.

(** ** Shapes *)

Section ShapeDefs.
Context {B : Base}.
Import Numpy.

(** The number of entries a mask selects. *)
Definition count (m : mask) : nat := List.length (true_positions 0 (mbits m)).

(** The number of occupied orbitals recorded by an array of occupations. *)
Definition nocc (h : heap) (occ : aref) : nat := count (gt0 (read h occ)).

(** An SCF object with [nao] basis functions and [nmo_a], [nmo_b]
    orbitals of each spin: coefficients [(nao, nmo)], energies and
    occupations [(nmo,)]. *)
Definition scf_shaped (mf : SCF) (nao nmo_a nmo_b : nat) : Prop :=
  (ashape (fst (mo_coeff mf)) = [nao; nmo_a] /\
   ashape (fst (mo_occ mf)) = [nmo_a] /\
   ashape (fst (mo_energy mf)) = [nmo_a]) /\
  (ashape (snd (mo_coeff mf)) = [nao; nmo_b] /\
   ashape (snd (mo_occ mf)) = [nmo_b] /\
   ashape (snd (mo_energy mf)) = [nmo_b]).

(** A caller's [h1] or [s1] of the documented shapes
    [[(3,nmo_a,nocc_a), (3,nmo_b,nocc_b)]]. *)
Definition mo_shaped (h : heap) (mf : SCF) (nmo_a nmo_b : nat)
    (o : option (aref * aref)) : Prop :=
  match o with
  | Some p =>
      ashape (fst p) = [3; nmo_a; nocc h (fst (mo_occ mf))] /\
      ashape (snd p) = [3; nmo_b; nocc h (snd (mo_occ mf))]
  | None => True
  end.

(** The environment's side of a run that does not fail: called on arrays
    of the expected shapes, its routines return, and return arrays of the
    shapes their callers rely on; the clock and the timers return. *)
Class ShapeContract {X : Externals} : Prop := {
  timers_return : forall T (c : ext T) w,
    is_timer c = true -> exists w' x, ext_handle c w = (w', Ok x);
  dia_1e_returns : forall m g dm0 dme0 w n,
    ashape dm0 = [n; n] -> ashape dme0 = [n; n] ->
    exists w' e1,
      ext_handle (Rhf_get_dia_1e m g dm0 dme0) w = (w', Ok e1) /\
      size (ashape e1) = 9;
  jk_returns : forall mo dms scr intor aosym comp hermi w n,
    Forall (fun d => ashape d = [n; n]) dms ->
    exists w' vs,
      ext_handle (Jk_get_jk mo dms scr intor aosym comp hermi) w = (w', Ok vs) /\
      List.length vs = List.length dms /\
      Forall (fun a => ashape a = [comp; n; n]) vs;
  fock_returns : forall m dm0 g w n,
    ashape (fst dm0) = [n; n] -> ashape (snd dm0) = [n; n] ->
    exists w' F,
      ext_handle (Get_fock m dm0 g) w = (w', Ok F) /\
      ashape (fst F) = [3; n; n] /\ ashape (snd F) = [3; n; n];
  ovlp_returns : forall m mo g w n k,
    ashape (fst (mo_coeff (_scf m))) = [n; k] ->
    exists w' S,
      ext_handle (Get_ovlp m mo g) w = (w', Ok S) /\ ashape S = [3; n; n];
  solve_returns : forall m e co oc h1 s1 wc w ka ja kb jb,
    ashape (fst h1) = [3; ka; ja] -> ashape (snd h1) = [3; kb; jb] ->
    ashape (fst s1) = [3; ka; ja] -> ashape (snd s1) = [3; kb; jb] ->
    exists w' r,
      ext_handle (Solve_mo1 m e co oc h1 s1 wc) w = (w', Ok r) /\
      ashape (fst (fst r)) = [3; ka; ja] /\ ashape (snd (fst r)) = [3; kb; jb] /\
      ashape (fst (snd r)) = [3; ja; ja] /\ ashape (snd (snd r)) = [3; jb; jb]
}.

End ShapeDefs.

(** ** A second small environment

    As [Toy.toy], except that [rhf_mag._get_dia_1e] returns an array of
    six elements. *)

Module ToyShort.
Import Numpy Toy.

Definition short_handle X (c : ext X) (w : world) : world * result X :=
  match c in ext X return world * result X with
  | Rhf_get_dia_1e _ _ _ _ =>
      let (h', l) := alloc_all (heap_of w) [[2; 3]] in
      (mk_world h' (hidden_of w), Ok (nth 0 l dflt))
  | c' => toy_handle c' w
  end.

Definition short : Externals := {| ext_handle := short_handle |}.

(** The calls of [rhf_mag._get_dia_1e] made by [dia] on the toy object
    with the gauge origin [(0,0,1)], in each of the two environments. *)
Definition toy_dia_1e_calls :=
  Eval vm_compute in
    pick dia_1e_call (trace (run (X:=toy) (dia mag (Some origin)) w0)).

Definition short_dia_1e_calls :=
  Eval vm_compute in
    pick dia_1e_call (trace (run (X:=short) (dia mag (Some origin)) w0)).

End ToyShort.

(** ** Attributes that routines of the environment set on an object

    [dia] and [para] read five attributes of the magnetizability object
    and assign none: [MagObj] holds these as values.  A routine of the
    environment that is handed the object may set further attributes on
    it: [logger.timer(rec, msg, cpu0, wall0)] sets [rec._t0] and [rec._w0]
    to the current times.  Such attributes are part of the state of the
    environment. *)

Section FieldDefs.
Context {B : Base}.

(** The attributes that the routines of the environment have set on the
    magnetizability object, as the state of the environment records them. *)
Class ObjectFields : Type := {
  fields_of : Hidden -> list (string * C)
}.

(** The calls of [logger.timer] of a trace with the state they were made in. *)
Definition logger_timer_at (ev : event) : option (MagObj * string * C * C * world) :=
  match ev with
  | EvExt c w _ =>
      match c with
      | Logger_timer m msg t0 t1 => Some (m, msg, t0, t1, w)
      | _ => None
      end
  | _ => None
  end.

End FieldDefs.

(** ** A small environment whose timer sets attributes

    As [Toy.toy], with a state made of the clock and of the attributes set
    on the magnetizability object.  Modelled on pyscf's
    [lib.logger.timer], which assigns [rec._t0] and [rec._w0]; [log.timer]
    does the same on the [Logger] object it is a method of, which is not
    the magnetizability object. *)

Module ToyFields.
Import Numpy Toy.

Definition FBase : Base := {|
  C := Q;
  czero := 0%Q;
  cadd := fun x y => Qred (x + y)%Q;
  csub := fun x y => Qred (x - y)%Q;
  cmul := fun x y => Qred (x * y)%Q;
  cneg := fun x => Qred (- x)%Q;
  cconj := fun x => x;
  chalf := (1 # 2)%Q;
  cpos := fun x => Z.ltb 0 (Qnum x);
  Mole := unit;
  Vind := unit;
  Hidden := (nat * list (string * Q))%type
|}.

Fixpoint set_field (k : string) (v : Q) (d : list (string * Q))
  : list (string * Q) :=
  match d with
  | [] => [(k, v)]
  | (k', v') :: d' =>
      if String.eqb k k' then (k, v) :: d' else (k', v') :: set_field k v d'
  end.

Definition ftoy_handle X (c : @ext FBase X) (w : @world FBase)
  : @world FBase * result X :=
  let h := @heap_of FBase w in
  let s := @hidden_of FBase w in
  let now := inject_Z (Z.of_nat (fst s)) in
  let tick := (S (fst s), snd s) in
  match c in ext X return @world FBase * result X with
  | Rhf_get_dia_1e _ _ _ _ =>
      let (h', l) := alloc_all h [[3; 3]] in
      (@mk_world FBase h' s, Ok (nth 0 l dflt))
  | Jk_get_jk _ dms _ _ _ comp _ =>
      let (h', l) := alloc_all h (map (fun d => comp :: ashape d) dms) in
      (@mk_world FBase h' s, Ok l)
  | Get_fock _ dm0 _ =>
      let (h', l) := alloc_all h [3 :: ashape (fst dm0); 3 :: ashape (snd dm0)] in
      (@mk_world FBase h' s, Ok (nth 0 l dflt, nth 1 l dflt))
  | Get_ovlp m _ _ =>
      let n := nao_of (fst (mo_coeff (_scf m))) in
      let (h', l) := alloc_all h [[3; n; n]] in
      (@mk_world FBase h' s, Ok (nth 0 l dflt))
  | Solve_mo1 _ _ _ _ h1 _ _ =>
      let occ (a : aref) := nth 2 (ashape a) 0 in
      let (h', l) :=
        alloc_all h [3 :: tl (ashape (fst h1)); 3 :: tl (ashape (snd h1));
                     [3; occ (fst h1); occ (fst h1)];
                     [3; occ (snd h1); occ (snd h1)]] in
      (@mk_world FBase h' s,
       Ok ((nth 0 l dflt, nth 1 l dflt), (nth 2 l dflt, nth 3 l dflt)))
  | Clock => (@mk_world FBase h tick, Ok now)
  | Time => (@mk_world FBase h tick, Ok now)
  | Log_timer _ _ _ _ => (@mk_world FBase h tick, Ok (now, now))
  | Logger_timer _ _ _ _ =>
      (@mk_world FBase h
         (S (fst s), set_field "_w0" now (set_field "_t0" now (snd s))),
       Ok (now, now))
  end.

Definition ftoy : @Externals FBase := {| ext_handle := ftoy_handle |}.

Definition ffields : @ObjectFields FBase :=
  @Build_ObjectFields FBase (fun s : nat * list (string * Q) => snd s).

Definition fmag : @MagObj FBase :=
  @mk_mag FBase uhf_cls tt mf "/dev/null" 7 (CphfBool true).

Definition fw0 : @world FBase := @mk_world FBase h0 (0, []).

End ToyFields.

(** ** The tensors as functions of the values of the inputs

    [dia] and [para] once more, on the values of the arrays instead of the
    arrays in the store: the same operations in the same order, an
    in-place update being the value it leaves and a routine of the
    environment the function of the values of its arguments that it
    computes. *)

Section FunctionalDefs.
Context {B : Base}.
Import Numpy.

Definition rmap A R (f : A -> R) (r : result A) : result R :=
  match r with
  | Ok a => Ok (f a)
  | Raise e => Raise e
  end.

Definition read2 (h : heap) (p : aref * aref) : ndarray * ndarray :=
  (read h (fst p), read h (snd p)).

(** The values of the arrays of an SCF object. *)
Record scf_vals : Type := mk_vals {
  v_energy : ndarray * ndarray;
  v_coeff : ndarray * ndarray;
  v_occ : ndarray * ndarray
}.

Definition scf_values (h : heap) (mf : SCF) : scf_vals :=
  mk_vals (read2 h (mo_energy mf)) (read2 h (mo_coeff mf)) (read2 h (mo_occ mf)).

Definition opt_values (h : heap) (o : option (aref * aref))
  : option (ndarray * ndarray) :=
  match o with
  | Some p => Some (read2 h p)
  | None => None
  end.

(** [l[i]] *)
Definition index_val A (l : list A) (i : nat) : result A :=
  match nth_error l i with
  | Some a => Ok a
  | None => Raise IndexError
  end.

(** [a.ravel()] and [a.reshape(sh)], as values. *)
Definition ravel_val (a : ndarray) : ndarray := mk_nd [size (shape a)] (data a).

Definition reshape_val (a : ndarray) (sh : list nat) : result ndarray :=
  if Nat.eqb (size sh) (size (shape a)) then Ok (mk_nd sh (data a))
  else Raise ValueError.

(** The outcome of a run by value: the value of the array returned, or the
    exception. *)
Definition result_value (o : outcome aref) : result ndarray :=
  rmap (read (heap_of (final o))) (value o).

(** The environment's side of determinism, by value: what a routine of
    pyscf returns (the values of the arrays it returns, or the exception
    it raises) is a function of its arguments, the arrays among them and
    the arrays of the SCF object of a magnetizability object it is handed
    being taken by value; the clock and the timers return and leave the
    store of arrays alone. *)
Class Functional {X : Externals} : Type := {
  dia_1e_val : MagObj -> option gauge -> scf_vals -> ndarray -> ndarray ->
               result ndarray;
  jk_val : Mole -> list ndarray -> list string -> string -> string ->
           nat -> nat -> result (list ndarray);
  fock_val : MagObj -> scf_vals -> ndarray * ndarray -> option gauge ->
             result (ndarray * ndarray);
  ovlp_val : MagObj -> scf_vals -> Mole -> option gauge -> result ndarray;
  solve_val : MagObj -> scf_vals ->
              ndarray * ndarray -> ndarray * ndarray -> ndarray * ndarray ->
              ndarray * ndarray -> ndarray * ndarray -> cphf_arg ->
              result ((ndarray * ndarray) * (ndarray * ndarray));
  dia_1e_fun : forall m g dm0 dme0 w w' r,
    ext_handle (Rhf_get_dia_1e m g dm0 dme0) w = (w', r) ->
    dia_1e_val m g (scf_values (heap_of w) (_scf m))
               (read (heap_of w) dm0) (read (heap_of w) dme0)
    = rmap (read (heap_of w')) r;
  jk_fun : forall mo dms scr intor aosym comp hermi w w' r,
    ext_handle (Jk_get_jk mo dms scr intor aosym comp hermi) w = (w', r) ->
    jk_val mo (map (read (heap_of w)) dms) scr intor aosym comp hermi
    = rmap (map (read (heap_of w'))) r;
  fock_fun : forall m dm0 g w w' r,
    ext_handle (Get_fock m dm0 g) w = (w', r) ->
    fock_val m (scf_values (heap_of w) (_scf m)) (read2 (heap_of w) dm0) g
    = rmap (read2 (heap_of w')) r;
  ovlp_fun : forall m mo g w w' r,
    ext_handle (Get_ovlp m mo g) w = (w', r) ->
    ovlp_val m (scf_values (heap_of w) (_scf m)) mo g
    = rmap (read (heap_of w')) r;
  solve_fun : forall m e co oc h1 s1 wc w w' r,
    ext_handle (Solve_mo1 m e co oc h1 s1 wc) w = (w', r) ->
    solve_val m (scf_values (heap_of w) (_scf m))
              (read2 (heap_of w) e) (read2 (heap_of w) co) (read2 (heap_of w) oc)
              (read2 (heap_of w) h1) (read2 (heap_of w) s1) wc
    = rmap (fun x => (read2 (heap_of w') (fst x), read2 (heap_of w') (snd x))) r;
  timers_fun : forall T (c : ext T) w,
    is_timer c = true ->
    heap_of (fst (ext_handle c w)) = heap_of w /\
    exists x, snd (ext_handle c w) = Ok x
}.

Context {X : Externals} {F : Functional}.

(** [dia] by value. *)
Definition dia_val (m : MagObj) (g : option gauge) (sv : scf_vals)
  : result ndarray :=
  let ea := fst (v_energy sv) in
  let eb := snd (v_energy sv) in
  let Ca := fst (v_coeff sv) in
  let Cb := snd (v_coeff sv) in
  let occa := fst (v_occ sv) in
  let occb := snd (v_occ sv) in
  rbind (take1 Ca (gt0 occa)) (fun orboa =>
  rbind (take1 Cb (gt0 occb)) (fun orbob =>
  rbind (dot_T orboa orboa) (fun dm0a =>
  rbind (dot_T orbob orbob) (fun dm0b =>
  rbind (add dm0a dm0b) (fun dm0 =>
  rbind (take0 ea (gt0 occa)) (fun eoa =>
  rbind (mul orboa eoa) (fun oea =>
  rbind (dot_T oea orboa) (fun dme0a =>
  rbind (take0 eb (gt0 occb)) (fun eob =>
  rbind (mul orbob eob) (fun oeb =>
  rbind (dot_T oeb orbob) (fun dme0b =>
  rbind (add dme0a dme0b) (fun dme0 =>
  rbind (dia_1e_val m g sv dm0 dme0) (fun e1 =>
  rbind
    match g with
    | None =>
        rbind (jk_val (mol m) [dm0; dm0a; dm0a; dm0b; dm0b]
                 ["ijkl,ji->s2kl";
                  "ijkl,jk->s1il"; "ijkl,li->s1kj";
                  "ijkl,jk->s1il"; "ijkl,li->s1kj"]
                 "int2e_gg1" "s4" 9 1) (fun vs =>
        rbind (index_val vs 0) (fun v0 =>
        rbind (einsum "xpq,qp->x" [v0; dm0]) (fun t0 =>
        rbind (iadd_value (ravel_val e1) t0) (fun e2 =>
        rbind (index_val vs 1) (fun v1 =>
        rbind (einsum "xpq,qp->x" [v1; dm0a]) (fun t1 =>
        rbind (isub_value e2 (mul_half t1)) (fun e2 =>
        rbind (index_val vs 2) (fun v2 =>
        rbind (einsum "xpq,qp->x" [v2; dm0a]) (fun t2 =>
        rbind (isub_value e2 (mul_half t2)) (fun e2 =>
        rbind (index_val vs 3) (fun v3 =>
        rbind (einsum "xpq,qp->x" [v3; dm0b]) (fun t3 =>
        rbind (isub_value e2 (mul_half t3)) (fun e2 =>
        rbind (index_val vs 4) (fun v4 =>
        rbind (einsum "xpq,qp->x" [v4; dm0b]) (fun t4 =>
        rbind (isub_value e2 (mul_half t4)) (fun e2 =>
        rbind (jk_val (mol m) [dm0a; dm0b]
                 ["ijkl,jk->s1il"; "ijkl,jk->s1il"]
                 "int2e_g1g2" "aa4" 9 0) (fun vk =>
        rbind (index_val vk 0) (fun k0 =>
        rbind (einsum "xpq,qp->x" [k0; dm0a]) (fun u0 =>
        rbind (isub_value e2 u0) (fun e2 =>
        rbind (index_val vk 1) (fun k1 =>
        rbind (einsum "xpq,qp->x" [k1; dm0b]) (fun u1 =>
        isub_value e2 u1))))))))))))))))))))))
    | Some _ => Ok (ravel_val e1)
    end (fun e2 =>
  rbind (reshape_val e2 [3; 3]) (fun r => Ok (neg r)))))))))))))))).

(** [para] by value. *)
Definition para_val (m : MagObj) (g : option gauge)
    (h1 s1 : option (ndarray * ndarray)) (sv : scf_vals) : result ndarray :=
  let ea := fst (v_energy sv) in
  let eb := snd (v_energy sv) in
  let Ca := fst (v_coeff sv) in
  let Cb := snd (v_coeff sv) in
  let occa := fst (v_occ sv) in
  let occb := snd (v_occ sv) in
  rbind (take1 Ca (gt0 occa)) (fun orboa =>
  rbind (take1 Cb (gt0 occb)) (fun orbob =>
  rbind
    match h1 with
    | None =>
        rbind (dot_T orboa orboa) (fun dm0a =>
        rbind (dot_T orbob orbob) (fun dm0b =>
        rbind (fock_val m sv (dm0a, dm0b) g) (fun h1 =>
        rbind (einsum "xpq,pi,qj->xij" [fst h1; conj Ca; orboa]) (fun h1a =>
        rbind (einsum "xpq,pi,qj->xij" [snd h1; conj Cb; orbob]) (fun h1b =>
        Ok (h1a, h1b))))))
    | Some h1 => Ok h1
    end (fun h1 =>
  rbind
    match s1 with
    | None =>
        rbind (ovlp_val m sv (mol m) g) (fun s1 =>
        rbind (einsum "xpq,pi,qj->xij" [s1; conj Ca; orboa]) (fun s1a =>
        rbind (einsum "xpq,pi,qj->xij" [s1; conj Cb; orbob]) (fun s1b =>
        Ok (s1a, s1b))))
    | Some s1 => Ok s1
    end (fun s1 =>
  rbind (solve_val m sv (v_energy sv) (v_coeff sv) (v_occ sv) h1 s1 (cphf m))
    (fun sol =>
  let mo1 := fst sol in
  let mo_e1 := snd sol in
  rbind (mag_para_value (fst mo1) (snd mo1) (fst h1) (snd h1) (fst s1) (snd s1)
           (fst mo_e1) (snd mo_e1) ea eb occa occb) (fun mag_para =>
  Ok (neg mag_para))))))).

End FunctionalDefs.

(** * Facts *)

(** ** Running a program *)

Section RunFacts.
Context {B : Base} {X : Externals}.

Lemma run_op_ok A T (c : op T) (k : T -> prog A) w h' x :
  do_op c (heap_of w) = (h', Ok x) ->
  run (OpCall c k) w = after [EvOp c w (Ok x)] (run (k x) (set_heap w h')).
Proof. intros E. simpl. rewrite E. reflexivity. Qed.

Lemma run_op_err A T (c : op T) (k : T -> prog A) w h' e :
  do_op c (heap_of w) = (h', Raise e) ->
  run (OpCall c k) w = mk_out (set_heap w h') [EvOp c w (Raise e)] (Raise e).
Proof. intros E. simpl. rewrite E. reflexivity. Qed.

Lemma run_ext_ok A T (c : ext T) (k : T -> prog A) w w' x :
  ext_handle c w = (w', Ok x) ->
  run (ExtCall c k) w = after [EvExt c w (Ok x)] (run (k x) w').
Proof. intros E. simpl. rewrite E. reflexivity. Qed.

Lemma run_ext_err A T (c : ext T) (k : T -> prog A) w w' e :
  ext_handle c w = (w', Raise e) ->
  run (ExtCall c k) w = mk_out w' [EvExt c w (Raise e)] (Raise e).
Proof. intros E. simpl. rewrite E. reflexivity. Qed.

(** Case analysis on the next call of a run. *)
Lemma run_op_case A T (c : op T) (k : T -> prog A) w (Q : outcome A -> Prop) :
  (forall h' x, do_op c (heap_of w) = (h', Ok x) ->
     Q (after [EvOp c w (Ok x)] (run (k x) (mk_world h' (hidden_of w))))) ->
  (forall h' e, do_op c (heap_of w) = (h', Raise e) ->
     Q (mk_out (mk_world h' (hidden_of w)) [EvOp c w (Raise e)] (Raise e))) ->
  Q (run (OpCall c k) w).
Proof.
  intros Hok Herr. simpl. destruct (do_op c (heap_of w)) as [h' [x|e]];
    [ apply Hok | apply Herr ]; reflexivity.
Qed.

Lemma run_ext_case A T (c : ext T) (k : T -> prog A) w (Q : outcome A -> Prop) :
  (forall w' x, ext_handle c w = (w', Ok x) ->
     Q (after [EvExt c w (Ok x)] (run (k x) w'))) ->
  (forall w' e, ext_handle c w = (w', Raise e) ->
     Q (mk_out w' [EvExt c w (Raise e)] (Raise e))) ->
  Q (run (ExtCall c k) w).
Proof.
  intros Hok Herr. simpl. destruct (ext_handle c w) as [w' [x|e]];
    [ apply Hok | apply Herr ]; reflexivity.
Qed.

(** [bind] keeps programs plain. *)
Lemma plain_bind A R (p : prog A) (f : A -> prog R) :
  plain p -> (forall a, plain (f a)) -> plain (bind p f).
Proof.
  intros Hp Hf. induction Hp; simpl; auto; constructor; auto.
Qed.

Lemma plain_np T (c : op T) : plain (np c).
Proof. constructor. intros. constructor. Qed.

Lemma plain_call T (c : ext T) : plain (call c).
Proof. constructor. intros. constructor. Qed.

(** Prefixing an outcome in which failures propagate with a call that
    returned. *)
Lemma propagates_after A (ev : event) (o : outcome A) :
  ev_exn ev = None -> propagates o -> propagates (after [ev] o).
Proof.
  intros Hev [H1 H2]. split.
  - intros pre ev' post e Htr He. simpl in Htr.
    destruct pre as [|p pre]; simpl in Htr; inversion Htr; subst.
    + congruence.
    + eapply H1; eauto.
  - intros e He. simpl in He. destruct (H2 e He) as (pre & ev' & Htr & He').
    exists (ev :: pre), ev'. simpl. rewrite Htr. auto.
Qed.

Lemma propagates_raise A (w : world) (ev : event) (e : exn) :
  ev_exn ev = Some e -> propagates (mk_out (A:=A) w [ev] (Raise e)).
Proof.
  intros Hev. split.
  - intros pre ev' post e' Htr He. simpl in *.
    destruct pre as [|p pre]; simpl in Htr; inversion Htr; subst.
    + split; congruence.
    + destruct pre; discriminate.
  - intros e' He. simpl in He. inversion He; subst.
    exists [], ev. auto.
Qed.

(** In a run of a plain program failures propagate. *)
Lemma plain_propagates A (p : prog A) :
  plain p -> forall w, propagates (run p w).
Proof.
  induction 1 as [a | T c k Hk IH | T c k Hk IH]; intros w.
  - split; simpl.
    + intros pre ev post e Htr. destruct pre; discriminate.
    + discriminate.
  - simpl. destruct (do_op c (heap_of w)) as [h' [x|e]].
    + apply propagates_after; auto.
    + apply propagates_raise. reflexivity.
  - simpl. destruct (ext_handle c w) as [w' [x|e]].
    + apply propagates_after; auto.
    + apply propagates_raise. reflexivity.
Qed.

End RunFacts.

(** ** Sequencing *)

Section Sequencing.
Context {B : Base} {X : Externals}.

Lemma after_nil A (o : outcome A) : after [] o = o.
Proof. destruct o; reflexivity. Qed.

Lemma after_app A (l1 l2 : list event) (o : outcome A) :
  after l1 (after l2 o) = after (l1 ++ l2) o.
Proof. unfold after. simpl. rewrite app_assoc. reflexivity. Qed.

(** The run of [bind p f]: the run of [p], then that of [f] on its value. *)
Lemma run_bind A R (p : prog A) (f : A -> prog R) :
  plain p ->
  forall w,
    run (bind p f) w =
    match value (run p w) with
    | Ok a => after (trace (run p w)) (run (f a) (final (run p w)))
    | Raise e => mk_out (final (run p w)) (trace (run p w)) (Raise e)
    end.
Proof.
  induction 1 as [a | T c k Hk IH | T c k Hk IH]; intros w.
  - simpl. rewrite after_nil. reflexivity.
  - simpl. destruct (do_op c (heap_of w)) as [h' [x|e]]; [|reflexivity].
    rewrite IH. simpl.
    destruct (value (run (k x) (set_heap w h'))); [|reflexivity].
    rewrite after_app. reflexivity.
  - simpl. destruct (ext_handle c w) as [w' [x|e]]; [|reflexivity].
    rewrite IH. simpl.
    destruct (value (run (k x) w')); [|reflexivity].
    rewrite after_app. reflexivity.
Qed.

Lemma pick_app O (f : event -> option O) (l1 l2 : list event) :
  pick f (l1 ++ l2) = pick f l1 ++ pick f l2.
Proof.
  induction l1 as [|ev l1 IH]; simpl; auto.
  destruct (f ev); simpl; rewrite IH; reflexivity.
Qed.

(** [dia] and [para] are the sequences of their blocks. *)
Lemma dia_blocks (m : MagObj) (g : option gauge) :
  dia m g =
  bind (dia_densities (_scf m))
       (fun t => dia_terms m g (fst (fst (fst t))) (snd (fst (fst t)))
                           (snd (fst t)) (snd t)).
Proof. destruct g; reflexivity. Qed.

Lemma para_split (m : MagObj) (g : option gauge)
    (h1 s1 : option (aref * aref)) (wc : cphf_arg) :
  para m g h1 s1 wc =
  bind (para_setup m g h1 s1)
       (fun t => para_solve m (fst (fst t)) (snd (fst t)) (snd t)).
Proof. destruct h1, s1; reflexivity. Qed.

End Sequencing.


(** ** Errors *)

Ltac plain_tac :=
  repeat first
    [ apply plain_np | apply plain_call | apply plain_ret
    | (apply plain_bind; [ | intro ]) ].

Section Errors.
Context {B : Base} {X : Externals}.

Lemma dia_plain (m : MagObj) (g : option gauge) : plain (dia m g).
Proof. unfold dia. destruct g; plain_tac. Qed.

Lemma para_plain (m : MagObj) (g : option gauge) (h1 s1 : option (aref * aref))
    (wc : cphf_arg) : plain (para m g h1 s1 wc).
Proof. unfold para. destruct h1, s1; plain_tac. Qed.

(** C9: [dia] and [para] contain no raise and no exception handler, so in
    every run, whatever the environment does, a call that fails (a pyscf
    routine, the clock or a numpy call) is the last call made, its
    exception is the outcome of the run unchanged, and an exceptional
    outcome always is the exception of the last call: no value is returned
    then. *)
Theorem errors_propagate (m : MagObj) (g : option gauge)
    (h1 s1 : option (aref * aref)) (wc : cphf_arg) (w : world) :
  plain (dia m g) /\ plain (para m g h1 s1 wc) /\
  propagates (run (dia m g) w) /\
  propagates (run (para m g h1 s1 wc) w).
Proof.
  split; [apply dia_plain|].
  split; [apply para_plain|].
  split; apply plain_propagates; [apply dia_plain | apply para_plain].
Qed.

End Errors.


(** ** Symbolic execution *)

Section StoreFacts.
Context {B : Base}.
Import Numpy.

Lemma fresh_ok (h h' : heap) (r : result ndarray) (x : aref) :
  fresh h r = (h', Ok x) ->
  exists v, r = Ok v /\ h' = h ++ [data v] /\ x = mk_ref (List.length h) (shape v).
Proof.
  destruct r as [v|e]; simpl; intros E; inversion E; subst. eauto.
Qed.

Lemma store_ok (h h' : heap) (a : aref) (r : result (list C)) (u : unit) :
  store h a r = (h', Ok u) ->
  exists d, r = Ok d /\ h' = write h (base a) d.
Proof.
  destruct r as [d|e]; simpl; intros E; inversion E; subst. eauto.
Qed.

Lemma nth_new (h : heap) (d : list C) : nth (List.length h) (h ++ [d]) [] = d.
Proof. rewrite app_nth2, Nat.sub_diag by lia. reflexivity. Qed.

Lemma nth_old (h : heap) (d : list C) (l : nat) :
  l < List.length h -> nth l (h ++ [d]) [] = nth l h [].
Proof. intros. apply app_nth1. assumption. Qed.

Lemma write_length (h : heap) (l : loc) (d : list C) :
  List.length (write h l d) = List.length h.
Proof.
  revert l. induction h as [|x h IH]; intros [|l]; simpl; auto.
Qed.

Lemma write_other (h : heap) (l l' : loc) (d : list C) :
  l' <> l -> nth l' (write h l d) [] = nth l' h [].
Proof.
  revert l l'. induction h as [|x h IH]; intros [|l] [|l'] Hne; simpl; auto.
  congruence.
Qed.

Lemma write_same (h : heap) (l : loc) (d : list C) :
  l < List.length h -> nth l (write h l d) [] = d.
Proof.
  revert l. induction h as [|x h IH]; intros [|l] Hl; simpl in *; auto; try lia.
  apply IH. lia.
Qed.

Lemma fresh_raises (h h' : heap) (r : result ndarray) (e : exn) :
  fresh h r = (h', Raise e) -> r = Raise e.
Proof. destruct r; simpl; intros E; inversion E; reflexivity. Qed.

Lemma store_raises (h h' : heap) (a : aref) (r : result (list C)) (e : exn) :
  store h a r = (h', Raise e) -> r = Raise e.
Proof. destruct r; simpl; intros E; inversion E; reflexivity. Qed.

End StoreFacts.

(** [expose] brings a program to the form of a call followed by its
    continuation; [run_step] runs that call, with one case for its return
    and one for its failure. *)
Ltac expose :=
  cbn beta iota zeta delta [bind np call fst snd]; unfold np, call.

Ltac run_step :=
  lazymatch goal with
  | |- context [run (OpCall ?c ?k) ?w] =>
      let h := fresh "h" in
      let x := fresh "x" in
      let e := fresh "e" in
      let E := fresh "E" in
      pattern (run (OpCall c k) w);
      apply run_op_case; [ intros h x E | intros h e E ];
      cbv beta; cbn [heap_of hidden_of] in E |- *
  | |- context [run (ExtCall ?c ?k) ?w] =>
      let w' := fresh "w" in
      let x := fresh "x" in
      let e := fresh "e" in
      let E := fresh "E" in
      pattern (run (ExtCall c k) w);
      apply run_ext_case; [ intros w' x E | intros w' e E ];
      cbv beta; cbn [heap_of hidden_of] in E |- *
  end.

(** [inv_op E] makes explicit what a call that returned did to the store. *)
Ltac inv_op E :=
  cbn [do_op] in E;
  lazymatch type of E with
  | fresh _ _ = (_, Ok _) =>
      let v := fresh "v" in
      let R := fresh "R" in
      apply fresh_ok in E; destruct E as (v & R & ? & ?); subst
  | store _ _ _ = (_, Ok _) =>
      let d := fresh "d" in
      let R := fresh "R" in
      apply store_ok in E; destruct E as (d & R & ?); subst
  | (_, if ?b then _ else _) = (_, Ok _) =>
      let R := fresh "R" in
      destruct b eqn:R; [ inversion E; subst; clear E | discriminate E ]
  | (_, match ?o with Some _ => _ | None => _ end) = (_, Ok _) =>
      let R := fresh "R" in
      destruct o eqn:R; [ inversion E; subst; clear E | discriminate E ]
  | (_, Ok _) = (_, Ok _) => inversion E; subst; clear E
  end.

Ltac inv_ops :=
  repeat match goal with
         | E : do_op _ _ = (_, Ok _) |- _ => inv_op E
         end.


Section Reads.
Context {B : Base}.
Import Numpy.

Lemma read_old (h : heap) (d : list C) (a : aref) :
  base a < List.length h -> read (h ++ [d]) a = read h a.
Proof. intros. unfold read. rewrite nth_old; auto. Qed.

Lemma read_new (h : heap) (d : list C) (a : aref) :
  base a = List.length h -> read (h ++ [d]) a = mk_nd (ashape a) d.
Proof. intros E. unfold read. rewrite E, nth_new. reflexivity. Qed.

Lemma read_write_other (h : heap) (l : loc) (d : list C) (a : aref) :
  base a <> l -> read (write h l d) a = read h a.
Proof. intros. unfold read. rewrite write_other; auto. Qed.

Lemma read_write_same (h : heap) (l : loc) (d : list C) (a : aref) :
  base a = l -> l < List.length h ->
  read (write h l d) a = mk_nd (ashape a) d.
Proof. intros E Hl. unfold read. rewrite E, write_same; auto. Qed.

Lemma read_unchanged (n : nat) (h h' : heap) (a : aref) :
  unchanged_below n h h' -> base a < n -> read h' a = read h a.
Proof. intros [_ H] Ha. unfold read. rewrite H; auto. Qed.

Lemma nd_eta (v : ndarray) : mk_nd (shape v) (data v) = v.
Proof. destruct v; reflexivity. Qed.

Lemma ok_inj A (x y : A) : Ok x = Ok y -> x = y.
Proof. intros E. inversion E. reflexivity. Qed.

End Reads.

(** [len_tac] decides a comparison of addresses and store lengths. *)
Ltac len_tac :=
  repeat (rewrite length_app || rewrite write_length);
  cbn [List.length base]; lia.

Ltac len_norm_hyps :=
  repeat match goal with
         | H : _ <= _ |- _ =>
             progress (repeat (rewrite length_app in H || rewrite write_length in H);
                       cbn [List.length base] in H)
         | H : _ < _ |- _ =>
             progress (repeat (rewrite length_app in H || rewrite write_length in H);
                       cbn [List.length base] in H)
         end.

(** [norm_reads] rewrites every read of an array to a read in the oldest
    store that holds it, or to the value that was stored. *)
Ltac norm_reads :=
  repeat first
    [ rewrite read_new by len_tac
    | rewrite read_old by len_tac
    | rewrite read_write_same by len_tac
    | rewrite read_write_other by len_tac
    | progress cbn [ashape]
    | rewrite nd_eta
    | match goal with
      | Hu : unchanged_below _ ?h ?h' |- context [read ?h' ?a] =>
          rewrite (@read_unchanged _ _ h h' a Hu) by len_tac
      end ].

Ltac norm_reads_in H :=
  repeat first
    [ rewrite read_new in H by len_tac
    | rewrite read_old in H by len_tac
    | rewrite read_write_same in H by len_tac
    | rewrite read_write_other in H by len_tac
    | progress cbn [ashape] in H
    | rewrite nd_eta in H
    | match type of H with
      | context [read ?h' ?a] =>
          match goal with
          | Hu : unchanged_below _ ?h h' |- _ =>
              rewrite (@read_unchanged _ _ h h' a Hu) in H by len_tac
          end
      end ].

(** [use_eqs] rewrites with the equations of the calls that returned. *)
Ltac use_eqs :=
  cbn beta iota delta [rbind Numpy.shape Numpy.data];
  repeat (match goal with
          | R : ?t = Ok _ |- context [?t] => rewrite R
          | R : Ok ?t = Ok _ |- context [?t] => rewrite (ok_inj R)
          end; cbn beta iota delta [rbind Numpy.shape Numpy.data]).

Ltac norm_all :=
  cbn [map base] in *;
  len_norm_hyps;
  repeat match goal with
         | R : _ = Ok _ |- _ => progress norm_reads_in R
         end;
  repeat match goal with
         | R : Ok _ = Ok ?v |- _ => is_var v; apply ok_inj in R; subst v
         end;
  norm_reads.


Section Dia.
Context {B : Base} {X : Externals}.
Import Numpy.


End Dia.


Section Para.
Context {B : Base} {X : Externals}.
Import Numpy.

(** C4: the value passed for [with_cphf] has no effect: the run of [para]
    is the same for every value, and every call of [uhf_nmr.solve_mo1] made
    by [para], whether the run returns or fails, is given the attribute
    [cphf] of the magnetizability object. *)
Theorem with_cphf_is_overwritten (m : MagObj) (g : option gauge)
    (h1 s1 : option (aref * aref)) (v : cphf_arg) (w : world) :
  run (para m g h1 s1 v) w = run (para m g h1 s1 CphfNone) w /\
  Forall (fun c => sa_with_cphf (fst (fst c)) = cphf m)
         (pick solve_call (trace (run (para m g h1 s1 v) w))).
Proof.
  split; [reflexivity|].
  unfold para; destruct h1, s1; expose;
    repeat (run_step; [ | simpl; repeat constructor ]);
    simpl; repeat constructor.
Qed.

(** C2: every call of [uhf_nmr.solve_mo1] made by [para] is made on the
    magnetizability object and the orbital energies, coefficients and
    occupations of its SCF object, and there is at most one.  When [para]
    returns, there is exactly one, its [h1] and [s1] are the caller's when
    the caller gave them, and the six contractions made by [numpy.einsum]
    take the two components of the [mo1] and of the [mo_e1] it returned. *)
Theorem mo1_comes_from_solve_mo1 (m : MagObj) (g : option gauge)
    (h1 s1 : option (aref * aref)) (wc : cphf_arg) (w : world) :
  let o := run (para m g h1 s1 wc) w in
  List.length (pick solve_call (trace o)) <= 1 /\
  Forall (fun c =>
            sa_magobj (fst (fst c)) = m /\
            sa_mo_energy (fst (fst c)) = mo_energy (_scf m) /\
            sa_mo_coeff (fst (fst c)) = mo_coeff (_scf m) /\
            sa_mo_occ (fst (fst c)) = mo_occ (_scf m))
         (pick solve_call (trace o)) /\
  (forall r, value o = Ok r ->
     exists h1' s1' w1 mo1 mo_e1 ea eb s1oa s1ob,
       pick solve_call (trace o)
       = [(mk_solve m (mo_energy (_scf m)) (mo_coeff (_scf m)) (mo_occ (_scf m))
                    h1' s1' (cphf m), w1, Ok (mo1, mo_e1))] /\
       pick einsum_call (trace o)
       = [("yji,xji->xy", [fst mo1; fst h1']);
          ("yji,xji->xy", [snd mo1; snd h1']);
          ("yji,xji,i->xy", [fst mo1; fst s1'; ea]);
          ("yji,xji,i->xy", [snd mo1; snd s1'; eb]);
          ("xij,yij->xy", [s1oa; fst mo_e1]);
          ("xij,yij->xy", [s1ob; snd mo_e1])] /\
       (forall a, h1 = Some a -> h1' = a) /\
       (forall a, s1 = Some a -> s1' = a)).
Proof.
  cbv zeta. split; [|split].
  - unfold para; destruct h1, s1; expose;
      repeat (run_step; [ | simpl; lia ]); simpl; lia.
  - unfold para; destruct h1, s1; expose;
      repeat (run_step; [ | simpl; repeat constructor ]);
      simpl; repeat constructor.
  - unfold para; destruct h1 as [a1|], s1 as [a2|]; expose;
      repeat (run_step; [ | discriminate ]);
      simpl; intros r _;
      match goal with
      | E : ext_handle (Solve_mo1 _ _ _ _ ?a ?b _) ?w1 = (_, Ok ?sol) |- _ =>
          destruct sol as [mo1 mo_e1]; exists a, b, w1, mo1, mo_e1
      end;
      do 4 eexists;
      (split; [reflexivity|]); (split; [reflexivity|]);
      split; intros ? Heq; try discriminate; inversion Heq; reflexivity.
Qed.

End Para.


(** ** Frame *)

Ltac keeps_tac :=
  repeat first
    [ apply keeps_ret; simpl; lia
    | apply keeps_op; [ simpl; try lia; exact I | intros ? ?; simpl in * ]
    | apply keeps_ext; [ intros ? ?; simpl in * ] ].


Section Frame.
Context {B : Base}.
Import Numpy.

Lemma unchanged_refl (n : nat) (h : heap) :
  n <= List.length h -> unchanged_below n h h.
Proof. intros. split; auto. Qed.

Lemma unchanged_trans (n : nat) (h1 h2 h3 : heap) :
  unchanged_below n h1 h2 -> unchanged_below n h2 h3 -> unchanged_below n h1 h3.
Proof.
  intros [L1 H1] [L2 H2]. split; auto.
  intros l Hl. rewrite H2, H1; auto.
Qed.

Lemma unchanged_weaken (n n' : nat) (h h' : heap) :
  n <= n' -> unchanged_below n' h h' -> unchanged_below n h h'.
Proof.
  intros Hn [L H]. split; [lia|]. intros l Hl. apply H. lia.
Qed.

Lemma fresh_frame (n : nat) (h h' : heap) (r : result ndarray) (r' : result aref) :
  fresh h r = (h', r') -> n <= List.length h ->
  unchanged_below n h h' /\ (forall x, r' = Ok x -> n <= base x).
Proof.
  intros E Hn. destruct r as [v|e]; simpl in E; inversion E; subst; clear E.
  - split.
    + split; [rewrite length_app; lia|].
      intros l Hl. apply app_nth1. lia.
    + intros x Hx. inversion Hx; subst. simpl. lia.
  - split; [apply unchanged_refl; auto | discriminate].
Qed.

Lemma store_frame (n : nat) (h h' : heap) (a : aref) (r : result (list C))
    (r' : result unit) :
  store h a r = (h', r') -> n <= List.length h -> n <= base a ->
  unchanged_below n h h'.
Proof.
  intros E Hn Ha. destruct r as [d|e]; simpl in E; inversion E; subst; clear E.
  - split; [rewrite write_length; lia|].
    intros l Hl. apply write_other. lia.
  - apply unchanged_refl; auto.
Qed.

(** A call of numpy leaves the buffers below [n] as they are, provided an
    in-place update is on a buffer at or above [n]. *)
Lemma do_op_frame (n : nat) T (c : op T) (h h' : heap) (r : result T) :
  do_op c h = (h', r) -> n <= List.length h -> target_ok n c ->
  unchanged_below n h h' /\ (forall x, r = Ok x -> result_ok n c x).
Proof.
  intros E Hn Ht.
  destruct c; cbn [do_op target_ok result_ok] in E, Ht |- *;
    try (apply fresh_frame with (n := n) in E; auto; tauto);
    try (eapply store_frame in E; eauto; tauto);
    inversion E; subst; clear E;
    (split; [apply unchanged_refl; auto|]); auto.
  - intros x Hx. inversion Hx. reflexivity.
  - intros x Hx. destruct (Nat.eqb (size sh) (size (ashape a))); inversion Hx.
    reflexivity.
Qed.

Context {X : Externals} {FC : FrameContract}.

(** A program whose in-place updates are on buffers at or above [n] leaves
    the buffers below [n] as they are, also when it fails. *)
Lemma keeps_sound (n : nat) A (R : A -> Prop) (p : prog A) :
  keeps n R p ->
  forall w, n <= List.length (heap_of w) ->
    unchanged_below n (heap_of w) (heap_of (final (run p w))) /\
    (forall r, value (run p w) = Ok r -> R r).
Proof.
  induction 1 as [a Ha | T c k Ht Hk IH | T c k Hk IH]; intros w Hn.
  - simpl. split; [apply unchanged_refl; auto|].
    intros r Hr. inversion Hr; subst. auto.
  - simpl. destruct (do_op c (heap_of w)) as [h' [x|e]] eqn:E;
      destruct (@do_op_frame n _ c _ _ _ E Hn Ht) as [Hu Hx].
    + destruct (IH x (Hx x eq_refl) (set_heap w h')) as [Hu' Hr'].
      { simpl. destruct Hu. lia. }
      simpl in *. split; auto.
      eapply unchanged_trans; eauto.
    + simpl. split; auto. discriminate.
  - simpl. destruct (ext_handle c w) as [w' [x|e]] eqn:E.
    + assert (Hx : ext_result_ok n c x).
      { destruct c; simpl; auto.
        apply dia_1e_fresh in E. lia. }
      pose proof E as Hf. apply ext_frame in Hf.
      destruct (IH x Hx w') as [Hu' Hr'].
      { destruct Hf. lia. }
      simpl. split; auto.
      eapply unchanged_trans; [|eauto].
      eapply unchanged_weaken; eauto.
    + simpl. split; [|discriminate].
      apply ext_frame in E. eapply unchanged_weaken; eauto.
Qed.

(** [keeps] for [dia] and [para]: their in-place updates are on [e2], a
    view of the array returned by [rhf_mag._get_dia_1e], and on [mag_para],
    which they computed; the array they return is computed last. *)
Lemma dia_keeps (n : nat) (m : MagObj) (g : option gauge) :
  keeps n (fun r => n <= base r) (dia m g).
Proof. unfold dia. destruct g; expose; keeps_tac. Qed.

Lemma para_keeps (n : nat) (m : MagObj) (g : option gauge)
    (h1 s1 : option (aref * aref)) (wc : cphf_arg) :
  keeps n (fun r => n <= base r) (para m g h1 s1 wc).
Proof. unfold para. destruct h1, s1; expose; keeps_tac. Qed.

End Frame.


Section DiaCalls.
Context {B : Base} {X : Externals}.
Import Numpy.

Lemma densities_spec (mf : SCF) (w : world) :
  valid_scf (heap_of w) mf ->
  let o := run (dia_densities mf) w in
  pick dia_1e_call (trace o) = [] /\
  forall t, value o = Ok t ->
    dm0_of (heap_of w) mf = Ok (read (heap_of (final o)) (snd (fst t))) /\
    dme0_of (heap_of w) mf = Ok (read (heap_of (final o)) (snd t)).
Proof.
  intros (Ve & Vc & Vo). destruct Ve as [Ve1 Ve2], Vc as [Vc1 Vc2], Vo as [Vo1 Vo2].
  unfold valid in *.
  cbv zeta. split.
  - unfold dia_densities. expose. repeat (run_step; [ | reflexivity ]). reflexivity.
  - unfold dia_densities. expose. repeat (run_step; [ | discriminate ]).
    simpl. intros t Ht. inversion Ht; subst t; clear Ht. cbn [fst snd].
    inv_ops.
    norm_all.
    unfold dm0_of, dme0_of, spin_sum, density, energy_density, occupied.
    split; use_eqs; reflexivity.
Qed.

(** What [dia] does with the array [e1] returned by
    [rhf_mag._get_dia_1e]: the tensor it returns is the negation of the
    view of shape (3,3) of [e1], the only in-place updates are on the
    raveled view of [e1], and with a gauge origin the tensor holds the
    negated elements of [e1] as the routine left them. *)
Lemma dia_one_electron (m : MagObj) (g : option gauge) (w : world) (r : aref) :
  let o := run (dia m g) w in
  value o = Ok r ->
  exists dm0 dme0 w1 w2 e1 wN,
    pick dia_1e_call (trace o) = [(m, g, dm0, dme0, w1, Ok e1)] /\
    ext_handle (Rhf_get_dia_1e m g dm0 dme0) w1 = (w2, Ok e1) /\
    pick neg_call (trace o) = [(mk_ref (base e1) [3; 3], wN, Ok r)] /\
    read (heap_of (final o)) r
    = neg (read (heap_of wN) (mk_ref (base e1) [3; 3])) /\
    Forall (fun a => a = mk_ref (base e1) [size (ashape e1)])
           (pick inplace_target (trace o)) /\
    (g <> None ->
     read (heap_of (final o)) r
     = neg (mk_nd [3; 3] (data (read (heap_of w2) e1)))).
Proof.
  cbv zeta. unfold dia. destruct g; expose;
    repeat (run_step; [ | discriminate ]);
    cbn [run value final after trace heap_of app];
    intros Hr; inversion Hr; subst r; clear Hr.
  all: repeat match goal with
              | E : do_op (Ravel _) _ = _ |- _ => inv_op E
              | E : do_op (Reshape _ _) _ = _ |- _ => inv_op E
              | E : do_op (Neg _) _ = _ |- _ => inv_op E
              end;
    match goal with
    | R : Ok _ = Ok ?v |- _ => apply ok_inj in R; subst v
    end;
    match goal with
    | E : ext_handle (Rhf_get_dia_1e _ _ _ _) _ = (_, Ok _) |- _ =>
        do 6 eexists;
        (split; [reflexivity|]); (split; [exact E|])
    end;
    (split; [reflexivity|]);
    (split; [unfold read; cbn [base ashape]; rewrite nth_new; reflexivity|]);
    (split; [cbn [pick inplace_target]; repeat constructor|]).
  - intros _. unfold read. cbn [base ashape data heap_of].
    rewrite nth_new. reflexivity.
  - intros N. exfalso. apply N. reflexivity.
Qed.

(** C5: the class [Magnetizability] has the class of the restricted module
    as its only base; its dictionary binds [get_fock] to the function
    [get_fock] of the NMR module and [dia] and [para] to the functions of
    this module, besides the three names every class statement binds; a
    name that is none of these six is looked up in the base.  Every call
    of [rhf_mag._get_dia_1e] made by [dia] (there is at most one, when the
    arrays of the SCF object are in the store) is made on the
    magnetizability object, the gauge origin and two arrays that hold the
    spin-summed density matrix and the spin-summed energy-weighted density
    matrix of the SCF object.  When [dia] returns, it has made that call
    once and the array [e1] the routine returned is the one-electron term
    of the result: the tensor returned is the negation of the view of
    shape (3,3) of [e1], whose buffer has been updated only by the
    in-place accumulations of [dia] on its raveled view; with a gauge
    origin there is none, and the tensor holds the negated elements of
    [e1] as the routine left them. *)
Theorem uhf_reuses_rhf_and_nmr (__name__ : string) (rhf : pyclass)
    (m : MagObj) (g : option gauge) (w : world) :
  let c := Magnetizability __name__ rhf in
  let o := run (dia m g) w in
  cls_bases c = [rhf] /\
  map fst (cls_body c)
  = ["__module__"; "__qualname__"; "dia"; "para"; "get_fock"; "__doc__"] /\
  cls_getattr c "get_fock" = Some (VFun (Fn "pyscf.prop.nmr.uhf.get_fock")) /\
  cls_getattr c "dia" = Some (VFun uhf_dia) /\
  cls_getattr c "para" = Some (VFun uhf_para) /\
  (forall k, ~ In k (map fst (cls_body c)) ->
     cls_getattr c k = cls_getattr rhf k) /\
  (valid_scf (heap_of w) (_scf m) ->
   forall c1 rest, pick dia_1e_call (trace o) = c1 :: rest ->
     rest = [] /\
     exists dm0 dme0 w1 r1,
       c1 = (m, g, dm0, dme0, w1, r1) /\
       dm0_of (heap_of w) (_scf m) = Ok (read (heap_of w1) dm0) /\
       dme0_of (heap_of w) (_scf m) = Ok (read (heap_of w1) dme0)) /\
  (forall r, value o = Ok r ->
     exists dm0 dme0 w1 w2 e1 wN,
       pick dia_1e_call (trace o) = [(m, g, dm0, dme0, w1, Ok e1)] /\
       ext_handle (Rhf_get_dia_1e m g dm0 dme0) w1 = (w2, Ok e1) /\
       pick neg_call (trace o) = [(mk_ref (base e1) [3; 3], wN, Ok r)] /\
       read (heap_of (final o)) r
       = neg (read (heap_of wN) (mk_ref (base e1) [3; 3])) /\
       Forall (fun a => a = mk_ref (base e1) [size (ashape e1)])
              (pick inplace_target (trace o)) /\
       (g <> None ->
        read (heap_of (final o)) r
        = neg (mk_nd [3; 3] (data (read (heap_of w2) e1))))).
Proof.
  cbv zeta.
  split; [reflexivity|]. split; [reflexivity|]. split; [reflexivity|].
  split; [reflexivity|]. split; [reflexivity|].
  split.
  { intros k Hk. cbn [cls_body Magnetizability map fst In] in Hk.
    assert (Hne : forall x, x <> k -> String.eqb k x = false).
    { intros x Hx. apply String.eqb_neq. congruence. }
    cbn [cls_getattr Magnetizability assoc].
    rewrite !Hne by tauto.
    destruct (cls_getattr rhf k); reflexivity. }
  split; [|intros r Hr; exact (dia_one_electron m g w Hr)].
  intros V.
  destruct (densities_spec w V) as [Hpick Hval].
  rewrite dia_blocks, run_bind by (unfold dia_densities; plain_tac).
  destruct (value (run (dia_densities (_scf m)) w)) as [t|e] eqn:Ht.
  - destruct (Hval t eq_refl) as [H0 H1].
    set (w1 := final (run (dia_densities (_scf m)) w)) in *.
    cbn [trace value after]. rewrite pick_app, Hpick. cbn [app].
    clear Hpick Hval Ht.
    intros c1 rest. unfold dia_terms. destruct g; expose;
      repeat (run_step;
              [ | simpl; intros Hc; inversion Hc; subst; split; eauto 10 ]);
      simpl; intros Hc; inversion Hc; subst; split; eauto 10.
  - cbn [trace value]. rewrite Hpick. discriminate.
Qed.

End DiaCalls.


(** ** einsum *)

Ltac rb_step name E :=
  lazymatch goal with
  | |- rbind ?r _ = Ok _ -> _ =>
      destruct r as [name|] eqn:E; cbn [rbind]; [|discriminate]
  end.

Section Einsum.
Context {B : Base}.
Import Numpy.

Lemma flat_map_single A R (f : A -> R) (l : list A) :
  flat_map (fun x => [f x]) l = map f l.
Proof. induction l; simpl; congruence. Qed.

Lemma map_flat_map A R S (f : R -> S) (g : A -> list R) (l : list A) :
  map f (flat_map g l) = flat_map (fun x => map f (g x)) l.
Proof.
  induction l as [|a l IH]; simpl; auto.
  rewrite map_app, IH. reflexivity.
Qed.

Lemma flat_map_ext_in A R (f g : A -> list R) (l : list A) :
  (forall x, In x l -> f x = g x) -> flat_map f l = flat_map g l.
Proof.
  induction l as [|a l IH]; simpl; intros H; auto.
  rewrite H, IH; auto.
Qed.

(** ["xpq,pi,qj->xij"] is the transformation to the molecular-orbital
    basis. *)
Lemma einsum_mo_transform (M A O : ndarray) :
  einsum "xpq,pi,qj->xij" [M; A; O] = mo_transform M A O.
Proof.
  unfold einsum, mo_transform.
  destruct M as [sM dM], A as [sA dA], O as [sO dO].
  change (parse_spec "xpq,pi,qj->xij")
    with (Some ([["x"; "p"; "q"]; ["p"; "i"]; ["q"; "j"]]%char, ["x"; "i"; "j"]%char)).
  cbn [shape data].
  destruct sM as [|nx [|np [|nq [|? ?]]]]; try reflexivity.
  destruct sA as [|np' [|ni [|? ?]]]; try reflexivity;
    try (simpl; destruct (Nat.eqb np' np); reflexivity).
  destruct sO as [|nq' [|nj [|? ?]]];
    try (simpl; destruct (Nat.eqb np' np); try reflexivity;
         simpl; destruct (Nat.eqb nq' nq); reflexivity).
  cbn [bind_operands bind_axes shape lookup Ascii.eqb Bool.eqb app].
  destruct (Nat.eqb np' np); [|reflexivity].
  cbn [bind_operands bind_axes shape lookup Ascii.eqb Bool.eqb app].
  destruct (Nat.eqb nq' nq); [|reflexivity].
  cbn - [assignments term sum seq].
  f_equal. f_equal. cbn [assignments].
  rewrite map_flat_map. apply flat_map_ext_in; intros x _.
  rewrite map_map, map_flat_map. apply flat_map_ext_in; intros i _.
  cbn [map]. rewrite (flat_map_single (fun v => [("j"%char, v)])).
  rewrite !map_map.
  apply map_ext_in; intros j _.
  f_equal.
  rewrite map_flat_map. apply flat_map_ext_in; intros p _.
  cbn [map].
  rewrite (flat_map_single (fun v => [("q"%char, v)])), !map_map.
  apply map_ext_in; intros q _.
  reflexivity.
Qed.

(** ["yji,xji->xy"] on two arrays of three axes: the result has the
    leading axis of the second operand, then that of the first. *)
Lemma einsum_xy_shape (a b t : ndarray) :
  einsum "yji,xji->xy" [a; b] = Ok t ->
  exists y j i x,
    shape a = [y; j; i] /\ shape b = [x; j; i] /\ shape t = [x; y].
Proof.
  unfold einsum.
  destruct a as [sa da], b as [sb db].
  change (parse_spec "yji,xji->xy")
    with (Some ([["y"; "j"; "i"]; ["x"; "j"; "i"]]%char, ["x"; "y"]%char)).
  cbn [shape data].
  destruct sa as [|y [|j [|i [|? ?]]]]; try discriminate.
  destruct sb as [|x [|j' [|i' [|? ?]]]]; try discriminate;
    cbn [bind_operands bind_axes shape lookup Ascii.eqb Bool.eqb app];
    try (destruct (Nat.eqb j' j); try discriminate;
         destruct (Nat.eqb i' i); discriminate).
  destruct (Nat.eqb j' j) eqn:Ej; [|discriminate].
  cbn [bind_operands bind_axes shape lookup Ascii.eqb Bool.eqb app].
  destruct (Nat.eqb i' i) eqn:Ei; [|discriminate].
  apply Nat.eqb_eq in Ej, Ei. subst.
  cbn - [assignments term sum seq]. intros E. inversion E; subst; clear E.
  exists y, j, i, x. auto.
Qed.

Lemma list_eqb_refl (l : list nat) : list_eqb l l = true.
Proof. induction l; simpl; auto. rewrite Nat.eqb_refl. auto. Qed.

Lemma is_suffix_refl (l : list nat) : is_suffix l l = true.
Proof. destruct l; simpl; auto. rewrite Nat.eqb_refl, list_eqb_refl. auto. Qed.

Lemma update_from_length (f : C -> C -> C) (i nb : nat) (buf bd : list C) :
  List.length (update_from f i nb buf bd) = List.length buf.
Proof. revert i. induction buf; intros; simpl; auto. Qed.

Lemma iadd_value_shape (a b v : ndarray) :
  iadd_value a b = Ok v ->
  shape v = shape a /\ List.length (data v) = List.length (data a).
Proof.
  unfold iadd_value, inplace. destruct (is_suffix (shape b) (shape a));
    simpl; intros E; inversion E; subst; simpl.
  split; auto. apply update_from_length.
Qed.

Lemma isub_value_shape (a b v : ndarray) :
  isub_value a b = Ok v ->
  shape v = shape a /\ List.length (data v) = List.length (data a).
Proof.
  unfold isub_value, inplace. destruct (is_suffix (shape b) (shape a));
    simpl; intros E; inversion E; subst; simpl.
  split; auto. apply update_from_length.
Qed.

Lemma add_conj_shape (a v : ndarray) :
  add a (conj a) = Ok v ->
  shape v = shape a /\ List.length (data v) = size (shape a).
Proof.
  unfold add, broadcast2. simpl. rewrite is_suffix_refl.
  intros E. inversion E; subst; simpl.
  rewrite length_map, length_seq. auto.
Qed.

(** The value of the paramagnetic tensor has the leading axes of [h1] and
    of [mo1] as its two axes and as many elements as they demand. *)
Lemma mag_para_value_shape
    (mo1a mo1b h1a h1b s1a s1b mo_e1a mo_e1b ea eb occa occb M : ndarray) :
  mag_para_value mo1a mo1b h1a h1b s1a s1b mo_e1a mo_e1b ea eb occa occb = Ok M ->
  exists y j i x,
    shape mo1a = [y; j; i] /\ shape h1a = [x; j; i] /\
    shape M = [x; y] /\ List.length (data M) = x * y.
Proof.
  unfold mag_para_value.
  rb_step t0 Et0. rb_step t1 Et1. rb_step m1 Em1. rb_step eoa Eea.
  rb_step t2 Et2. rb_step m2 Em2. rb_step eob Eeb. rb_step t3 Et3.
  rb_step m3 Em3. rb_step m4 Em4. rb_step s1oa Eoa. rb_step t4 Et4.
  rb_step m5 Em5. rb_step s1ob Eob. rb_step t5 Et5.
  intros EM.
  destruct (einsum_xy_shape _ _ Et0) as (y & j & i & x & Ha & Hb & Ht).
  exists y, j, i, x. split; auto. split; auto.
  apply iadd_value_shape in Em1.
  apply isub_value_shape in Em2, Em3, Em5, EM.
  apply add_conj_shape in Em4.
  destruct Em1 as [S1 L1], Em2 as [S2 L2], Em3 as [S3 L3], Em4 as [S4 L4],
    Em5 as [S5 L5], EM as [S6 L6].
  assert (Hs : shape m3 = [x; y]) by congruence.
  split; [congruence|].
  rewrite L6, L5, L4, Hs. simpl. lia.
Qed.

End Einsum.


(** ** The contraction of [para] *)

Section Contraction.
Context {B : Base} {X : Externals}.
Import Numpy.

(** When the arrays it is given are in the store, the last block of
    [para] returns a new array that holds the negated value of the
    paramagnetic tensor; the arrays it was given are as they were. *)
Lemma para_contract_spec (mf : SCF) (mo1 mo_e1 h1 s1 : aref * aref)
    (w : world) (r : aref) :
  valid_scf (heap_of w) mf ->
  valid2 (heap_of w) mo1 -> valid2 (heap_of w) mo_e1 ->
  valid2 (heap_of w) h1 -> valid2 (heap_of w) s1 ->
  value (run (para_contract mf mo1 mo_e1 h1 s1) w) = Ok r ->
  let hf := heap_of (final (run (para_contract mf mo1 mo_e1 h1 s1) w)) in
  exists M,
    mag_para_value
      (read hf (fst mo1)) (read hf (snd mo1))
      (read hf (fst h1)) (read hf (snd h1))
      (read hf (fst s1)) (read hf (snd s1))
      (read hf (fst mo_e1)) (read hf (snd mo_e1))
      (read hf (fst (mo_energy mf))) (read hf (snd (mo_energy mf)))
      (read hf (fst (mo_occ mf))) (read hf (snd (mo_occ mf))) = Ok M /\
    read hf r = neg M /\
    List.length (heap_of w) <= base r.
Proof.
  intros (Ve & Vc & Vo) Vm Vme Vh Vs.
  destruct Ve as [Ve1 Ve2], Vc as [Vc1 Vc2], Vo as [Vo1 Vo2],
    Vm as [Vm1 Vm2], Vme as [Vme1 Vme2], Vh as [Vh1 Vh2], Vs as [Vs1 Vs2].
  unfold valid in *.
  unfold para_contract. expose. repeat (run_step; [ | discriminate ]).
  cbn [run value final after heap_of]. intros Hr. inversion Hr; subst r; clear Hr.
  inv_ops.
  norm_all.
  unfold mag_para_value, iadd_value, isub_value.
  norm_reads. use_eqs.
  eexists. split; [reflexivity|]. split; [|len_tac].
  reflexivity.
Qed.

End Contraction.


(** ** The first-order matrices of [para] *)

(** After a call of the environment that returned: the frame it keeps
    and the validity of what it returned. *)
Ltac ext_facts E :=
  let Hu := fresh "Hu" in
  let Hl := fresh "Hl" in
  pose proof E as Hu; apply ext_frame in Hu; cbn [heap_of] in Hu;
  pose proof (proj1 Hu) as Hl;
  try (let Hv := fresh "Hv" in
       pose proof E as Hv; apply fock_valid in Hv;
       destruct Hv as [? ?]; unfold valid in *);
  try (let Hv := fresh "Hv" in
       pose proof E as Hv; apply ovlp_valid in Hv; unfold valid in *);
  try (let Hv := fresh "Hv" in
       pose proof E as Hv; apply solve_valid in Hv;
       destruct Hv as [[? ?] [? ?]]; unfold valid in *).

Ltac run_stepF :=
  lazymatch goal with
  | |- context [run (OpCall ?c ?k) ?w] =>
      let h := fresh "h" in
      let x := fresh "x" in
      let e := fresh "e" in
      let E := fresh "E" in
      pattern (run (OpCall c k) w);
      apply run_op_case; [ intros h x E | intros h e E ];
      cbv beta; cbn [heap_of hidden_of] in E |- *
  | |- context [run (ExtCall ?c ?k) ?w] =>
      let w' := fresh "w" in
      let x := fresh "x" in
      let e := fresh "e" in
      let E := fresh "E" in
      pattern (run (ExtCall c k) w);
      apply run_ext_case; [ intros w' x E; ext_facts E | intros w' e E ];
      cbv beta; cbn [heap_of hidden_of] in E |- *
  end.

Section Setup.
Context {B : Base} {X : Externals} {FC : FrameContract} {VR : ValidResults}.
Import Numpy.

Lemma setup_spec (m : MagObj) (g : option gauge) (h1 s1 : option (aref * aref))
    (w : world) :
  valid_scf (heap_of w) (_scf m) ->
  valid_opt (heap_of w) h1 -> valid_opt (heap_of w) s1 ->
  let o := run (para_setup m g h1 s1) w in
  let h0 := heap_of w in
  let Ca := read h0 (fst (mo_coeff (_scf m))) in
  let Cb := read h0 (snd (mo_coeff (_scf m))) in
  let occa := read h0 (fst (mo_occ (_scf m))) in
  let occb := read h0 (snd (mo_occ (_scf m))) in
  pick solve_call (trace o) = [] /\
  unchanged_below (List.length h0) h0 (heap_of (final o)) /\
  forall t, value o = Ok t ->
    let hs := heap_of (final o) in
    let h1' := snd (fst t) in
    let s1' := snd t in
    valid2 hs h1' /\ valid2 hs s1' /\
    match h1 with
    | Some a => h1' = a /\ pick fock_call (trace o) = []
    | None =>
        exists dm0 wF wF' F,
          pick fock_call (trace o) = [(m, dm0, g, wF, Ok F)] /\
          ext_handle (Get_fock m dm0 g) wF = (wF', Ok F) /\
          density Ca occa = Ok (read (heap_of wF) (fst dm0)) /\
          density Cb occb = Ok (read (heap_of wF) (snd dm0)) /\
          first_order_mo (read hs (fst F)) Ca occa = Ok (read hs (fst h1')) /\
          first_order_mo (read hs (snd F)) Cb occb = Ok (read hs (snd h1'))
    end /\
    match s1 with
    | Some a => s1' = a /\ pick ovlp_call (trace o) = []
    | None =>
        exists wS S,
          pick ovlp_call (trace o) = [(m, mol m, g, wS, Ok S)] /\
          first_order_mo (read hs S) Ca occa = Ok (read hs (fst s1')) /\
          first_order_mo (read hs S) Cb occb = Ok (read hs (snd s1'))
    end.
Proof.
  intros (Ve & Vc & Vo) Vh Vs.
  destruct Ve as [Ve1 Ve2], Vc as [Vc1 Vc2], Vo as [Vo1 Vo2].
  cbv zeta. split; [|split].
  - unfold para_setup, para_orbitals, para_h1, para_s1.
    destruct h1, s1; expose;
      repeat (run_step; [ | reflexivity ]); reflexivity.
  - assert (K : keeps (List.length (heap_of w)) (fun _ => True)
                  (para_setup m g h1 s1)).
    { unfold para_setup, para_orbitals, para_h1, para_s1.
      destruct h1, s1; expose; keeps_tac; apply keeps_ret; exact I. }
    apply (keeps_sound K). auto.
  - unfold para_setup, para_orbitals, para_h1, para_s1.
    destruct h1 as [a1|], s1 as [a2|];
      unfold valid_opt, valid2, valid in *; expose;
      repeat (run_stepF; [ | discriminate ]);
      cbn [run value final after trace heap_of app];
      intros t Ht; inversion Ht; subst t; clear Ht; cbn [fst snd];
      inv_ops; norm_all.
    + repeat split; try len_tac.
    + split; [split; len_tac|]. split; [split; len_tac|].
      split; [split; reflexivity|].
      do 2 eexists. split; [reflexivity|].
      unfold first_order_mo, occupied. use_eqs.
      rewrite <- !einsum_mo_transform. norm_reads. auto.
    + split; [split; len_tac|]. split; [split; len_tac|].
      split; [|split; reflexivity].
      do 4 eexists. split; [reflexivity|]. split; [eassumption|].
      cbn [heap_of fst snd].
      unfold density, first_order_mo, occupied. use_eqs.
      rewrite <- !einsum_mo_transform. norm_reads. auto.
    + split; [split; len_tac|]. split; [split; len_tac|].
      split.
      * do 4 eexists. split; [reflexivity|]. split; [eassumption|].
        cbn [heap_of fst snd].
        unfold density, first_order_mo, occupied. use_eqs.
        rewrite <- !einsum_mo_transform. norm_reads. auto.
      * do 2 eexists. split; [reflexivity|].
        unfold first_order_mo, occupied. use_eqs.
        rewrite <- !einsum_mo_transform. norm_reads. auto.
Qed.

End Setup.


(** ** [para] from the call of the solver on *)

Section Solve.
Context {B : Base} {X : Externals}.
Import Numpy.

(** The last block of [para] calls the solver first, once, and calls
    neither [magobj.get_fock] nor [magobj.get_ovlp]. *)
Lemma solve_calls (m : MagObj) (cput : C * C) (h1 s1 : aref * aref) (w : world) :
  let o := run (para_solve m cput h1 s1) w in
  pick fock_call (trace o) = [] /\
  pick ovlp_call (trace o) = [] /\
  exists r,
    pick solve_call (trace o)
    = [(mk_solve m (mo_energy (_scf m)) (mo_coeff (_scf m)) (mo_occ (_scf m))
                 h1 s1 (cphf m), w, r)].
Proof.
  cbv zeta. split; [|split].
  - unfold para_solve, para_contract. expose.
    repeat (run_step; [ | reflexivity ]). reflexivity.
  - unfold para_solve, para_contract. expose.
    repeat (run_step; [ | reflexivity ]). reflexivity.
  - unfold para_solve, para_contract. expose.
    repeat (run_step; [ | simpl; eauto ]). simpl; eauto.
Qed.

Lemma setup_plain (m : MagObj) (g : option gauge) (h1 s1 : option (aref * aref)) :
  plain (para_setup m g h1 s1).
Proof.
  unfold para_setup, para_orbitals, para_h1, para_s1.
  destruct h1, s1; plain_tac.
Qed.

(** The transformation keeps the leading axis of the matrix. *)
Lemma first_order_mo_three (M coeff occ v : ndarray) :
  first_order_mo M coeff occ = Ok v ->
  match shape M with d :: _ => d = 3 | [] => False end ->
  match shape v with d :: _ => d = 3 | [] => False end.
Proof.
  unfold first_order_mo, occupied, mo_transform.
  destruct (take1 coeff (gt0 occ)) as [orbo|]; cbn [rbind]; [|discriminate].
  destruct (shape M) as [|nx [|np [|nq [|? ?]]]]; try discriminate.
  destruct (shape (conj coeff)) as [|np' [|ni [|? ?]]]; try discriminate.
  destruct (shape orbo) as [|nq' [|nj [|? ?]]]; try discriminate.
  destruct (Nat.eqb np' np && Nat.eqb nq' nq); [|discriminate].
  intros E. inversion E; subst. simpl. auto.
Qed.

End Solve.

Section MoBasis.
Context {B : Base} {X : Externals} {FC : FrameContract} {VR : ValidResults}.
Import Numpy.

(** C3: when the routines of the environment leave existing buffers alone
    and return arrays that are in the store, at every call of
    [uhf_nmr.solve_mo1] made by [para] (there is at most one): if [h1] was
    [None], [magobj.get_fock] has been called once, on the two density
    matrices [orbo . orbo^T] of the occupied orbitals, and the [h1] handed
    to the solver holds, for each spin, the matrix it returned transformed
    as [conj(mo_coeff)^T . M . orbo]; if [s1] was [None], [magobj.get_ovlp]
    has been called once and the [s1] handed to the solver holds, for each
    spin, the matrix it returned transformed in the same way. *)
Theorem first_order_matrices_in_mo_basis (m : MagObj) (g : option gauge)
    (h1 s1 : option (aref * aref)) (wc : cphf_arg) (w : world) :
  valid_scf (heap_of w) (_scf m) ->
  valid_opt (heap_of w) h1 -> valid_opt (heap_of w) s1 ->
  let o := run (para m g h1 s1 wc) w in
  let h0 := heap_of w in
  let Ca := read h0 (fst (mo_coeff (_scf m))) in
  let Cb := read h0 (snd (mo_coeff (_scf m))) in
  let occa := read h0 (fst (mo_occ (_scf m))) in
  let occb := read h0 (snd (mo_occ (_scf m))) in
  (forall r, value o = Ok r -> pick solve_call (trace o) <> []) /\
  forall c rest, pick solve_call (trace o) = c :: rest ->
    let hs := heap_of (snd (fst c)) in
    let h1' := sa_h1 (fst (fst c)) in
    let s1' := sa_s1 (fst (fst c)) in
    rest = [] /\
    (h1 = None ->
     exists dm0 wF F,
       pick fock_call (trace o) = [(m, dm0, g, wF, Ok F)] /\
       density Ca occa = Ok (read (heap_of wF) (fst dm0)) /\
       density Cb occb = Ok (read (heap_of wF) (snd dm0)) /\
       first_order_mo (read hs (fst F)) Ca occa = Ok (read hs (fst h1')) /\
       first_order_mo (read hs (snd F)) Cb occb = Ok (read hs (snd h1'))) /\
    (s1 = None ->
     exists wS S,
       pick ovlp_call (trace o) = [(m, mol m, g, wS, Ok S)] /\
       first_order_mo (read hs S) Ca occa = Ok (read hs (fst s1')) /\
       first_order_mo (read hs S) Cb occb = Ok (read hs (snd s1'))).
Proof.
  intros V Vh Vs. cbv zeta.
  destruct (setup_spec m g h1 s1 w V Vh Vs) as (Hno & Hfr & Hval).
  rewrite para_split, run_bind by apply setup_plain.
  destruct (value (run (para_setup m g h1 s1) w)) as [t|e] eqn:Ht.
  - destruct (Hval t eq_refl) as (_ & _ & H1 & S1).
    set (ws := final (run (para_setup m g h1 s1) w)) in *.
    destruct (solve_calls m (fst (fst t)) (snd (fst t)) (snd t) ws)
      as (Hf & Ho & r & Hs).
    cbn [trace value after].
    rewrite !pick_app, Hno, Hs, Hf, Ho, !app_nil_r. cbn [app].
    split; [discriminate|].
    intros c rest Hc. inversion Hc; subst c rest; clear Hc.
    cbn [fst snd sa_h1 sa_s1].
    split; [reflexivity|]. split.
    + intros Hn. subst h1.
      destruct H1 as (dm0 & wF & wF' & F & P & _ & D1 & D2 & F1 & F2).
      exists dm0, wF, F. auto.
    + intros Hn. subst s1.
      destruct S1 as (wS & S & P & F1 & F2).
      exists wS, S. auto.
  - cbn [trace value]. rewrite Hno. split; discriminate.
Qed.

End MoBasis.


(** ** The shape of the tensors *)

Section Shapes.
Context {B : Base} {X : Externals}.
Import Numpy.

(** What [dia] returns: the negation of the view of shape (3,3) of the
    array of nine elements returned by [rhf_mag._get_dia_1e]. *)
Lemma dia_returns (m : MagObj) (g : option gauge) (w : world) (r : aref) :
  let o := run (dia m g) w in
  value o = Ok r ->
  ashape r = [3; 3] /\
  exists dm0 dme0 w1 e1 wN,
    pick dia_1e_call (trace o) = [(m, g, dm0, dme0, w1, Ok e1)] /\
    size (ashape e1) = 9 /\
    pick neg_call (trace o) = [(mk_ref (base e1) [3; 3], wN, Ok r)] /\
    read (heap_of (final o)) r
    = neg (read (heap_of wN) (mk_ref (base e1) [3; 3])) /\
    Forall (fun a => a = mk_ref (base e1) [9]) (pick inplace_target (trace o)).
Proof.
  cbv zeta. unfold dia. destruct g; expose;
    repeat (run_step; [ | discriminate ]);
    cbn [run value final after trace heap_of app];
    intros Hr; inversion Hr; subst r; clear Hr.
  all: repeat match goal with
              | E : do_op (Ravel _) _ = _ |- _ => inv_op E
              | E : do_op (Reshape _ _) _ = _ |- _ => inv_op E
              | E : do_op (Neg _) _ = _ |- _ => inv_op E
              end;
    match goal with
    | R : Ok _ = Ok ?v |- _ => apply ok_inj in R; subst v
    end;
    match goal with
    | R : Nat.eqb _ _ = true |- _ =>
        apply Nat.eqb_eq in R; cbn [size fold_right ashape] in R
    end;
    match goal with
    | E : ext_handle (Rhf_get_dia_1e _ _ _ _) _ = (_, Ok ?e1) |- _ =>
        assert (H9 : size (ashape e1) = 9) by lia
    end;
    (split; [reflexivity|]);
    do 5 eexists;
    (split; [reflexivity|]); (split; [exact H9|]);
    (split; [reflexivity|]);
    (split; [unfold read; cbn [base ashape]; rewrite nth_new; reflexivity|]);
    cbn [pick inplace_target]; rewrite ?H9; repeat constructor.
Qed.

(** The last block of [para] does not call the solver. *)
Lemma contract_no_solve (mf : SCF) (mo1 mo_e1 h1 s1 : aref * aref) (w : world) :
  pick solve_call (trace (run (para_contract mf mo1 mo_e1 h1 s1) w)) = [].
Proof.
  unfold para_contract. expose.
  repeat (run_step; [ | reflexivity ]). reflexivity.
Qed.

End Shapes.

Section ParaShape.
Context {B : Base} {X : Externals}
        {FC : FrameContract} {VR : ValidResults} {TC : ThreeComponents}.
Import Numpy.

(** What [para] returns: the negation of the value of the paramagnetic
    tensor, computed from the [mo1] and [mo_e1] returned by the solver and
    from the [h1] and [s1] it was given; it has three rows and three
    columns. *)
Lemma para_returns (m : MagObj) (g : option gauge)
    (h1 s1 : option (aref * aref)) (wc : cphf_arg) (w : world) (r : aref) :
  valid_scf (heap_of w) (_scf m) ->
  valid_opt (heap_of w) h1 -> valid_opt (heap_of w) s1 ->
  three_opt h1 ->
  let o := run (para m g h1 s1 wc) w in
  let hf := heap_of (final o) in
  let mf := _scf m in
  value o = Ok r ->
  exists args w1 mo1 mo_e1 M,
    pick solve_call (trace o) = [(args, w1, Ok (mo1, mo_e1))] /\
    mag_para_value
      (read hf (fst mo1)) (read hf (snd mo1))
      (read hf (fst (sa_h1 args))) (read hf (snd (sa_h1 args)))
      (read hf (fst (sa_s1 args))) (read hf (snd (sa_s1 args)))
      (read hf (fst mo_e1)) (read hf (snd mo_e1))
      (read hf (fst (mo_energy mf))) (read hf (snd (mo_energy mf)))
      (read hf (fst (mo_occ mf))) (read hf (snd (mo_occ mf))) = Ok M /\
    read hf r = neg M /\
    ashape r = [3; 3] /\
    List.length (data (read hf r)) = 9.
Proof.
  intros V Vh Vs T3. cbv zeta.
  destruct (setup_spec m g h1 s1 w V Vh Vs) as (Hno & Hfr & Hval).
  rewrite para_split, run_bind by apply setup_plain.
  destruct (value (run (para_setup m g h1 s1) w)) as [t|e] eqn:Ht;
    [|discriminate].
  destruct (Hval t eq_refl) as (Vh1 & Vs1 & H1 & S1). clear Hval.
  set (ws := final (run (para_setup m g h1 s1) w)) in *.
  assert (T1 : three (fst (snd (fst t))) /\ three (snd (snd (fst t)))).
  { destruct h1 as [a|].
    - destruct H1 as [-> _]. exact T3.
    - destruct H1 as (dm0 & wF & wF' & F & _ & EF & _ & _ & F1 & F2).
      apply fock_three in EF. destruct EF as [TF1 TF2].
      split;
        [ exact (@first_order_mo_three _ _ _ _ _ F1 TF1)
        | exact (@first_order_mo_three _ _ _ _ _ F2 TF2) ]. }
  clear H1 S1.
  cbn [trace value final after].
  rewrite pick_app, Hno. cbn [app].
  unfold para_solve. expose.
  destruct V as (Ve & Vc & Vo).
  destruct Ve as [Ve1 Ve2], Vc as [Vc1 Vc2], Vo as [Vo1 Vo2].
  destruct Vh1 as [Vh11 Vh12], Vs1 as [Vs11 Vs12]. destruct Hfr as [Hfl _].
  unfold valid in *.
  run_stepF; [ | discriminate ].
  run_stepF; [ | discriminate ].
  cbn [trace value final after app pick solve_call].
  rewrite contract_no_solve.
  intros Hr.
  pose proof E as T2. apply solve_three in T2. destruct T2 as [T21 T22].
  destruct T1 as [T11 T12].
  destruct x as [mo1 mo_e1]. cbn [fst snd] in *.
  apply para_contract_spec in Hr;
    [ | repeat split; unfold valid; lia
      | split; unfold valid; lia | split; unfold valid; lia
      | split; unfold valid; lia | split; unfold valid; lia ].
  cbv zeta in Hr. destruct Hr as (M & HM & Hread & Hbase).
  eexists _, ws, mo1, mo_e1, M.
  split; [reflexivity|]. cbn [sa_h1 sa_s1].
  split; [exact HM|]. split; [exact Hread|].
  destruct (mag_para_value_shape _ _ _ _ _ _ _ _ _ _ _ _ HM)
    as (y & j & i & x & Sa & Sb & SM & LM).
  cbn [read shape] in Sa, Sb.
  unfold three in T21, T11. rewrite Sa in T21. rewrite Sb in T11. subst y x.
  split.
  - apply (f_equal shape) in Hread. cbn [read shape neg] in Hread.
    rewrite Hread. exact SM.
  - rewrite Hread. cbn [neg data]. rewrite length_map. exact LM.
Qed.

(** C1: [dia] returns an array of shape (3,3): the negation of the view of
    shape (3,3) of [e2], the flattened array of nine elements returned by
    [rhf_mag._get_dia_1e], on which all the in-place updates of [dia] were
    made.  When the routines of the environment leave existing buffers
    alone, return arrays that are in the store and return three components
    (of the Fock derivative, of [mo1]), and the caller's [h1], if given,
    has three components, [para] returns an array of shape (3,3) with nine
    elements: the negation of the tensor contracted from the [mo1] and
    [mo_e1] of the solver and the [h1] and [s1] it was given. *)
Theorem dia_and_para_return_3x3 (m : MagObj) (g : option gauge)
    (h1 s1 : option (aref * aref)) (wc : cphf_arg) (w : world) :
  valid_scf (heap_of w) (_scf m) ->
  valid_opt (heap_of w) h1 -> valid_opt (heap_of w) s1 ->
  three_opt h1 ->
  (forall r, value (run (dia m g) w) = Ok r ->
     let o := run (dia m g) w in
     ashape r = [3; 3] /\
     exists dm0 dme0 w1 e1 wN,
       pick dia_1e_call (trace o) = [(m, g, dm0, dme0, w1, Ok e1)] /\
       size (ashape e1) = 9 /\
       pick neg_call (trace o) = [(mk_ref (base e1) [3; 3], wN, Ok r)] /\
       read (heap_of (final o)) r
       = neg (read (heap_of wN) (mk_ref (base e1) [3; 3])) /\
       Forall (fun a => a = mk_ref (base e1) [9])
              (pick inplace_target (trace o))) /\
  (forall r, value (run (para m g h1 s1 wc) w) = Ok r ->
     let o := run (para m g h1 s1 wc) w in
     let hf := heap_of (final o) in
     let mf := _scf m in
     exists args w1 mo1 mo_e1 M,
       pick solve_call (trace o) = [(args, w1, Ok (mo1, mo_e1))] /\
       mag_para_value
         (read hf (fst mo1)) (read hf (snd mo1))
         (read hf (fst (sa_h1 args))) (read hf (snd (sa_h1 args)))
         (read hf (fst (sa_s1 args))) (read hf (snd (sa_s1 args)))
         (read hf (fst mo_e1)) (read hf (snd mo_e1))
         (read hf (fst (mo_energy mf))) (read hf (snd (mo_energy mf)))
         (read hf (fst (mo_occ mf))) (read hf (snd (mo_occ mf))) = Ok M /\
       read hf r = neg M /\
       ashape r = [3; 3] /\
       List.length (data (read hf r)) = 9).
Proof.
  intros V Vh Vs T3. split.
  - intros r Hr. apply dia_returns. exact Hr.
  - intros r Hr. apply para_returns; assumption.
Qed.

End ParaShape.

(** ** The toy environment meets the contracts *)

Section ToyFacts.
Import Numpy Toy.

Lemma alloc_all_heap (shapes : list (list nat)) (h : heap) :
  fst (alloc_all h shapes) = h ++ map (fun sh => ramp (size sh)) shapes.
Proof.
  revert h. induction shapes as [|sh rest IH]; intro h; simpl.
  - now rewrite app_nil_r.
  - unfold alloc. cbn [data fst snd].
    match goal with
    | |- context [alloc_all ?x rest] =>
        specialize (IH x); destruct (alloc_all x rest) as [h2 l]
    end.
    cbn [fst] in *. rewrite IH, <- app_assoc. reflexivity.
Qed.

Lemma toy_extends T (c : ext T) (w : world) :
  exists t, heap_of (fst (toy_handle c w)) = heap_of w ++ t.
Proof.
  destruct c; unfold toy_handle;
    try (eexists []; rewrite app_nil_r; reflexivity);
    match goal with
    | |- context [alloc_all ?h ?l] =>
        pose proof (alloc_all_heap l h) as E;
        destruct (alloc_all h l) as [h' l']; simpl in E; subst h';
        eexists; reflexivity
    end.
Qed.

Lemma extends_unchanged (h t : heap) :
  unchanged_below (List.length h) h (h ++ t).
Proof.
  split.
  - rewrite length_app. lia.
  - intros l Hl. rewrite app_nth1 by exact Hl. reflexivity.
Qed.

Lemma toy_frame : @FrameContract QBase toy.
Proof.
  split.
  - intros T c w w' r E. destruct (toy_extends c w) as [t Ht].
    change (ext_handle c w) with (toy_handle c w) in E.
    rewrite E in Ht. simpl in Ht. rewrite Ht. apply extends_unchanged.
  - intros m g dm0 dme0 w w' e1 E. cbn in E. inversion E. simpl. lia.
Qed.

Lemma toy_valid : @ValidResults QBase toy.
Proof.
  split.
  - intros m dm0 g w w' r E. cbn in E. inversion E. subst.
    unfold valid2, valid. simpl. rewrite !length_app. simpl. lia.
  - intros m mo g w w' r E. cbn in E. inversion E. subst.
    unfold valid. simpl. rewrite !length_app. simpl. lia.
  - intros m e co oc h1 s1 wc w w' r E. cbn in E. inversion E. subst.
    unfold valid2, valid. simpl. rewrite !length_app. simpl. lia.
Qed.

Lemma toy_three : @ThreeComponents QBase toy.
Proof.
  split.
  - intros m dm0 g w w' r E. cbn in E. inversion E. subst.
    unfold three. simpl. auto.
  - intros m e co oc h1 s1 wc w w' r E. cbn in E. inversion E. subst.
    unfold three. simpl. auto.
Qed.


End ToyFacts.

(** ** The theorems at work on the toy environment *)

Section ToyRuns.
Import Numpy Toy.

Lemma toy_scf_valid : valid_scf (heap_of w0) (_scf mag).
Proof. unfold valid_scf, valid2, valid. simpl. lia. Qed.

Lemma dia_and_para_return_3x3_witness :
  valid_scf (heap_of w0) (_scf mag) /\
  (exists r, value (run (dia mag None) w0) = Ok r /\ ashape r = [3; 3]) /\
  (exists r, value (run (para mag None None None CphfNone) w0) = Ok r /\
             ashape r = [3; 3]).
Proof.
  split; [exact toy_scf_valid|].
  destruct (@dia_and_para_return_3x3 QBase toy toy_frame toy_valid toy_three
              mag None None None CphfNone w0 toy_scf_valid I I I) as [Hd Hp].
  split.
  - exists (mk_ref 37 [3; 3]).
    assert (E : value (run (dia mag None) w0) = Ok (mk_ref 37 [3; 3]))
      by (vm_compute; reflexivity).
    split; [exact E|]. exact (proj1 (Hd _ E)).
  - exists (mk_ref 37 [3; 3]).
    assert (E : value (run (para mag None None None CphfNone) w0)
                = Ok (mk_ref 37 [3; 3])) by (vm_compute; reflexivity).
    split; [exact E|].
    destruct (Hp _ E) as (a & w1 & mo1 & mo_e1 & M & _ & _ & _ & S & _).
    exact S.
Defined.

Lemma mo1_comes_from_solve_mo1_witness :
  exists r, value (run (para mag None None None CphfNone) w0) = Ok r /\
    List.length (pick solve_call
                   (trace (run (para mag None None None CphfNone) w0))) = 1 /\
    List.length (pick einsum_call
                   (trace (run (para mag None None None CphfNone) w0))) = 6.
Proof.
  exists (mk_ref 37 [3; 3]).
  assert (E : value (run (para mag None None None CphfNone) w0)
              = Ok (mk_ref 37 [3; 3])) by (vm_compute; reflexivity).
  split; [exact E|].
  destruct (@mo1_comes_from_solve_mo1 QBase toy mag None None None CphfNone w0)
    as (_ & _ & H).
  destruct (H _ E) as (h1' & s1' & w1 & mo1 & mo_e1 & ea & eb & s1oa & s1ob
                       & Hs & He & _).
  rewrite Hs, He. split; reflexivity.
Defined.

Lemma first_order_matrices_in_mo_basis_witness :
  valid_scf (heap_of w0) (_scf mag) /\
  pick solve_call (trace (run (para mag None None None CphfNone) w0)) <> [].
Proof.
  split; [exact toy_scf_valid|].
  apply (proj1 (@first_order_matrices_in_mo_basis QBase toy toy_frame toy_valid
                  mag None None None CphfNone w0 toy_scf_valid I I))
    with (r := mk_ref 37 [3; 3]).
  vm_compute. reflexivity.
Defined.

Lemma uhf_reuses_rhf_and_nmr_witness :
  valid_scf (heap_of w0) (_scf mag) /\
  cls_getattr uhf_cls "kernel" = cls_getattr rhf_cls "kernel" /\
  exists r e1 wN dm0 w1,
    value (run (dia mag (Some origin)) w0) = Ok r /\
    pick neg_call (trace (run (dia mag (Some origin)) w0))
    = [(mk_ref (base e1) [3; 3], wN, Ok r)] /\
    dm0_of (heap_of w0) (_scf mag) = Ok (read (heap_of w1) dm0).
Proof.
  split; [exact toy_scf_valid|].
  destruct (@uhf_reuses_rhf_and_nmr QBase toy "pyscf.prop.magnetizability.uhf"
              rhf_cls mag (Some origin) w0)
    as (_ & _ & _ & _ & _ & Hk & Hv & Hd).
  split; [apply Hk; vm_compute; intuition discriminate|].
  assert (E : value (run (dia mag (Some origin)) w0) = Ok (mk_ref 19 [3; 3]))
    by (vm_compute; reflexivity).
  destruct (Hd _ E) as (dm0 & dme0 & w1 & w2 & e1 & wN & P & _ & Hn & _).
  destruct (Hv toy_scf_valid _ _ P)
    as (_ & dm0' & dme0' & w1' & r1 & Hc & D0 & _).
  exists (mk_ref 19 [3; 3]), e1, wN, dm0', w1'.
  split; [exact E|]. split; [exact Hn | exact D0].
Defined.


Lemma errors_propagate_witness :
  exists e pre ev,
    value (run (dia bad None) w0) = Raise e /\
    trace (run (dia bad None) w0) = pre ++ [ev] /\ ev_exn ev = Some e.
Proof.
  destruct (@errors_propagate QBase toy bad None None None CphfNone w0)
    as (_ & _ & [_ H] & _).
  assert (E : value (run (dia bad None) w0) = Raise IndexError)
    by (vm_compute; reflexivity).
  destruct (H _ E) as (pre & ev & Ht & Hev).
  exists IndexError, pre, ev. auto.
Defined.

Lemma with_cphf_is_overwritten_witness :
  map (fun c => sa_with_cphf (fst (fst c)))
      (pick solve_call (trace (run (para mag None None None CphfNone) w0)))
  = [CphfBool true] /\
  run (para mag None None None (CphfBool false)) w0
  = run (para mag None None None CphfNone) w0.
Proof.
  split; [vm_compute; reflexivity|].
  exact (proj1 (@with_cphf_is_overwritten QBase toy mag None None None
                  (CphfBool false) w0)).
Defined.

End ToyRuns.

(** ** Which routines [dia] and [para] call *)

Ltac avoids_tac :=
  repeat first
    [ apply avoids_ret
    | (apply avoids_op; [ reflexivity | intro ])
    | (apply avoids_ext; [ reflexivity | intro ]) ].

Section Calls.
Context {B : Base} {X : Externals}.

Lemma never_app (names : list string) (l1 l2 : list event) :
  never names l1 -> never names l2 -> never names (l1 ++ l2).
Proof. unfold never. intros. apply Forall_app. auto. Qed.

(** A program that avoids [names] never calls one of them, in any run. *)
Lemma avoids_sound (names : list string) A (p : prog A) :
  avoids names p -> forall w, never names (trace (run p w)).
Proof.
  induction 1 as [a | T c k Hc Hk IH | T c k Hc Hk IH]; intros w; simpl.
  - constructor.
  - destruct (do_op c (heap_of w)) as [h' [x|e]]; simpl.
    + constructor; [exact Hc | apply IH].
    + constructor; [exact Hc | constructor].
  - destruct (ext_handle c w) as [w' [x|e]]; simpl.
    + constructor; [exact Hc | apply IH].
    + constructor; [exact Hc | constructor].
Qed.

(** X8: a caller's [h1] is used as it is: [para] then makes no call of
    [magobj.get_fock] and of [log.timer], in any run.  A caller's [s1]
    is used as it is: [para] then makes no call of [magobj.get_ovlp].
    With both given, [para] makes no [lib.einsum] contraction and no
    matrix product at all. *)
Theorem para_does_not_recompute_given_matrices (m : MagObj) (g : option gauge)
    (a b : aref * aref) (h1 s1 : option (aref * aref)) (wc : cphf_arg)
    (w : world) :
  never ["magobj.get_fock"; "log.timer"]
        (trace (run (para m g (Some a) s1 wc) w)) /\
  never ["magobj.get_ovlp"] (trace (run (para m g h1 (Some b) wc) w)) /\
  never ["magobj.get_fock"; "log.timer"; "magobj.get_ovlp"; "lib.einsum";
         "numpy.dot"]
        (trace (run (para m g (Some a) (Some b) wc) w)).
Proof.
  split; [|split]; apply avoids_sound.
  - unfold para. destruct s1; expose; avoids_tac.
  - unfold para. destruct h1; expose; avoids_tac.
  - unfold para. expose. avoids_tac.
Qed.

End Calls.

(** ** The order of the calls into the environment *)

Section Order.
Context {B : Base} {X : Externals}.

Lemma prefix_nil (l : list string) : is_prefix [] l.
Proof. exists l. reflexivity. Qed.

Lemma prefix_cons (x : string) (l l' : list string) :
  is_prefix l l' -> is_prefix (x :: l) (x :: l').
Proof. intros [r E]. exists r. simpl. rewrite E. reflexivity. Qed.

Lemma prefix_refl (l : list string) : is_prefix l l.
Proof. exists []. rewrite app_nil_r. reflexivity. Qed.

Ltac prefix_tac :=
  cbn [trace after app pick ext_event_name ext_name dia_routines
       para_routines];
  repeat first [ apply prefix_nil | apply prefix_refl | apply prefix_cons ].

(** X6: in every run, the routines of the environment [dia] has called are an
    initial part of: [rhf_mag._get_dia_1e], then, without a gauge origin,
    [jk.get_jk] twice; [para]'s are an initial part of: [time.clock],
    [time.time], then [magobj.get_fock] and [log.timer] if [h1] is
    [None], then [magobj.get_ovlp] if [s1] is [None], then
    [uhf_nmr.solve_mo1] and [logger.timer].  A run that returns has made
    all of these calls. *)
Theorem routines_are_called_in_order (m : MagObj) (g : option gauge)
    (h1 s1 : option (aref * aref)) (wc : cphf_arg) (w : world) :
  let od := run (dia m g) w in
  let op := run (para m g h1 s1 wc) w in
  is_prefix (pick ext_event_name (trace od)) (dia_routines g) /\
  (forall r, value od = Ok r ->
     pick ext_event_name (trace od) = dia_routines g) /\
  is_prefix (pick ext_event_name (trace op)) (para_routines h1 s1) /\
  (forall r, value op = Ok r ->
     pick ext_event_name (trace op) = para_routines h1 s1).
Proof.
  cbv zeta. split; [|split; [|split]].
  - unfold dia. destruct g; expose;
      repeat (run_step; [ | prefix_tac ]); prefix_tac.
  - unfold dia. destruct g; expose;
      repeat (run_step; [ | discriminate ]); reflexivity.
  - unfold para. destruct h1, s1; expose;
      repeat (run_step; [ | prefix_tac ]); prefix_tac.
  - unfold para. destruct h1, s1; expose;
      repeat (run_step; [ | discriminate ]); reflexivity.
Qed.

(** X7: when [para] returns, it has read [time.clock] and [time.time] once
    each, before anything else.  With [h1] given, [log.timer] is not
    called and [logger.timer] is called with the label of the solver step
    and these two readings; with [h1] [None], [log.timer] is called on a
    logger made of the object's [stdout] and [verbose] with the label of
    the Fock step and these two readings, and [logger.timer] gets the two
    times [log.timer] returned. *)
Theorem para_threads_the_timer (m : MagObj) (g : option gauge)
    (h1 s1 : option (aref * aref)) (wc : cphf_arg) (w : world) :
  let o := run (para m g h1 s1 wc) w in
  (exists r tr, trace o = EvExt Clock w r :: tr) /\
  (forall r, value o = Ok r ->
     exists c0 c1 t,
       pick clock_reading (trace o)
       = [("time.clock", Ok c0); ("time.time", Ok c1)] /\
       match h1 with
       | Some _ =>
           pick log_timer_call (trace o) = [] /\
           pick logger_timer_call (trace o)
           = [(m, "solving mo1 eqn", c0, c1, Ok t)]
       | None =>
           exists t0,
             pick log_timer_call (trace o)
             = [(mk_logger (stdout m) (verbose m), "first order Fock matrix",
                 c0, c1, Ok t0)] /\
             pick logger_timer_call (trace o)
             = [(m, "solving mo1 eqn", fst t0, snd t0, Ok t)]
       end).
Proof.
  cbv zeta. split.
  - unfold para. destruct h1, s1; expose;
      (run_step; [ | do 2 eexists; reflexivity ]);
      do 2 eexists; reflexivity.
  - unfold para. destruct h1, s1; expose;
      repeat (run_step; [ | discriminate ]);
      intros r _; cbn;
      repeat match goal with
             | |- exists _, _ => eexists
             | |- _ /\ _ => split
             end; reflexivity.
Qed.

End Order.

(** ** The two-electron part of [dia] *)

Ltac ext_factsD E :=
  let Hu := fresh "Hu" in
  let Hl := fresh "Hl" in
  pose proof E as Hu; apply ext_frame in Hu; cbn [heap_of] in Hu;
  pose proof (proj1 Hu) as Hl;
  lazymatch type of E with
  | ext_handle (Rhf_get_dia_1e _ _ _ _) _ = _ =>
      let Hv := fresh "Hv" in
      let Hf := fresh "Hf" in
      pose proof E as Hv; apply dia_1e_valid in Hv; unfold valid in Hv;
      pose proof E as Hf; apply dia_1e_fresh in Hf; cbn [heap_of] in Hv, Hf
  | ext_handle (Jk_get_jk _ _ _ _ _ _ _) _ = _ =>
      let Hj := fresh "Hj" in
      pose proof E as Hj; apply jk_new in Hj; unfold valid in Hj;
      cbn [heap_of] in Hj
  | _ => idtac
  end.

Ltac run_stepD :=
  lazymatch goal with
  | |- context [run (OpCall ?c ?k) ?w] =>
      let h := fresh "h" in
      let x := fresh "x" in
      let e := fresh "e" in
      let E := fresh "E" in
      pattern (run (OpCall c k) w);
      apply run_op_case; [ intros h x E | intros h e E ];
      cbv beta; cbn [heap_of hidden_of] in E |- *
  | |- context [run (ExtCall ?c ?k) ?w] =>
      let w' := fresh "w" in
      let x := fresh "x" in
      let e := fresh "e" in
      let E := fresh "E" in
      pattern (run (ExtCall c k) w);
      apply run_ext_case; [ intros w' x E; ext_factsD E | intros w' e E ];
      cbv beta; cbn [heap_of hidden_of] in E |- *
  end.

(** What is known of an element of a list picked by its index. *)
Ltac nth_facts :=
  repeat match goal with
         | R : nth_error ?l _ = Some ?a, Hj : Forall _ ?l |- _ =>
             lazymatch goal with
             | _ : List.length _ <= base a |- _ => fail
             | _ =>
                 let Hn := fresh "Hn" in
                 let Hv := fresh "Hv" in
                 destruct (proj1 (Forall_forall _ _) Hj a (nth_error_In _ _ R))
                   as [Hn Hv]
             end
         end.

Section DiaValue.
Context {B : Base} {X : Externals} {FC : FrameContract} {DC : DiaContract}.
Import Numpy.

Lemma densities_full_spec (mf : SCF) (w : world) (t : aref * aref * aref * aref) :
  valid_scf (heap_of w) mf ->
  let o := run (dia_densities mf) w in
  let h := heap_of w in
  let hd := heap_of (final o) in
  value o = Ok t ->
  let dm0a := fst (fst (fst t)) in
  let dm0b := snd (fst (fst t)) in
  let dm0 := snd (fst t) in
  let dme0 := snd t in
  valid hd dm0a /\ valid hd dm0b /\ valid hd dm0 /\ valid hd dme0 /\
  density (read h (fst (mo_coeff mf))) (read h (fst (mo_occ mf)))
  = Ok (read hd dm0a) /\
  density (read h (snd (mo_coeff mf))) (read h (snd (mo_occ mf)))
  = Ok (read hd dm0b) /\
  add (read hd dm0a) (read hd dm0b) = Ok (read hd dm0) /\
  pick jk_full_call (trace o) = [] /\
  pick dia_1e_call (trace o) = [].
Proof.
  intros (Ve & Vc & Vo). destruct Ve as [Ve1 Ve2], Vc as [Vc1 Vc2], Vo as [Vo1 Vo2].
  unfold valid in *. cbv zeta.
  unfold dia_densities. expose. repeat (run_step; [ | discriminate ]).
  cbn [run value final after trace heap_of app].
  intros Ht. inversion Ht; subst t; clear Ht. cbn [fst snd].
  inv_ops. norm_all.
  unfold density, occupied. use_eqs.
  repeat split; try len_tac; reflexivity.
Qed.

End DiaValue.

Section DiaTerms.
Context {B : Base} {X : Externals} {FC : FrameContract} {DC : DiaContract}.
Import Numpy.

Lemma firstn5 A (l : list A) (a0 a1 a2 a3 a4 : A) :
  nth_error l 0 = Some a0 -> nth_error l 1 = Some a1 ->
  nth_error l 2 = Some a2 -> nth_error l 3 = Some a3 ->
  nth_error l 4 = Some a4 -> firstn 5 l = [a0; a1; a2; a3; a4].
Proof.
  destruct l as [|x0 [|x1 [|x2 [|x3 [|x4 l]]]]]; simpl; intros; congruence.
Qed.

Lemma firstn2 A (l : list A) (a0 a1 : A) :
  nth_error l 0 = Some a0 -> nth_error l 1 = Some a1 ->
  firstn 2 l = [a0; a1].
Proof.
  destruct l as [|x0 [|x1 l]]; simpl; intros; congruence.
Qed.

Lemma dia_terms_spec (m : MagObj) (dm0a dm0b dm0 dme0 : aref) (w : world)
    (r : aref) :
  valid (heap_of w) dm0a -> valid (heap_of w) dm0b -> valid (heap_of w) dm0 ->
  let o := run (dia_terms m None dm0a dm0b dm0 dme0) w in
  let hf := heap_of (final o) in
  value o = Ok r ->
  exists w2 e1 wJ vs wK vk vs0 vs1 vs2 vs3 vs4 vk0 vk1 E,
    pick dia_1e_call (trace o) = [(m, None, dm0, dme0, w, Ok e1)] /\
    ext_handle (Rhf_get_dia_1e m None dm0 dme0) w = (w2, Ok e1) /\
    pick jk_full_call (trace o)
    = [(mk_jk (mol m) [dm0; dm0a; dm0a; dm0b; dm0b]
              ["ijkl,ji->s2kl"; "ijkl,jk->s1il"; "ijkl,li->s1kj";
               "ijkl,jk->s1il"; "ijkl,li->s1kj"] "int2e_gg1" "s4" 9 1,
        wJ, Ok vs);
       (mk_jk (mol m) [dm0a; dm0b] ["ijkl,jk->s1il"; "ijkl,jk->s1il"]
              "int2e_g1g2" "aa4" 9 0, wK, Ok vk)] /\
    firstn 5 vs = [vs0; vs1; vs2; vs3; vs4] /\
    firstn 2 vk = [vk0; vk1] /\
    dia_two_electron (read (heap_of w2) e1)
      (read hf vs0) (read hf vs1) (read hf vs2) (read hf vs3) (read hf vs4)
      (read hf vk0) (read hf vk1)
      (read hf dm0) (read hf dm0a) (read hf dm0b) = Ok E /\
    read hf r = neg (mk_nd [3; 3] (data E)) /\
    read hf dm0 = read (heap_of w) dm0 /\
    read hf dm0a = read (heap_of w) dm0a /\
    read hf dm0b = read (heap_of w) dm0b.
Proof.
  unfold valid. intros Va Vb V0. cbv zeta.
  unfold dia_terms. expose. repeat (run_stepD; [ | discriminate ]).
  cbn [run value final after trace heap_of app].
  intros Hr. inversion Hr; subst r; clear Hr.
  inv_ops. nth_facts.
  norm_all.
  exists w0, x. eexists. exists x1. eexists. exists x21.
  exists x2, x5, x9, x13, x17, x22, x25. eexists.
  split; [reflexivity|]. split; [exact E|]. split; [reflexivity|].
  split; [apply firstn5; assumption|].
  split; [apply firstn2; assumption|].
  cbn [heap_of].
  split; [|split; [|repeat split; norm_reads; reflexivity]].
  - unfold dia_two_electron, iadd_value, isub_value. norm_reads.
    unfold read in *. cbn [base ashape shape data] in *.
    use_eqs. reflexivity.
  - norm_reads. reflexivity.
Qed.


(** X1: without a gauge origin, when the arrays of the SCF object are in the
    store, the routines of the environment leave existing buffers alone,
    [rhf_mag._get_dia_1e] returns a new array that is in the store and
    [jk.get_jk] returns new arrays that are in the store: a call of [dia]
    that returns has called [jk.get_jk] exactly twice, for [int2e_gg1]
    ([s4], 9 components, [hermi=1]) on [dm0, dm0a, dm0a, dm0b, dm0b] and
    for [int2e_g1g2] ([aa4], 9 components, [hermi=0]) on [dm0a, dm0b],
    where [dm0a] and [dm0b] hold the density matrices of the two spins and
    [dm0], the array handed to [rhf_mag._get_dia_1e], their sum; the
    tensor returned holds the negated elements of
    [e1 + J0 - J1/2 - J2/2 - J3/2 - J4/2 - K0 - K1], [e1] being what
    [rhf_mag._get_dia_1e] returned and each term the contraction
    ['xpq,qp->x'] of one array of [jk.get_jk] with its density matrix. *)
Theorem dia_adds_the_two_electron_terms (m : MagObj) (w : world) (r : aref) :
  valid_scf (heap_of w) (_scf m) ->
  let o := run (dia m None) w in
  let h0 := heap_of w in
  let hf := heap_of (final o) in
  let mf := _scf m in
  value o = Ok r ->
  exists dm0 dme0 dm0a dm0b w1 w2 e1 wJ vs wK vk,
  exists vs0 vs1 vs2 vs3 vs4 vk0 vk1 E,
    pick dia_1e_call (trace o) = [(m, None, dm0, dme0, w1, Ok e1)] /\
    ext_handle (Rhf_get_dia_1e m None dm0 dme0) w1 = (w2, Ok e1) /\
    pick jk_full_call (trace o)
    = [(mk_jk (mol m) [dm0; dm0a; dm0a; dm0b; dm0b]
              ["ijkl,ji->s2kl"; "ijkl,jk->s1il"; "ijkl,li->s1kj";
               "ijkl,jk->s1il"; "ijkl,li->s1kj"] "int2e_gg1" "s4" 9 1,
        wJ, Ok vs);
       (mk_jk (mol m) [dm0a; dm0b] ["ijkl,jk->s1il"; "ijkl,jk->s1il"]
              "int2e_g1g2" "aa4" 9 0, wK, Ok vk)] /\
    firstn 5 vs = [vs0; vs1; vs2; vs3; vs4] /\
    firstn 2 vk = [vk0; vk1] /\
    density (read h0 (fst (mo_coeff mf))) (read h0 (fst (mo_occ mf)))
    = Ok (read hf dm0a) /\
    density (read h0 (snd (mo_coeff mf))) (read h0 (snd (mo_occ mf)))
    = Ok (read hf dm0b) /\
    add (read hf dm0a) (read hf dm0b) = Ok (read hf dm0) /\
    dia_two_electron (read (heap_of w2) e1)
      (read hf vs0) (read hf vs1) (read hf vs2) (read hf vs3) (read hf vs4)
      (read hf vk0) (read hf vk1)
      (read hf dm0) (read hf dm0a) (read hf dm0b) = Ok E /\
    read hf r = neg (mk_nd [3; 3] (data E)).
Proof.
  intros V. cbv zeta.
  rewrite dia_blocks, run_bind by (unfold dia_densities; plain_tac).
  destruct (value (run (dia_densities (_scf m)) w)) as [t|e] eqn:Ht;
    [|discriminate].
  destruct (@densities_full_spec _ _ _ w _ V Ht)
    as (Va & Vb & V0 & _ & Da & Db & Dab & Pj & Pd).
  set (w1 := final (run (dia_densities (_scf m)) w)) in *.
  cbn [trace value final after]. intros Hr.
  destruct (@dia_terms_spec m _ _ _ (snd t) w1 r Va Vb V0 Hr)
    as (w2 & e1 & wJ & vs & wK & vk & vs0 & vs1 & vs2 & vs3 & vs4 & vk0 & vk1
        & E & P1 & HE & P2 & F5 & F2 & HV & HR & U0 & Ua & Ub).
  exists (snd (fst t)), (snd t), (fst (fst (fst t))), (snd (fst (fst t))).
  exists w1, w2, e1, wJ, vs, wK, vk, vs0, vs1, vs2, vs3, vs4, vk0, vk1, E.
  rewrite !pick_app, Pj, Pd, P1, P2. cbn [app].
  rewrite Ua, Ub, U0 in *.
  repeat split; auto.
Qed.

End DiaTerms.

(** ** Failures of [dia] and [para] *)

Section Failures.
Context {B : Base} {X : Externals}.
Import Numpy.

(** X4: with a gauge origin, once [rhf_mag._get_dia_1e] has returned an array
    [e1], the outcome of [dia] is decided by the number of elements of
    [e1]: with nine, [dia] returns a 3 x 3 array; otherwise the reshape to
    [(3, 3)] fails, [dia] raises [ValueError] and the store is as
    [rhf_mag._get_dia_1e] left it. *)
Theorem dia_needs_nine_components (m : MagObj) (g : gauge) (w : world)
    (dm0 dme0 e1 : aref) (w1 : world) :
  let o := run (dia m (Some g)) w in
  pick dia_1e_call (trace o) = [(m, Some g, dm0, dme0, w1, Ok e1)] ->
  (size (ashape e1) = 9 -> exists r, value o = Ok r /\ ashape r = [3; 3]) /\
  (size (ashape e1) <> 9 ->
     value o = Raise ValueError /\
     final o = fst (ext_handle (Rhf_get_dia_1e m (Some g) dm0 dme0) w1)).
Proof.
  cbv zeta. unfold dia. expose.
  repeat (run_step; [ | try discriminate ]).
  all: cbn [trace after app pick dia_1e_call value final];
    intros P; inversion P; subst; clear P.
  all: repeat match goal with
              | E : do_op ?c _ = (_, Ok _) |- _ =>
                  lazymatch c with
                  | Ravel _ => inv_op E
                  | Reshape _ _ => inv_op E
                  | Neg _ => inv_op E
                  | _ => clear E
                  end
              end.
  all: try match goal with
           | E : do_op (Neg _) _ = (_, Raise _) |- _ =>
               simpl in E; discriminate E
           | E : do_op (Ravel _) _ = (_, Raise _) |- _ =>
               cbn [do_op] in E; discriminate E
           end.
  - (* the reshape returned *)
    cbn [ashape size fold_right] in *.
    match goal with R : Nat.eqb _ _ = true |- _ => apply Nat.eqb_eq in R end.
    split.
    + intros _. eexists. split; [reflexivity|].
      match goal with R : Ok _ = Ok _ |- _ => apply ok_inj in R; subst end.
      reflexivity.
    + intros N. exfalso. apply N. lia.
  - (* the reshape failed *)
    match goal with
    | E : do_op (Reshape _ _) _ = _ |- _ =>
        cbn [do_op ashape size fold_right] in E;
        match type of E with
        | context [if ?b then _ else _] => destruct b eqn:Q
        end;
        [discriminate E|]; inversion E; subst; clear E
    end.
    apply Nat.eqb_neq in Q. split.
    + intros S. exfalso. apply Q. lia.
    + intros _. split; [reflexivity|].
      match goal with
      | E : ext_handle _ _ = _ |- _ => rewrite E
      end.
      cbn [fst]. match goal with |- _ = ?b => destruct b end. reflexivity.
Qed.


End Failures.

(** ** Shapes: when the numpy calls return *)

(** [einsum_returns] evaluates the parsing and the binding of the axes of
    an [einsum] whose operands have known shapes. *)
Ltac einsum_returns :=
  unfold Numpy.einsum;
  match goal with
  | |- context [Numpy.parse_spec ?s] =>
      let v := eval vm_compute in (Numpy.parse_spec s) in
      change (Numpy.parse_spec s) with v
  end;
  cbv beta iota;
  repeat (cbn [Numpy.bind_operands Numpy.bind_axes Numpy.shape Numpy.lookup
               Ascii.eqb Bool.eqb app];
          rewrite ?Nat.eqb_refl);
  cbn - [Numpy.assignments Numpy.term Numpy.sum seq];
  eexists; split; reflexivity.

Section NumpyReturns.
Context {B : Base}.
Import Numpy.

Lemma take1_returns (a : ndarray) (m : mask) (n k : nat) :
  shape a = [n; k] -> mshape m = [k] ->
  exists v, take1 a m = Ok v /\ shape v = [n; count m].
Proof.
  intros Ha Hm. unfold take1. rewrite Ha, Hm, Nat.eqb_refl.
  eexists. split; reflexivity.
Qed.

Lemma take1_returns3 (a : ndarray) (m : mask) (x k j : nat) :
  shape a = [x; k; j] -> mshape m = [k] ->
  exists v, take1 a m = Ok v /\ shape v = [x; count m; j].
Proof.
  intros Ha Hm. unfold take1. rewrite Ha, Hm, Nat.eqb_refl.
  eexists. split; reflexivity.
Qed.

Lemma take0_returns (a : ndarray) (m : mask) (k : nat) :
  shape a = [k] -> mshape m = [k] ->
  exists v, take0 a m = Ok v /\ shape v = [count m].
Proof.
  intros Ha Hm. unfold take0. rewrite Ha, Hm, Nat.eqb_refl.
  eexists. split; reflexivity.
Qed.

Lemma dot_T_returns (a b : ndarray) (n m k : nat) :
  shape a = [n; k] -> shape b = [m; k] ->
  exists v, dot_T a b = Ok v /\ shape v = [n; m].
Proof.
  intros Ha Hb. unfold dot_T. rewrite Ha, Hb, Nat.eqb_refl.
  eexists. split; reflexivity.
Qed.

Lemma add_returns (a b : ndarray) (s : list nat) :
  shape a = s -> shape b = s ->
  exists v, add a b = Ok v /\ shape v = s.
Proof.
  intros Ha Hb. unfold add, broadcast2. rewrite Ha, Hb, is_suffix_refl.
  eexists. split; reflexivity.
Qed.

Lemma mul_returns (a b : ndarray) (n j : nat) :
  shape a = [n; j] -> shape b = [j] ->
  exists v, mul a b = Ok v /\ shape v = [n; j].
Proof.
  intros Ha Hb. unfold mul, broadcast2. rewrite Ha, Hb.
  cbn [is_suffix list_eqb]. rewrite Nat.eqb_refl.
  cbn. rewrite ?orb_true_r. eexists. split; reflexivity.
Qed.

Lemma inplace_returns (f : C -> C -> C) (a b : ndarray) (s : list nat) :
  shape a = s -> shape b = s -> exists d, inplace f a b = Ok d.
Proof.
  intros Ha Hb. unfold inplace. rewrite Ha, Hb, is_suffix_refl.
  eexists. reflexivity.
Qed.

Lemma einsum_xpq_qp_returns (a b : ndarray) (x p q : nat) :
  shape a = [x; p; q] -> shape b = [q; p] ->
  exists v, einsum "xpq,qp->x" [a; b] = Ok v /\ shape v = [x].
Proof.
  destruct a as [sa da], b as [sb db]. cbn [shape]. intros -> ->.
  einsum_returns.
Qed.

Lemma einsum_yji_xji_returns (a b : ndarray) (x y j i : nat) :
  shape a = [y; j; i] -> shape b = [x; j; i] ->
  exists v, einsum "yji,xji->xy" [a; b] = Ok v /\ shape v = [x; y].
Proof.
  destruct a as [sa da], b as [sb db]. cbn [shape]. intros -> ->.
  einsum_returns.
Qed.

Lemma einsum_yji_xji_i_returns (a b c : ndarray) (x y j i : nat) :
  shape a = [y; j; i] -> shape b = [x; j; i] -> shape c = [i] ->
  exists v, einsum "yji,xji,i->xy" [a; b; c] = Ok v /\ shape v = [x; y].
Proof.
  destruct a as [sa da], b as [sb db], c as [sc dc]. cbn [shape].
  intros -> -> ->. einsum_returns.
Qed.

Lemma einsum_xij_yij_returns (a b : ndarray) (x y j i : nat) :
  shape a = [x; i; j] -> shape b = [y; i; j] ->
  exists v, einsum "xij,yij->xy" [a; b] = Ok v /\ shape v = [x; y].
Proof.
  destruct a as [sa da], b as [sb db]. cbn [shape]. intros -> ->.
  einsum_returns.
Qed.

Lemma einsum_xpq_pi_qj_returns (M A O : ndarray) (x p q i j : nat) :
  shape M = [x; p; q] -> shape A = [p; i] -> shape O = [q; j] ->
  exists v, einsum "xpq,pi,qj->xij" [M; A; O] = Ok v /\ shape v = [x; i; j].
Proof.
  destruct M as [sa da], A as [sb db], O as [sc dc]. cbn [shape].
  intros -> -> ->. einsum_returns.
Qed.

End NumpyReturns.

(** ** Runs that do not fail *)

Ltac shape_tac :=
  cbn [read Numpy.shape ashape Numpy.mshape Numpy.gt0 Numpy.mul_half
       Numpy.neg Numpy.conj fst snd];
  first [ eassumption | reflexivity ].

(** [sure_op L]: the next call is a numpy call that allocates its result;
    [L] says that it returns and what the shape of the result is. *)
Ltac sure_op L :=
  let v := fresh "v" in
  let Hv := fresh "Hv" in
  let Sv := fresh "Sv" in
  edestruct L as (v & Hv & Sv); [ shape_tac .. | ];
  cbn [heap_of] in Hv;
  run_step;
  match goal with
  | E : do_op _ _ = _ |- _ =>
      cbn [do_op heap_of map] in E; rewrite Hv in E; cbn [fresh alloc] in E;
      inversion E; subst; clear E
  end;
  cbn [value after];
  clear Hv; norm_reads_in Sv.

Ltac sure_inplace L :=
  let d := fresh "d" in
  let Hd := fresh "Hd" in
  edestruct L as (d & Hd); [ shape_tac .. | ];
  cbn [heap_of] in Hd;
  run_step;
  match goal with
  | E : do_op _ _ = _ |- _ =>
      cbn [do_op heap_of] in E; rewrite Hd in E; cbn [store] in E;
      inversion E; subst; clear E
  end;
  cbn [value after];
  clear Hd.

Ltac sure_plain :=
  run_step;
  match goal with
  | E : do_op _ _ = _ |- _ =>
      cbn [do_op fresh alloc nth_error] in E; inversion E; subst; clear E
  end;
  cbn [value after].

Ltac sure_step :=
  lazymatch goal with
  | |- context [run (OpCall ?c ?k) ?w] =>
      lazymatch c with
      | Gt0 _ => sure_plain
      | MulHalf _ => sure_plain
      | Neg _ => sure_plain
      | Conj _ => sure_plain
      | Ravel _ => sure_plain
      | Index _ _ => sure_plain
      | Take0 ?a ?m => sure_op (@take0_returns _ (read (heap_of w) a) m)
      | Take1 ?a ?m =>
          first [ sure_op (@take1_returns _ (read (heap_of w) a) m)
                | sure_op (@take1_returns3 _ (read (heap_of w) a) m) ]
      | DotT ?a ?b =>
          sure_op (@dot_T_returns _ (read (heap_of w) a) (read (heap_of w) b))
      | Add ?a ?b =>
          sure_op (@add_returns _ (read (heap_of w) a) (read (heap_of w) b))
      | Mul ?a ?b =>
          sure_op (@mul_returns _ (read (heap_of w) a) (read (heap_of w) b))
      | IAdd ?a ?b =>
          sure_inplace (@inplace_returns _ cadd (read (heap_of w) a)
                          (read (heap_of w) b))
      | ISub ?a ?b =>
          sure_inplace (@inplace_returns _ csub (read (heap_of w) a)
                          (read (heap_of w) b))
      | Einsum "xpq,qp->x" [?a; ?b] =>
          sure_op (@einsum_xpq_qp_returns _ (read (heap_of w) a)
                     (read (heap_of w) b))
      | Einsum "yji,xji->xy" [?a; ?b] =>
          sure_op (@einsum_yji_xji_returns _ (read (heap_of w) a)
                     (read (heap_of w) b))
      | Einsum "yji,xji,i->xy" [?a; ?b; ?c] =>
          sure_op (@einsum_yji_xji_i_returns _ (read (heap_of w) a)
                     (read (heap_of w) b) (read (heap_of w) c))
      | Einsum "xij,yij->xy" [?a; ?b] =>
          sure_op (@einsum_xij_yij_returns _ (read (heap_of w) a)
                     (read (heap_of w) b))
      | LibEinsum "xpq,pi,qj->xij" [?a; ?b; ?c] =>
          sure_op (@einsum_xpq_pi_qj_returns _ (read (heap_of w) a)
                     (read (heap_of w) b) (read (heap_of w) c))
      end
  end.

Ltac frame_facts Hx :=
  try (let Hu := fresh "Hu" in
       let Hl := fresh "Hl" in
       pose proof Hx as Hu; apply ext_frame in Hu; cbn [heap_of] in Hu;
       pose proof (proj1 Hu) as Hl;
       repeat (rewrite length_app in Hl || rewrite write_length in Hl);
       cbn [List.length] in Hl).

(** [sure_ext L]: the next call is a call of the environment; [L] says
    that it returns, and what it returns. *)
Ltac sure_ext L :=
  let w' := fresh "w" in
  let x := fresh "x" in
  let Hx := fresh "Hx" in
  let F := fresh "F" in
  edestruct L as (w' & x & Hx & F);
  [ try shape_tac .. | ];
  run_step;
  match goal with
  | E : ext_handle _ _ = _ |- _ =>
      rewrite Hx in E; inversion E; subst; clear E
  end;
  cbn [value after];
  frame_facts Hx; clear Hx;
  repeat match goal with
         | H : _ /\ _ |- _ => destruct H
         end.

Ltac sure_timer :=
  lazymatch goal with
  | |- context [run (ExtCall ?c ?k) ?w] =>
      let w' := fresh "w" in
      let x := fresh "x" in
      let Hx := fresh "Hx" in
      edestruct (@timers_return _ _ _ _ c w eq_refl) as (w' & x & Hx);
      run_step;
      match goal with
      | E : ext_handle _ _ = _ |- _ =>
          rewrite Hx in E; inversion E; subst; clear E
      end;
      cbn [value after];
      frame_facts Hx; clear Hx
  end.

Ltac sure_call :=
  lazymatch goal with
  | |- context [run (ExtCall ?c ?k) ?w] =>
      lazymatch c with
      | Rhf_get_dia_1e ?m ?g ?a ?b =>
          sure_ext (@dia_1e_returns _ _ _ m g a b w)
      | Jk_get_jk ?mo ?dms ?scr ?intor ?aosym ?comp ?hermi =>
          let w' := fresh "w" in
          let vs := fresh "vs" in
          let Hx := fresh "Hx" in
          let L := fresh "L" in
          let F := fresh "F" in
          edestruct (@jk_returns _ _ _ mo dms scr intor aosym comp hermi w)
            as (w' & vs & Hx & L & F);
          [ repeat constructor; shape_tac | ];
          run_step;
          match goal with
          | E : ext_handle _ _ = _ |- _ =>
              rewrite Hx in E; inversion E; subst; clear E
          end;
          cbn [value after];
          frame_facts Hx; clear Hx
      | Get_fock ?m ?dm0 ?g => sure_ext (@fock_returns _ _ _ m dm0 g w)
      | Get_ovlp ?m ?mo ?g => sure_ext (@ovlp_returns _ _ _ m mo g w)
      | Solve_mo1 ?m ?e ?co ?oc ?h1 ?s1 ?wc =>
          sure_ext (@solve_returns _ _ _ m e co oc h1 s1 wc w)
      | _ => sure_timer
      end
  end.

(** The reshape to [(3, 3)] of an array of nine elements. *)
Ltac sure_reshape F :=
  run_step;
  match goal with
  | E : do_op (Reshape _ _) _ = _ |- _ =>
      cbn [do_op ashape Numpy.size fold_right] in E;
      change (Nat.eqb (3 * (3 * 1)) (9 * 1)) with true in E;
      inversion E; subst; clear E
  end;
  cbn [value after].

(** The results of [jk.get_jk], one by one. *)
Ltac open_results L F :=
  repeat (let a := fresh "a" in destruct L as [|a L]; try discriminate);
  repeat match goal with
         | H : Forall _ (_ :: _) |- _ => inversion H; subst; clear H
         end.

Section Returns.
Context {B : Base} {X : Externals} {SC : ShapeContract}.
Import Numpy.

(** X2: when the routines of the environment return arrays of the shapes
    [dia] relies on, [dia] returns: on an SCF object whose arrays are in
    the store, with coefficients [(nao, nmo)] and energies and occupations
    [(nmo,)] for each spin, a call of [dia], with or without a gauge
    origin, does not fail and returns a 3 x 3 array. *)
Theorem dia_returns_on_expected_shapes (m : MagObj) (g : option gauge)
    (w : world) (nao nmo_a nmo_b : nat) :
  valid_scf (heap_of w) (_scf m) ->
  scf_shaped (_scf m) nao nmo_a nmo_b ->
  exists r, value (run (dia m g) w) = Ok r /\ ashape r = [3; 3].
Proof.
  intros (Ve & Vc & Vo) ((Sca & Soa & Sea) & (Scb & Sob & Seb)).
  destruct Ve as [Ve1 Ve2], Vc as [Vc1 Vc2], Vo as [Vo1 Vo2].
  unfold valid in *.
  unfold dia. destruct g as [g|]; expose.
  - do 16 sure_step. sure_call. sure_step. rewrite F.
    sure_reshape F. sure_step.
    cbn [value after]. eexists. split; reflexivity.
  - do 16 sure_step. sure_call. sure_step. rewrite F.
    sure_call.
    match goal with
    | L : List.length ?vs = _, H : Forall _ ?vs |- _ => open_results vs H
    end.
    repeat sure_step.
    sure_call.
    match goal with
    | L : List.length ?vs = _, H : Forall _ ?vs |- _ => open_results vs H
    end.
    repeat sure_step.
    sure_reshape F. sure_step.
    cbn [value after]. eexists. split; reflexivity.
Qed.

End Returns.

Section ParaReturns.
Context {B : Base} {X : Externals} {FC : FrameContract} {SC : ShapeContract}.
Import Numpy.

(** X3: when the routines of the environment leave existing buffers alone and
    return arrays of the shapes [para] relies on, [para] returns: on an
    SCF object whose arrays are in the store, with coefficients
    [(nao, nmo)] and energies and occupations [(nmo,)] for each spin, and
    with [h1] and [s1] either [None] or of the documented shapes
    [[(3,nmo_a,nocc_a), (3,nmo_b,nocc_b)]], a call of [para] does not fail
    and returns a 3 x 3 array.  All arrays have the one type of scalars of
    the model: the statement is about calls in which the arrays of the SCF
    object, [h1], [s1] and the arrays the routines return are of one and
    the same dtype, so that no in-place update needs a cast. *)
Theorem para_returns_on_documented_shapes (m : MagObj) (g : option gauge)
    (h1 s1 : option (aref * aref)) (wc : cphf_arg) (w : world)
    (nao nmo_a nmo_b : nat) :
  valid_scf (heap_of w) (_scf m) ->
  scf_shaped (_scf m) nao nmo_a nmo_b ->
  mo_shaped (heap_of w) (_scf m) nmo_a nmo_b h1 ->
  mo_shaped (heap_of w) (_scf m) nmo_a nmo_b s1 ->
  exists r, value (run (para m g h1 s1 wc) w) = Ok r /\ ashape r = [3; 3].
Proof.
  intros (Ve & Vc & Vo) ((Sca & Soa & Sea) & (Scb & Sob & Seb)) M1 M2.
  destruct Ve as [Ve1 Ve2], Vc as [Vc1 Vc2], Vo as [Vo1 Vo2].
  unfold valid in *.
  unfold para.
  destruct h1 as [p1|], s1 as [p2|]; unfold mo_shaped, nocc in M1, M2;
    repeat match goal with
           | H : _ /\ _ |- _ => destruct H
           end;
    expose;
    repeat first [ sure_step | sure_call ];
    cbn [value after]; eexists; (split; [reflexivity|]);
    cbn [ashape]; assumption.
Qed.

End ParaReturns.

(** ** The toy environment meets the contracts of the runs that return *)

Section ToyShapes.
Import Numpy Toy.

Lemma alloc_all_refs (shapes : list (list nat)) (h : heap) :
  map ashape (snd (alloc_all h shapes)) = shapes /\
  Forall (fun a => List.length h <= base a /\
                   base a < List.length (fst (alloc_all h shapes)))
         (snd (alloc_all h shapes)).
Proof.
  revert h. induction shapes as [|sh rest IH]; intro h; cbn [alloc_all].
  - split; constructor.
  - unfold alloc. cbn [data shape fst snd].
    match goal with
    | |- context [alloc_all ?x rest] =>
        destruct (IH x) as [IHs IHf];
        pose proof (alloc_all_heap rest x) as IHh;
        destruct (alloc_all x rest) as [h2 l]
    end.
    cbn [fst snd map ashape] in *. split; [rewrite IHs; reflexivity|].
    constructor.
    + cbn [base]. subst h2. rewrite !length_app. cbn [List.length]. lia.
    + eapply Forall_impl; [|exact IHf].
      intros a [Ha Hb]. rewrite length_app in Ha. cbn [List.length] in Ha. lia.
Qed.

Lemma toy_dia : @DiaContract QBase toy.
Proof.
  split.
  - intros m g dm0 dme0 w w' e1 E. cbn in E. inversion E. subst.
    unfold valid. simpl. rewrite length_app. simpl. lia.
  - intros mo dms scr intor aosym comp hermi w w' vs E.
    cbn [ext_handle toy toy_handle] in E.
    match type of E with
    | context [alloc_all ?h ?l] =>
        destruct (alloc_all_refs l h) as [_ Hf];
        destruct (alloc_all h l) as [h' l']
    end.
    inversion E; subst. cbn [fst snd heap_of] in *.
    eapply Forall_impl; [|exact Hf]. intros a [Ha Hb]. split; assumption.
Qed.

Lemma toy_shapes : @ShapeContract QBase toy.
Proof.
  split.
  - intros T c w Ht. destruct c; try discriminate Ht; cbn;
      do 2 eexists; reflexivity.
  - intros m g dm0 dme0 w n _ _. cbn. do 2 eexists. split; reflexivity.
  - intros mo dms scr intor aosym comp hermi w n Hd.
    cbn [ext_handle toy toy_handle].
    match goal with
    | |- context [alloc_all ?h ?l] =>
        destruct (alloc_all_refs l h) as [Hs _];
        destruct (alloc_all h l) as [h' l']
    end.
    cbn [snd] in Hs. do 2 eexists. split; [reflexivity|]. split.
    + rewrite <- (length_map ashape l'), Hs, length_map. reflexivity.
    + apply Forall_forall. intros a Ha.
      apply (in_map ashape) in Ha. rewrite Hs in Ha.
      apply in_map_iff in Ha. destruct Ha as (d & Ed & Hin).
      rewrite <- Ed. rewrite (proj1 (Forall_forall _ _) Hd d Hin). reflexivity.
  - intros m dm0 g w n Ha Hb. cbn. rewrite Ha, Hb.
    do 2 eexists. split; [reflexivity|]. split; reflexivity.
  - intros m mo g w n k Hc. cbn. unfold nao_of. rewrite Hc.
    do 2 eexists. split; reflexivity.
  - intros m e co oc h1 s1 wc w ka ja kb jb Ha Hb _ _. cbn. rewrite Ha, Hb.
    do 2 eexists. split; [reflexivity|]. repeat split.
Qed.

Lemma toy_scf_shaped : scf_shaped (_scf mag) 2 2 2.
Proof. repeat split. Qed.

End ToyShapes.

(** ** The further theorems at work on the toy environments *)

Section ToyRuns2.
Import Numpy Toy ToyShort.

Lemma dia_adds_the_two_electron_terms_witness :
  valid_scf (heap_of w0) (_scf mag) /\
  exists E : ndarray,
    read (heap_of (final (run (dia mag None) w0))) (mk_ref 37 [3; 3])
    = neg (mk_nd [3; 3] (data E)).
Proof.
  split; [exact toy_scf_valid|].
  assert (E0 : value (run (dia mag None) w0) = Ok (mk_ref 37 [3; 3]))
    by (vm_compute; reflexivity).
  destruct (@dia_adds_the_two_electron_terms QBase toy toy_frame toy_dia
              mag w0 (mk_ref 37 [3; 3]) toy_scf_valid E0)
    as (dm0 & dme0 & dm0a & dm0b & w1 & w2 & e1 & wJ & vs & wK & vk
        & vs0 & vs1 & vs2 & vs3 & vs4 & vk0 & vk1 & E
        & _ & _ & _ & _ & _ & _ & _ & _ & _ & HR).
  exists E. exact HR.
Defined.

Lemma dia_needs_nine_components_witness :
  (exists r, value (run (X:=toy) (dia mag (Some origin)) w0) = Ok r /\
             ashape r = [3; 3]) /\
  value (run (X:=short) (dia mag (Some origin)) w0) = Raise ValueError.
Proof.
  split.
  - assert (P : pick dia_1e_call (trace (run (X:=toy) (dia mag (Some origin)) w0))
                = toy_dia_1e_calls) by (vm_compute; reflexivity).
    unfold toy_dia_1e_calls in P.
    edestruct (@dia_needs_nine_components QBase toy mag origin w0) as [H9 _];
      [exact P|].
    apply H9. reflexivity.
  - assert (P : pick dia_1e_call (trace (run (X:=short) (dia mag (Some origin)) w0))
                = short_dia_1e_calls) by (vm_compute; reflexivity).
    unfold short_dia_1e_calls in P.
    edestruct (@dia_needs_nine_components QBase short mag origin w0) as [_ Hn];
      [exact P|].
    apply Hn. vm_compute. discriminate.
Defined.

Lemma dia_returns_on_expected_shapes_witness :
  valid_scf (heap_of w0) (_scf mag) /\ scf_shaped (_scf mag) 2 2 2 /\
  exists r, value (run (dia mag None) w0) = Ok r /\ ashape r = [3; 3].
Proof.
  split; [exact toy_scf_valid|]. split; [exact toy_scf_shaped|].
  exact (@dia_returns_on_expected_shapes QBase toy toy_shapes mag None w0
           2 2 2 toy_scf_valid toy_scf_shaped).
Defined.

Lemma para_returns_on_documented_shapes_witness :
  valid_scf (heap_of w0) (_scf mag) /\ scf_shaped (_scf mag) 2 2 2 /\
  exists r, value (run (para mag None None None CphfNone) w0) = Ok r /\
            ashape r = [3; 3].
Proof.
  split; [exact toy_scf_valid|]. split; [exact toy_scf_shaped|].
  exact (@para_returns_on_documented_shapes QBase toy toy_frame toy_shapes
           mag None None None CphfNone w0 2 2 2
           toy_scf_valid toy_scf_shaped I I).
Defined.


End ToyRuns2.

(** ** The attributes of the magnetizability object *)

Section Fields.
Context {B : Base} {X : Externals} {OF : ObjectFields}.

(** A program that calls none of [names] leaves the attributes of the
    object as they are, in any run, when the other routines do. *)
Lemma avoids_fields (names : list string) A (p : prog A) :
  avoids names p ->
  (forall T (c : ext T) w,
     mem_name (ext_name c) names = false ->
     fields_of (hidden_of (fst (ext_handle c w))) = fields_of (hidden_of w)) ->
  forall w, fields_of (hidden_of (final (run p w))) = fields_of (hidden_of w).
Proof.
  intros Hp Hf.
  induction Hp as [a | T c k Hc Hk IH | T c k Hc Hk IH]; intros w; simpl.
  - reflexivity.
  - destruct (do_op c (heap_of w)) as [h' [x|e]]; simpl.
    + rewrite IH. reflexivity.
    + reflexivity.
  - pose proof (Hf _ c w Hc) as P.
    destruct (ext_handle c w) as [w' [x|e]]; simpl in *.
    + rewrite IH. exact P.
    + exact P.
Qed.

Lemma dia_avoids_the_rest (m : MagObj) (g : option gauge) :
  avoids ["magobj.get_fock"; "magobj.get_ovlp"; "uhf_nmr.solve_mo1";
          "time.clock"; "time.time"; "log.timer"; "logger.timer"] (dia m g).
Proof. unfold dia. destruct g; expose; avoids_tac. Qed.

(** In a run of [para] that returns, [logger.timer] has been called once,
    on the magnetizability object, and is the last routine called. *)
Lemma para_fields (m : MagObj) (g : option gauge)
    (h1 s1 : option (aref * aref)) (wc : cphf_arg) (w : world) (r : aref) :
  let o := run (para m g h1 s1 wc) w in
  value o = Ok r ->
  exists t0 t1 wT,
    pick logger_timer_at (trace o) = [(m, "solving mo1 eqn", t0, t1, wT)] /\
    ((forall T (c : ext T) w1,
        mem_name (ext_name c) ["logger.timer"] = false ->
        fields_of (hidden_of (fst (ext_handle c w1)))
        = fields_of (hidden_of w1)) ->
     fields_of (hidden_of wT) = fields_of (hidden_of w) /\
     fields_of (hidden_of (final o))
     = fields_of (hidden_of
         (fst (ext_handle (Logger_timer m "solving mo1 eqn" t0 t1) wT)))).
Proof.
  cbv zeta. unfold para. destruct h1, s1; expose;
    repeat (run_step; [ | discriminate ]);
    cbn [run value final after trace heap_of hidden_of app pick logger_timer_at];
    intros _.
  all: do 3 eexists; (split; [reflexivity|]); intros Hf;
    repeat match goal with
           | E : ext_handle ?c ?w1 = (_, _) |- _ =>
               lazymatch c with
               | Logger_timer _ _ _ _ => fail
               | _ =>
                   let P := fresh "P" in
                   pose proof (Hf _ c w1 eq_refl) as P;
                   rewrite E in P; cbn [fst hidden_of] in P; clear E
               end
           end;
    match goal with
    | E : ext_handle (Logger_timer _ _ _ _) _ = _ |- _ => rewrite E
    end; cbn [fst];
    split; congruence.
Qed.

Context {FC : FrameContract}.

(** C7: a call of [dia] or of [para], whether it returns or fails, leaves
    every array buffer that existed before the call as it was (so the
    arrays of the SCF object and the caller's [h1] and [s1]), and the
    tensor returned is in a buffer that did not exist before the call;
    this holds when the routines of the environment leave existing buffers
    alone and [rhf_mag._get_dia_1e] returns a new array.  [dia] leaves the
    attributes of the magnetizability object as they were, when
    [rhf_mag._get_dia_1e] and [jk.get_jk] do.  [para] does not: when it
    returns it has handed the object to [logger.timer] once, and the
    attributes the object has after the call are those [logger.timer]
    left, the other routines leaving them alone. *)
Theorem inputs_are_not_mutated (m : MagObj) (g : option gauge)
    (h1 s1 : option (aref * aref)) (wc : cphf_arg) (w : world) :
  let n := List.length (heap_of w) in
  (unchanged_below n (heap_of w) (heap_of (final (run (dia m g) w))) /\
   forall r, value (run (dia m g) w) = Ok r -> n <= base r) /\
  (unchanged_below n (heap_of w) (heap_of (final (run (para m g h1 s1 wc) w))) /\
   forall r, value (run (para m g h1 s1 wc) w) = Ok r -> n <= base r) /\
  ((forall T (c : ext T) w1,
      mem_name (ext_name c) ["rhf_mag._get_dia_1e"; "jk.get_jk"] = true ->
      fields_of (hidden_of (fst (ext_handle c w1))) = fields_of (hidden_of w1)) ->
   fields_of (hidden_of (final (run (dia m g) w))) = fields_of (hidden_of w)) /\
  (forall r, value (run (para m g h1 s1 wc) w) = Ok r ->
   exists t0 t1 wT,
     pick logger_timer_at (trace (run (para m g h1 s1 wc) w))
     = [(m, "solving mo1 eqn", t0, t1, wT)] /\
     ((forall T (c : ext T) w1,
         mem_name (ext_name c) ["logger.timer"] = false ->
         fields_of (hidden_of (fst (ext_handle c w1)))
         = fields_of (hidden_of w1)) ->
      fields_of (hidden_of wT) = fields_of (hidden_of w) /\
      fields_of (hidden_of (final (run (para m g h1 s1 wc) w)))
      = fields_of (hidden_of
          (fst (ext_handle (Logger_timer m "solving mo1 eqn" t0 t1) wT))))).
Proof.
  cbv zeta. split; [|split; [|split]].
  - eapply keeps_sound; [apply dia_keeps | auto].
  - eapply keeps_sound; [apply para_keeps | auto].
  - intros Hf. apply avoids_fields with (1 := dia_avoids_the_rest m g).
    intros T c w1 Hc. apply Hf. destruct c; try discriminate Hc; reflexivity.
  - intros r Hr. exact (para_fields m g h1 s1 wc w Hr).
Qed.

End Fields.

(** ** The environment whose timer sets attributes *)

Section ToyFieldsFacts.
Import Numpy Toy ToyFields.

Lemma ftoy_extends T (c : @ext FBase T) (w : @world FBase) :
  exists t, @heap_of FBase (fst (ftoy_handle c w)) = @heap_of FBase w ++ t.
Proof.
  destruct c; unfold ftoy_handle;
    try (eexists []; rewrite app_nil_r; reflexivity);
    match goal with
    | |- context [alloc_all ?h ?l] =>
        pose proof (alloc_all_heap l h) as E;
        destruct (alloc_all h l) as [h' l']; simpl in E; subst h';
        eexists; reflexivity
    end.
Qed.

Lemma ftoy_frame : @FrameContract FBase ftoy.
Proof.
  split.
  - intros T c w w' r E. destruct (ftoy_extends c w) as [t Ht].
    change (ext_handle c w) with (ftoy_handle c w) in E.
    rewrite E in Ht. simpl in Ht. rewrite Ht. split.
    + rewrite length_app. apply Nat.le_add_r.
    + intros l Hl. rewrite app_nth1 by exact Hl. reflexivity.
  - intros m g dm0 dme0 w w' e1 E. cbn in E. inversion E. simpl. lia.
Qed.

(** Only [logger.timer] sets attributes on the magnetizability object. *)
Lemma ftoy_fields T (c : @ext FBase T) (w : @world FBase) :
  mem_name (ext_name c) ["logger.timer"] = false ->
  @fields_of FBase ffields (hidden_of (fst (ftoy_handle c w)))
  = @fields_of FBase ffields (hidden_of w).
Proof.
  intros Hc. destruct c; try discriminate Hc; unfold ftoy_handle;
    try match goal with
        | |- context [alloc_all ?h ?l] => destruct (alloc_all h l)
        end; reflexivity.
Qed.

End ToyFieldsFacts.

Section ToyFieldsRuns.
Import Numpy Toy ToyFields.

Lemma inputs_are_not_mutated_witness :
  unchanged_below 6 h0
    (heap_of (final (run (X:=ftoy) (para fmag None None None CphfNone) fw0))) /\
  @fields_of FBase ffields
    (hidden_of (final (run (X:=ftoy) (dia fmag None) fw0)))
  = @fields_of FBase ffields (hidden_of fw0) /\
  exists t0 t1 wT,
    pick logger_timer_at
      (trace (run (X:=ftoy) (para fmag None None None CphfNone) fw0))
    = [(fmag, "solving mo1 eqn", t0, t1, wT)].
Proof.
  destruct (@inputs_are_not_mutated FBase ftoy ffields ftoy_frame
              fmag None None None CphfNone fw0) as ([_ _] & [Hp _] & Hd & Ht).
  split; [exact Hp|]. split.
  - apply Hd. intros T c w1 Hc. apply ftoy_fields.
    destruct c; try discriminate Hc; reflexivity.
  - assert (E : value (run (X:=ftoy) (para fmag None None None CphfNone) fw0)
                = Ok (mk_ref 37 [3; 3])) by (vm_compute; reflexivity).
    destruct (Ht _ E) as (t0 & t1 & wT & P & _). eauto.
Defined.

(** C7, the attributes: in this environment, which leaves existing
    buffers alone, [para] returns and the magnetizability object, which
    had no attribute [_t0] and [_w0] before the call, has them after it:
    its attributes are not what they were. *)
Lemma para_sets_timer_attributes :
  @FrameContract FBase ftoy /\
  (exists r, value (run (X:=ftoy) (para fmag None None None CphfNone) fw0)
             = Ok r) /\
  @fields_of FBase ffields
    (hidden_of (final (run (X:=ftoy) (para fmag None None None CphfNone) fw0)))
  = [("_t0", inject_Z 3); ("_w0", inject_Z 3)] /\
  @fields_of FBase ffields
    (hidden_of (final (run (X:=ftoy) (para fmag None None None CphfNone) fw0)))
  <> @fields_of FBase ffields (hidden_of fw0).
Proof.
  split; [exact ftoy_frame|]. split.
  - exists (mk_ref 37 [3; 3]). vm_compute. reflexivity.
  - split; [vm_compute; reflexivity | vm_compute; discriminate].
Qed.

End ToyFieldsRuns.

(** ** The tensors as functions of the values of the inputs *)

Section ValueFacts.
Context {B : Base} {X : Externals}.
Import Numpy.

Lemma rv_op_case T (c : op T) (k : T -> prog aref) (w : world)
    (V : result ndarray) :
  (forall h' x, do_op c (heap_of w) = (h', Ok x) ->
     result_value (run (k x) (mk_world h' (hidden_of w))) = V) ->
  (forall h' e, do_op c (heap_of w) = (h', Raise e) -> Raise e = V) ->
  result_value (run (OpCall c k) w) = V.
Proof.
  intros Hok Herr. simpl. destruct (do_op c (heap_of w)) as [h' [x|e]] eqn:E.
  - apply (Hok _ _ eq_refl).
  - apply (Herr _ _ eq_refl).
Qed.

Lemma rv_ext_case T (c : ext T) (k : T -> prog aref) (w : world)
    (V : result ndarray) :
  (forall w' x, ext_handle c w = (w', Ok x) -> result_value (run (k x) w') = V) ->
  (forall w' e, ext_handle c w = (w', Raise e) -> Raise e = V) ->
  result_value (run (ExtCall c k) w) = V.
Proof.
  intros Hok Herr. simpl. destruct (ext_handle c w) as [w' [x|e]] eqn:E.
  - apply (Hok _ _ eq_refl).
  - apply (Herr _ _ eq_refl).
Qed.

Lemma index_map A R (f : A -> R) (l : list A) (i : nat) :
  index_val (map f l) i = rmap f (index_val l i).
Proof.
  unfold index_val. rewrite nth_error_map.
  destruct (nth_error l i); reflexivity.
Qed.

End ValueFacts.

Section ValueFacts2.
Context {B : Base}.

Lemma index_some A (l : list A) (i : nat) (a : A) :
  nth_error l i = Some a -> index_val l i = Ok a.
Proof. unfold index_val. intros E. rewrite E. reflexivity. Qed.

Lemma index_none A (l : list A) (i : nat) :
  nth_error l i = None -> index_val l i = Raise IndexError.
Proof. unfold index_val. intros E. rewrite E. reflexivity. Qed.

End ValueFacts2.

(** [val_step] runs the next call of a program and the next step of its
    value side by side. *)
Ltac val_norm R :=
  unfold scf_values, read2 in R;
  cbn [rmap heap_of fst snd map] in R;
  norm_reads_in R;
  unfold read in R;
  cbn [Numpy.shape Numpy.data base ashape] in R.

Ltac val_goal :=
  cbn [rbind rmap fst snd];
  unfold read2, ravel_val, read;
  cbn [Numpy.shape Numpy.data base ashape].

Ltac val_ok R :=
  val_norm R;
  lazymatch type of R with
  | Ok _ = Ok ?v => apply ok_inj in R; subst v
  | _ => rewrite R; clear R; val_goal
  end.

Ltac val_raise R :=
  val_norm R; rewrite R; reflexivity.

Ltac val_op_ok E :=
  cbn [do_op] in E;
  lazymatch type of E with
  | fresh _ _ = (_, Ok _) =>
      let v := fresh "v" in
      let R := fresh "R" in
      apply fresh_ok in E; destruct E as (v & R & ? & ?); subst; val_ok R
  | store _ _ _ = (_, Ok _) =>
      let d := fresh "d" in
      let R := fresh "R" in
      apply store_ok in E; destruct E as (d & R & ?); subst; val_ok R
  | (_, if ?b then _ else _) = (_, Ok _) =>
      let R := fresh "R" in
      destruct b eqn:R; [ inversion E; subst; clear E | discriminate E ];
      cbn [ashape] in R;
      unfold reshape_val; cbn [Numpy.shape Numpy.data]; rewrite R; val_goal
  | (_, match nth_error ?l ?i with Some _ => _ | None => _ end) = (_, Ok _) =>
      let R := fresh "R" in
      destruct (nth_error l i) eqn:R; [ inversion E; subst; clear E | discriminate E ];
      rewrite index_map, (index_some _ _ R); val_goal; nth_facts; len_norm_hyps
  | (_, Ok _) = (_, Ok _) => val_norm E; inversion E; subst; clear E
  end.

Ltac val_op_raise E :=
  cbn [do_op] in E;
  lazymatch type of E with
  | fresh _ (Ok _) = (_, Raise _) => apply fresh_raises in E; discriminate E
  | fresh _ _ = (_, Raise _) => apply fresh_raises in E; val_raise E
  | store _ _ _ = (_, Raise _) => apply store_raises in E; val_raise E
  | (_, if ?b then _ else _) = (_, Raise _) =>
      let R := fresh "R" in
      destruct b eqn:R; [ discriminate E | inversion E; subst; clear E ];
      cbn [ashape] in R;
      unfold reshape_val; cbn [Numpy.shape Numpy.data]; rewrite R; reflexivity
  | (_, match nth_error ?l ?i with Some _ => _ | None => _ end) = (_, Raise _) =>
      let R := fresh "R" in
      destruct (nth_error l i) eqn:R; [ discriminate E | inversion E; subst; clear E ];
      rewrite index_map, (index_none _ _ R); reflexivity
  | (_, Ok _) = (_, Raise _) => discriminate E
  end.

Ltac val_facts E :=
  let Hu := fresh "Hu" in
  let Hl := fresh "Hl" in
  pose proof E as Hu; apply ext_frame in Hu; cbn [heap_of] in Hu;
  pose proof (proj1 Hu) as Hl;
  lazymatch type of E with
  | ext_handle (Rhf_get_dia_1e _ _ _ _) _ = _ =>
      let Hv := fresh "Hv" in
      let Hf := fresh "Hf" in
      pose proof E as Hv; apply dia_1e_valid in Hv; unfold valid in Hv;
      pose proof E as Hf; apply dia_1e_fresh in Hf; cbn [heap_of] in Hv, Hf
  | ext_handle (Jk_get_jk _ _ _ _ _ _ _) _ = _ =>
      let Hj := fresh "Hj" in
      pose proof E as Hj; apply jk_new in Hj; unfold valid in Hj;
      cbn [heap_of] in Hj
  | ext_handle (Get_fock _ _ _) _ = _ =>
      let Hv := fresh "Hv" in
      pose proof E as Hv; apply fock_valid in Hv; unfold valid2, valid in Hv;
      destruct Hv as [? ?]
  | ext_handle (Get_ovlp _ _ _) _ = _ =>
      let Hv := fresh "Hv" in
      pose proof E as Hv; apply ovlp_valid in Hv; unfold valid in Hv
  | ext_handle (Solve_mo1 _ _ _ _ _ _ _) _ = _ =>
      let Hv := fresh "Hv" in
      pose proof E as Hv; apply solve_valid in Hv; unfold valid2, valid in Hv;
      destruct Hv as [[? ?] [? ?]]
  end.

Ltac val_fun E :=
  lazymatch type of E with
  | ext_handle (Rhf_get_dia_1e _ _ _ _) _ = _ => apply dia_1e_fun in E
  | ext_handle (Jk_get_jk _ _ _ _ _ _ _) _ = _ => apply jk_fun in E
  | ext_handle (Get_fock _ _ _) _ = _ => apply fock_fun in E
  | ext_handle (Get_ovlp _ _ _) _ = _ => apply ovlp_fun in E
  | ext_handle (Solve_mo1 _ _ _ _ _ _ _) _ = _ => apply solve_fun in E
  end.

Ltac val_ext_ok w' E :=
  lazymatch type of E with
  | ext_handle ?c ?w0 = _ =>
      lazymatch eval cbv in (is_timer c) with
      | true =>
          let H := fresh "H" in
          let hw := fresh "hw" in
          let sw := fresh "sw" in
          pose proof (proj1 (timers_fun c w0 eq_refl)) as H;
          rewrite E in H; cbn [fst heap_of] in H;
          destruct w' as [hw sw]; cbn [heap_of] in H; subst hw; clear E
      | false =>
          val_facts E; len_norm_hyps;
          val_fun E; val_norm E; rewrite E; clear E; val_goal
      end
  end.

Ltac val_ext_raise E :=
  lazymatch type of E with
  | ext_handle ?c ?w0 = _ =>
      lazymatch eval cbv in (is_timer c) with
      | true =>
          let H := fresh "H" in
          let x := fresh "x" in
          destruct (proj2 (timers_fun c w0 eq_refl)) as [x H];
          rewrite E in H; discriminate H
      | false => val_fun E; val_norm E; rewrite E; reflexivity
      end
  end.

Ltac val_step :=
  lazymatch goal with
  | |- result_value (run (OpCall _ _) _) = _ =>
      let h := fresh "h" in
      let x := fresh "x" in
      let e := fresh "e" in
      let E := fresh "E" in
      apply rv_op_case; [ intros h x E | intros h e E ];
      cbv beta; cbn [heap_of hidden_of] in E |- *;
      [ val_op_ok E | val_op_raise E ]
  | |- result_value (run (ExtCall _ _) _) = _ =>
      let w' := fresh "w" in
      let x := fresh "x" in
      let e := fresh "e" in
      let E := fresh "E" in
      apply rv_ext_case; [ intros w' x E | intros w' e E ];
      cbv beta; cbn [heap_of hidden_of] in E |- *;
      [ val_ext_ok w' E | val_ext_raise E ]
  | |- result_value (run (Ret _) _) = _ =>
      cbn [run result_value value final rmap heap_of];
      norm_reads; unfold read; cbn [Numpy.shape Numpy.data base ashape];
      reflexivity
  end.

Section DiaValues.
Context {B : Base} {X : Externals} {FC : FrameContract} {DC : DiaContract}
        {F : Functional}.
Import Numpy.

(** What [dia] returns or raises is [dia_val] of the values of the arrays
    of the SCF object. *)
Lemma dia_spec (m : MagObj) (g : option gauge) (w : world) :
  valid_scf (heap_of w) (_scf m) ->
  result_value (run (dia m g) w)
  = dia_val m g (scf_values (heap_of w) (_scf m)).
Proof.
  intros (Ve & Vc & Vo). destruct Ve as [Ve1 Ve2], Vc as [Vc1 Vc2], Vo as [Vo1 Vo2].
  unfold valid in *.
  unfold dia, dia_val, iadd_value, isub_value. destruct g; expose.
  all: unfold scf_values, read2; cbn [v_energy v_coeff v_occ fst snd]; unfold read.
  - repeat val_step.
  - repeat val_step.
Qed.

End DiaValues.

Section ParaValues.
Context {B : Base} {X : Externals} {FC : FrameContract} {VR : ValidResults}
        {F : Functional}.
Import Numpy.

(** What [para] returns or raises is [para_val] of the values of the
    arrays of the SCF object and of the caller's [h1] and [s1]. *)
Lemma para_spec (m : MagObj) (g : option gauge) (h1 s1 : option (aref * aref))
    (wc : cphf_arg) (w : world) :
  valid_scf (heap_of w) (_scf m) ->
  valid_opt (heap_of w) h1 -> valid_opt (heap_of w) s1 ->
  result_value (run (para m g h1 s1 wc) w)
  = para_val m g (opt_values (heap_of w) h1) (opt_values (heap_of w) s1)
             (scf_values (heap_of w) (_scf m)).
Proof.
  intros (Ve & Vc & Vo) V1 V2.
  destruct Ve as [Ve1 Ve2], Vc as [Vc1 Vc2], Vo as [Vo1 Vo2].
  unfold para, para_val, mag_para_value, iadd_value, isub_value.
  destruct h1 as [h1|], s1 as [s1|]; cbn [valid_opt opt_values] in V1, V2 |- *;
    unfold valid2 in *;
    repeat match goal with H : _ /\ _ |- _ => destruct H end;
    unfold valid in *; expose;
    unfold scf_values, read2; cbn [v_energy v_coeff v_occ fst snd]; unfold read.
  - repeat val_step.
  - repeat val_step.
  - repeat val_step.
  - repeat val_step.
Qed.

End ParaValues.

Section EqualInputs.
Context {B : Base} {X : Externals} {FC : FrameContract} {VR : ValidResults}
        {DC : DiaContract} {F : Functional}.

(** C8: the tensor [dia] returns, or the exception it raises, is the
    function [dia_val] of the magnetizability object, the gauge origin and
    the values of the arrays of the SCF object; what [para] returns or
    raises is the function [para_val] of these and of the values of the
    caller's [h1] and [s1]; [with_cphf] plays no part.  So two calls with
    the same magnetizability object and gauge origin, made in any two
    states of the interpreter (whatever the store of arrays, the clock and
    the other state of the environment are in each, the second call being
    possibly made after the first), return equal tensors or raise the same
    exception, as soon as the arrays of the SCF object, and the caller's
    [h1] and [s1], hold the same values in both.  This assumes of the
    environment that what its routines return is a function of the values
    of their arguments, that they leave existing buffers alone and return
    arrays that are in the store, [rhf_mag._get_dia_1e] and [jk.get_jk] in
    new buffers, and that the clock and the timers return. *)
Theorem equal_inputs_give_equal_tensors (m : MagObj) (g : option gauge)
    (h1 h1' s1 s1' : option (aref * aref)) (wc wc' : cphf_arg) (w w' : world) :
  valid_scf (heap_of w) (_scf m) -> valid_scf (heap_of w') (_scf m) ->
  valid_opt (heap_of w) h1 -> valid_opt (heap_of w') h1' ->
  valid_opt (heap_of w) s1 -> valid_opt (heap_of w') s1' ->
  scf_values (heap_of w) (_scf m) = scf_values (heap_of w') (_scf m) ->
  opt_values (heap_of w) h1 = opt_values (heap_of w') h1' ->
  opt_values (heap_of w) s1 = opt_values (heap_of w') s1' ->
  result_value (run (dia m g) w)
  = dia_val m g (scf_values (heap_of w) (_scf m)) /\
  result_value (run (para m g h1 s1 wc) w)
  = para_val m g (opt_values (heap_of w) h1) (opt_values (heap_of w) s1)
             (scf_values (heap_of w) (_scf m)) /\
  result_value (run (dia m g) w) = result_value (run (dia m g) w') /\
  result_value (run (para m g h1 s1 wc) w)
  = result_value (run (para m g h1' s1' wc') w').
Proof.
  intros V V' V1 V1' V2 V2' Es E1 E2.
  rewrite !dia_spec, !para_spec by assumption.
  rewrite Es, E1, E2. repeat split; reflexivity.
Qed.

End EqualInputs.

(** ** The toy environment computes functions of the values *)

Section ToyValues.
Import Numpy Toy.

Lemma alloc_all_read (shapes : list (list nat)) (h : heap) :
  map (read (fst (alloc_all h shapes))) (snd (alloc_all h shapes))
  = map (fun sh => mk_nd sh (ramp (size sh))) shapes.
Proof.
  revert h. induction shapes as [|sh rest IH]; intro h; cbn [alloc_all].
  - reflexivity.
  - unfold alloc. cbn [data shape fst snd].
    match goal with
    | |- context [alloc_all ?x rest] =>
        specialize (IH x);
        pose proof (alloc_all_heap rest x) as IHh;
        destruct (alloc_all x rest) as [h2 l]
    end.
    cbn [fst snd map] in *. rewrite IH. f_equal.
    subst h2. unfold read. cbn [base ashape].
    rewrite <- app_assoc. rewrite app_nth2 by lia.
    rewrite Nat.sub_diag. reflexivity.
Qed.

Lemma ok_inj_some A (x y : A) : Some x = Some y -> x = y.
Proof. intros E. inversion E. reflexivity. Qed.

Ltac toy_fun E :=
  cbn [ext_handle toy toy_handle] in E;
  match type of E with
  | context [alloc_all ?h ?l] =>
      let A := fresh "A" in
      let h' := fresh "h" in
      let l' := fresh "l" in
      pose proof (alloc_all_read l h) as A; destruct (alloc_all h l) as [h' l'];
      inversion E; subst; clear E; cbn [fst snd map heap_of] in A;
      repeat (destruct l' as [|? l']; try discriminate A);
      cbn [map] in A; unfold read2;
      cbn [nth rmap fst snd heap_of];
      repeat match goal with
             | H : _ :: _ = _ :: _ |- _ =>
                 let A1 := fresh "A" in
                 let A2 := fresh "A" in
                 pose proof (f_equal (@hd_error _) H) as A1;
                 pose proof (f_equal (@tl _) H) as A2;
                 cbn [hd_error tl] in A1, A2; clear H;
                 apply (@ok_inj_some _) in A1; rewrite A1
             end;
      reflexivity
  end.

Lemma toy_functional : @Functional QBase toy.
Proof.
  refine (@Build_Functional QBase toy
    (fun _ _ _ _ _ => Ok (mk_nd [3; 3] (ramp (size [3; 3]))))
    (fun _ dms _ _ _ comp _ =>
       Ok (map (fun sh => mk_nd sh (ramp (size sh)))
               (map (fun d => comp :: shape d) dms)))
    (fun _ _ dm0 _ =>
       Ok (mk_nd (3 :: shape (fst dm0)) (ramp (size (3 :: shape (fst dm0)))),
           mk_nd (3 :: shape (snd dm0)) (ramp (size (3 :: shape (snd dm0))))))
    (fun m _ _ _ =>
       let n := nao_of (fst (mo_coeff (_scf m))) in
       Ok (mk_nd [3; n; n] (ramp (size [3; n; n]))))
    (fun _ _ _ _ _ h1 _ _ =>
       let occ (a : ndarray) := nth 2 (shape a) 0 in
       let s0 := 3 :: tl (shape (fst h1)) in
       let s1 := 3 :: tl (shape (snd h1)) in
       let s2 := [3; occ (fst h1); occ (fst h1)] in
       let s3 := [3; occ (snd h1); occ (snd h1)] in
       Ok ((mk_nd s0 (ramp (size s0)), mk_nd s1 (ramp (size s1))),
           (mk_nd s2 (ramp (size s2)), mk_nd s3 (ramp (size s3)))))
    _ _ _ _ _ _).
  - intros m g dm0 dme0 w w' r E. toy_fun E.
  - intros mo dms scr intor aosym comp hermi w w' r E.
    cbn [ext_handle toy toy_handle] in E.
    match type of E with
    | context [alloc_all ?h ?l] =>
        pose proof (alloc_all_read l h) as A; destruct (alloc_all h l) as [h' l']
    end.
    inversion E; subst; clear E. cbn [fst snd rmap heap_of] in *.
    rewrite A, !map_map. reflexivity.
  - intros m dm0 g w w' r E. toy_fun E.
  - intros m mo g w w' r E. toy_fun E.
  - intros m e co oc h1 s1 wc w w' r E. toy_fun E.
  - intros T c w Ht.
    destruct c; try discriminate Ht; cbn; split; try reflexivity;
      eexists; reflexivity.
Qed.

End ToyValues.

Section ToyRuns4.
Import Numpy Toy.

Lemma equal_inputs_give_equal_tensors_witness :
  result_value (run (para mag None None None CphfNone) w0)
  = result_value
      (run (para mag None None None (CphfBool false))
           (final (run (para mag None None None CphfNone) w0))) /\
  value (run (para mag None None None CphfNone) w0)
  <> value (run (para mag None None None (CphfBool false))
                (final (run (para mag None None None CphfNone) w0))) /\
  result_value (run (dia mag None) w0)
  = result_value (run (dia mag None) (final (run (dia mag None) w0))).
Proof.
  assert (V1 : valid_scf
                 (heap_of (final (run (para mag None None None CphfNone) w0)))
                 (_scf mag))
    by (unfold valid_scf, valid2, valid; vm_compute; lia).
  assert (V2 : valid_scf (heap_of (final (run (dia mag None) w0))) (_scf mag))
    by (unfold valid_scf, valid2, valid; vm_compute; lia).
  split; [|split].
  - refine (proj2 (proj2 (proj2
      (@equal_inputs_give_equal_tensors QBase toy toy_frame toy_valid toy_dia
         toy_functional mag None None None None None CphfNone (CphfBool false)
         w0 (final (run (para mag None None None CphfNone) w0))
         toy_scf_valid V1 I I I I _ eq_refl eq_refl)))).
    vm_compute. reflexivity.
  - vm_compute. discriminate.
  - refine (proj1 (proj2 (proj2
      (@equal_inputs_give_equal_tensors QBase toy toy_frame toy_valid toy_dia
         toy_functional mag None None None None None CphfNone CphfNone
         w0 (final (run (dia mag None) w0))
         toy_scf_valid V2 I I I I _ eq_refl eq_refl)))).
    vm_compute. reflexivity.
Defined.

End ToyRuns4.
